(** * Session orchestration engine of the voice-agent backend

    A shallow embedding of [src/websocket.js] (the per-connection closure of
    [initWebSocketServer]) together with the two stream services it drives
    ([createOpenAIStream] of [src/services/openai.js] and [createTTSStream] of
    the text-to-speech service), and the properties of the transcript
    accumulator, the endpointer and the turn orchestrator.
    The two HTTP routes of [src/server.js] that read the stored turns and
    create bookings are embedded beside it.

    Conventions of the embedding.
    - A JavaScript string is a [string]: one [ascii] per UTF-16 code unit,
      for code units below 256 (the Latin-1 range).  On that range
      [toLowerCase] acts unit by unit and preserves the length.  The
      transcript accumulator is embedded a second time over every code
      unit ([Utf16], [Utf16Accumulator]), where lower-casing can lengthen a
      string; on the strings of [Js] the two embeddings agree.
    - A variable holding [null] or a string is an [option string]; the
      truthiness test of the source ([!x], [x && ...]) is [truthy].
    - The closure variables of one connection are the fields of [Vars];
      the closures the code hands to timers and streams are rows of finite
      maps keyed by the identifier returned at creation.
    - One run of the event loop (one inbound frame, one timer callback, one
      provider callback, one resolved promise) is one [step]. *)

From Stdlib Require Import ZArith Lia Bool Ascii.
From Stdlib Require String.
From Stdlib Require QArith.
From stdpp Require Import base option list gmap strings.

#[local] Open Scope nat_scope.

(** ** JavaScript strings *)

Module Js.

(** [String.prototype.trim] removes the code units of [WhiteSpace] and
    [LineTerminator]; below 256 these are TAB, LF, VT, FF, CR, SP and NBSP. *)
Definition isWhiteSpace (c : ascii) : bool :=
  let n := nat_of_ascii c in
  ((9 <=? n) && (n <=? 13)) || (n =? 32) || (n =? 160).

Fixpoint trimStart (s : string) : string :=
  match s with
  | EmptyString => EmptyString
  | String c s' => if isWhiteSpace c then trimStart s' else s
  end.

Fixpoint trimEnd (s : string) : string :=
  match s with
  | EmptyString => EmptyString
  | String c s' =>
      match trimEnd s' with
      | EmptyString => if isWhiteSpace c then EmptyString else String c EmptyString
      | r => String c r
      end
  end.

Definition trim (s : string) : string := trimEnd (trimStart s).

(** [toLowerCase] on one code unit: A-Z, and the Latin-1 capitals
    U+00C0..U+00DE except the multiplication sign U+00D7. *)
Definition toLowerCaseUnit (c : ascii) : ascii :=
  let n := nat_of_ascii c in
  if ((65 <=? n) && (n <=? 90))
     || ((192 <=? n) && (n <=? 222) && negb (n =? 215))
  then ascii_of_nat (n + 32) else c.

Fixpoint toLowerCase (s : string) : string :=
  match s with
  | EmptyString => EmptyString
  | String c s' => String (toLowerCaseUnit c) (toLowerCase s')
  end.

(** [s.startsWith(p)] *)
Definition startsWith (s p : string) : bool := String.prefix p s.

(** [s.includes(sub)] *)
Fixpoint includes (s sub : string) : bool :=
  String.prefix sub s ||
  match s with
  | EmptyString => false
  | String _ s' => includes s' sub
  end.

(** [s.substring(a, b)]: both indices are clamped to the length and
    swapped when out of order. *)
Definition substring (s : string) (a b : nat) : string :=
  let a' := Nat.min a (String.length s) in
  let b' := Nat.min b (String.length s) in
  String.substring (Nat.min a' b') (Nat.max a' b' - Nat.min a' b') s.

(** [s.substring(a)] *)
Definition substringFrom (s : string) (a : nat) : string :=
  substring s a (String.length s).

(** Truthiness of a value that is [null] or a string. *)
Definition truthy (o : option string) : bool :=
  match o with
  | Some (String _ _) => true
  | _ => false
  end.

(** [o.length] after a truthiness test, [0] for [null]. *)
Definition lengthOr0 (o : option string) : nat :=
  match o with Some s => String.length s | None => 0 end.

End Js.

(** ** JavaScript strings over every UTF-16 code unit

    [Js] covers the code units below 256, where lower-casing keeps the
    length of a string.  Beyond them it need not: the lower case of U+0130
    (capital I with dot above) is the two code units U+0069 U+0307.  Here a
    string is the list of its code units, whatever they are. *)

Module Utf16.
#[local] Open Scope N_scope.

Definition JsString := list N.

(** The code units [String.prototype.trim] removes: the [WhiteSpace] and
    [LineTerminator] code points, all of them below U+10000. *)
Definition isWhiteSpace (c : N) : bool :=
  ((0x9 <=? c) && (c <=? 0xD)) || (c =? 0x20) || (c =? 0xA0) || (c =? 0x1680)
  || ((0x2000 <=? c) && (c <=? 0x200A)) || (c =? 0x2028) || (c =? 0x2029)
  || (c =? 0x202F) || (c =? 0x205F) || (c =? 0x3000) || (c =? 0xFEFF).

Fixpoint trimStart (s : JsString) : JsString :=
  match s with
  | [] => []
  | c :: s' => if isWhiteSpace c then trimStart s' else s
  end.

Fixpoint trimEnd (s : JsString) : JsString :=
  match s with
  | [] => []
  | c :: s' =>
      match trimEnd s' with
      | [] => if isWhiteSpace c then [] else [c]
      | r => c :: r
      end
  end.

Definition trim (s : JsString) : JsString := trimEnd (trimStart s).

(** The lower case of one code unit up to U+017F (Basic Latin, Latin-1
    Supplement, Latin Extended-A).  Code units above U+017F are left as they
    are, which is what [toLowerCase] does to every code unit without a
    lower-case mapping, the combining marks U+0300..U+036F among them. *)
Definition toLowerCaseUnit (c : N) : list N :=
  if (0x41 <=? c) && (c <=? 0x5A) then [c + 32]
  else if (0xC0 <=? c) && (c <=? 0xDE) && negb (c =? 0xD7) then [c + 32]
  else if c =? 0x130 then [0x69; 0x307]
  else if c =? 0x178 then [0xFF]
  else if ((0x100 <=? c) && (c <=? 0x137) || (0x14A <=? c) && (c <=? 0x177))
          && N.even c
  then [c + 1]
  else if ((0x139 <=? c) && (c <=? 0x148) || (0x179 <=? c) && (c <=? 0x17E))
          && N.odd c
  then [c + 1]
  else [c].

Definition toLowerCase (s : JsString) : JsString := flat_map toLowerCaseUnit s.

(** [s.startsWith(p)] *)
Fixpoint startsWith (s p : JsString) : bool :=
  match p, s with
  | [], _ => true
  | a :: p', b :: s' => (a =? b) && startsWith s' p'
  | _ :: _, [] => false
  end.

(** [s.includes(sub)] *)
Fixpoint includes (s sub : JsString) : bool :=
  startsWith s sub ||
  match s with
  | [] => false
  | _ :: s' => includes s' sub
  end.

(** [s.substring(a, b)] and [s.substring(a)] *)
Definition substring (s : JsString) (a b : nat) : JsString :=
  let a' := Nat.min a (length s) in
  let b' := Nat.min b (length s) in
  take (Nat.max a' b' - Nat.min a' b') (drop (Nat.min a' b') s).

Definition substringFrom (s : JsString) (a : nat) : JsString :=
  substring s a (length s).

(** Truthiness of a value that is [null] or a string. *)
Definition truthy (o : option JsString) : bool :=
  match o with
  | Some (_ :: _) => true
  | _ => false
  end.

(** The code units of a string of [Js]. *)
Definition ofLatin1 (s : string) : JsString :=
  map N_of_ascii (String.list_ascii_of_string s).

End Utf16.

(** ** Node's [Buffer]

    [Buffer.from(string)] holds the UTF-8 bytes of the string and
    [buf.toString('base64')] is their base64 text, padded with [=]. *)

Module Buffer.

(** UTF-8 of one code unit below 256: itself below 128, two bytes above. *)
Definition utf8Unit (c : ascii) : list N :=
  let n := N_of_ascii c in
  if (n <? 128)%N then [n]
  else [N.lor 192 (N.shiftr n 6); N.lor 128 (N.land n 63)].

(** [Buffer.from(s)] *)
Definition from (s : string) : list N :=
  flat_map utf8Unit (String.list_ascii_of_string s).

Definition alphabet : string :=
  "ABCDEFGHIJKLMNOPQRSTUVWXYZabcdefghijklmnopqrstuvwxyz0123456789+/".

(** The character of a six-bit group. *)
Definition digit (n : N) : ascii :=
  default "="%char (String.get (N.to_nat n) alphabet).

(** [buf.toString('base64')]: three bytes give four characters; one or two
    bytes left over give two or three characters and the padding. *)
Fixpoint toBase64 (bytes : list N) : string :=
  match bytes with
  | [] => EmptyString
  | [a] =>
      String (digit (N.shiftr a 2))
        (String (digit (N.shiftl (N.land a 3) 4)) "==")
  | [a; b] =>
      String (digit (N.shiftr a 2))
        (String (digit (N.lor (N.shiftl (N.land a 3) 4) (N.shiftr b 4)))
           (String (digit (N.shiftl (N.land b 15) 2)) "="))
  | a :: b :: c :: rest =>
      String (digit (N.shiftr a 2))
        (String (digit (N.lor (N.shiftl (N.land a 3) 4) (N.shiftr b 4)))
           (String (digit (N.lor (N.shiftl (N.land b 15) 2) (N.shiftr c 6)))
              (String (digit (N.land c 63)) (toBase64 rest))))
  end.

End Buffer.

(** ** Transcript accumulator

    The body of [onTranscript] in [startDeepgramStream] that updates
    [pendingTranscript] (websocket.js, lines 282-347). *)

Module Accumulator.
Import Js.

(** The [if (!pendingTranscript) ... else ...] statement; [trimmedText] is
    [text.trim()].  Lengths are taken on the strings themselves, the
    containment tests on their lower-cased, trimmed copies. *)
Definition mergeTranscript (pendingTranscript : option string)
                           (trimmedText : string) : string :=
  match pendingTranscript with
  | None | Some EmptyString => trimmedText
  | Some pending =>
      let existingLower := trim (toLowerCase pending) in
      let newLower := trim (toLowerCase trimmedText) in
      let newContainsExisting := includes newLower existingLower in
      let existingContainsNew := includes existingLower newLower in
      if (String.length pending <? String.length trimmedText) && newContainsExisting
      then trimmedText
      else if String.length pending <? String.length trimmedText then
        if negb newContainsExisting && negb existingContainsNew
        then trim (pending +:+ " " +:+ trimmedText)
        else trimmedText
      else if newContainsExisting
              && (String.length pending <=? String.length trimmedText)
      then trimmedText
      else if existingContainsNew
              && (String.length trimmedText <? String.length pending)
      then pending
      else if (String.length trimmedText =? String.length pending)
              && negb (String.eqb trimmedText pending)
      then (if newContainsExisting then trimmedText else pending)
      else if (String.length trimmedText <? String.length pending)
              && negb newContainsExisting && negb existingContainsNew
      then
        let existingEnd :=
          substringFrom existingLower (Nat.max 0 (String.length existingLower - 10)) in
        let newStart :=
          substring newLower 0 (Nat.min 10 (String.length newLower)) in
        if negb (includes existingEnd newStart) && negb (includes newStart existingEnd)
        then trim (pending +:+ " " +:+ trimmedText)
        else pending
      else pending
  end.

(** The guard [if (text && text.trim().length > 0)] around the merge: a
    blank event leaves [pendingTranscript] as it is. *)
Definition accumulate (pendingTranscript : option string) (text : string)
  : option string :=
  if truthy (Some text) && (0 <? String.length (trim text))
  then Some (mergeTranscript pendingTranscript (trim text))
  else pendingTranscript.

(** The value of a pending transcript read as a string: [null] and the
    empty string both stand for "nothing pending". *)
Definition pendingText (o : option string) : string := default EmptyString o.

(** What [pendingTranscript] holds in every reachable state: [null], or a
    string equal to its own trim. *)
Definition trimmed (s : string) : Prop := trim s = s.
Definition pending_ok (o : option string) : Prop :=
  match o with None => True | Some p => trimmed p end.

(** *** The algorithm of the specification (section 4.1), step by step.

    The ten steps are written as the specification words them, on the
    trimmed strings.  "Overlap" of the two ten-character windows is
    containment of one window in the other, case-insensitively. *)
Definition lastChars (n : nat) (s : string) : string :=
  String.substring (String.length s - n) n s.
Definition firstChars (n : nat) (s : string) : string :=
  String.substring 0 n s.
Definition overlap (a b : string) : bool :=
  includes (toLowerCase a) (toLowerCase b) || includes (toLowerCase b) (toLowerCase a).

Definition merge_spec (pending : option string) (incoming : string) : string :=
  let p := trim (pendingText pending) in
  let t := trim incoming in
  (* 1 *)
  if String.eqb p EmptyString then t else
  (* 2 *)
  let newContainsOld := includes (toLowerCase t) (toLowerCase p) in
  let oldContainsNew := includes (toLowerCase p) (toLowerCase t) in
  let len := String.length in
  (* 3 *)
  if (len p <? len t) && newContainsOld then t
  (* 4 *)
  else if (len p <? len t) && negb newContainsOld && negb oldContainsNew
  then p +:+ " " +:+ t
  (* 5 *)
  else if len p <? len t then t
  (* 6 *)
  else if newContainsOld && (len p <=? len t) then t
  (* 7 *)
  else if oldContainsNew && (len t <? len p) then p
  (* 8 *)
  else if (len t =? len p) && negb (String.eqb t p) && newContainsOld then t
  (* 9 *)
  else if (len t <? len p) && negb newContainsOld && negb oldContainsNew then
    if negb (overlap (lastChars 10 p) (firstChars 10 t))
    then p +:+ " " +:+ t
    else p
  (* 10 *)
  else p.

End Accumulator.

(** ** The accumulator over every code unit

    The same statement of [onTranscript] (websocket.js, lines 282-347) on
    strings of [Utf16], for any [toLowerCase]: the merge calls it and
    relies on none of its properties. *)

Module Utf16Accumulator.
Import Utf16.

Section Merge.
Variable toLowerCase : JsString -> JsString.

Definition mergeTranscript (pendingTranscript : option JsString)
                           (trimmedText : JsString) : JsString :=
  match pendingTranscript with
  | None | Some [] => trimmedText
  | Some pending =>
      let existingLower := trim (toLowerCase pending) in
      let newLower := trim (toLowerCase trimmedText) in
      let newContainsExisting := includes newLower existingLower in
      let existingContainsNew := includes existingLower newLower in
      if (length pending <? length trimmedText) && newContainsExisting
      then trimmedText
      else if length pending <? length trimmedText then
        if negb newContainsExisting && negb existingContainsNew
        then trim (pending ++ [32%N] ++ trimmedText)
        else trimmedText
      else if newContainsExisting && (length pending <=? length trimmedText)
      then trimmedText
      else if existingContainsNew && (length trimmedText <? length pending)
      then pending
      else if (length trimmedText =? length pending)
              && negb (bool_decide (trimmedText = pending))
      then (if newContainsExisting then trimmedText else pending)
      else if (length trimmedText <? length pending)
              && negb newContainsExisting && negb existingContainsNew
      then
        let existingEnd :=
          substringFrom existingLower (Nat.max 0 (length existingLower - 10)) in
        let newStart :=
          substring newLower 0 (Nat.min 10 (length newLower)) in
        if negb (includes existingEnd newStart) && negb (includes newStart existingEnd)
        then trim (pending ++ [32%N] ++ trimmedText)
        else pending
      else pending
  end.

(** The guard [if (text && text.trim().length > 0)] around the merge. *)
Definition accumulate (pendingTranscript : option JsString) (text : JsString)
  : option JsString :=
  if truthy (Some text) && (0 <? length (trim text))
  then Some (mergeTranscript pendingTranscript (trim text))
  else pendingTranscript.

End Merge.

End Utf16Accumulator.

(** ** The connection closure

    State and callbacks of one [wss.on('connection', ...)] closure. *)

Module Engine.
Import Js Accumulator.

(** *** Wire protocol *)

(** [ws.readyState] *)
Inductive ReadyState := CONNECTING | OPEN | CLOSING | CLOSED.

#[global] Instance ReadyState_eq_dec : EqDecision ReadyState.
Proof. solve_decision. Defined.

Inductive Role := user | assistant.
Inductive Mode := chat | voice.

(** [payload.state] of a [status] frame *)
Inductive StatusState :=
  connected | listening | processing | thinking | speaking | idle
| interrupted | error.

(** Outbound frames [{ type, payload }].  The ISO timestamps inside a
    [conversation_turn] payload are left out. *)
Inductive Frame :=
| status (state : StatusState) (err : option string)
| transcript (text : string) (isFinal : bool)
| agent_text (token : string) (clear : bool)
| agent_audio (audio : string)
| conversation_turn (mode : Mode) (userText agentText : string).

(** Inbound frames after [JSON.parse]: [type] with the part of [payload]
    the handler reads, and [metadata.browser_session_id]. *)
Inductive MessageType :=
| start_recording
| stop_recording
| audio_chunk (audio : option string)
| interrupt
| chat_message (text : option string)
| unknown_type (type : string).

Record Message := {
  msg_type : MessageType;
  browser_session_id : option string;
}.

(** *** Closures kept alive by the runtime *)

(** Which call site built a completion stream, that is, which
    [onToken]/[onComplete]/[onError] closures the stream holds. *)
Inductive Origin :=
| inProcessUserMessage (isChatMode : bool)
| inFinalizeTranscript.

(** One [createOpenAIStream] call: the captured variables of its callbacks
    and of its own body. *)
Record LLMStream := {
  origin : Origin;
  userText : string;                 (* messageText / transcriptForFile *)
  messages : list (Role * string);   (* [...messages] at creation *)
  responseText : string;             (* llmResponseText / llmResponseForFile *)
  fullText : string;                 (* fullText of createOpenAIStream *)
  controller : option bool;          (* signal.aborted; None: handle of the
                                        unconfigured branch, cancel is a no-op *)
  settled : bool;                    (* the async body has returned *)
}.

(** One [createTTSStream] call. *)
Record TTSStream := {
  tts_text : string;
  cancelled : bool;
  fired : bool;                      (* the 10 ms timeout has run *)
}.

(** One [createDeepgramStream] call. *)
Record DeepgramStream := {
  written : list string;             (* audio handed to write(), base64 *)
  closed : bool;
}.

(** The two [setInterval] callbacks and their captured locals. *)
Inductive Timer :=
| silenceCheck (checkCount : nat)
| bufferCheck (transcriptAtSilence : string) (bufferElapsed : Z)
              (lastTranscriptLength : nat) (lastFinalTranscriptTime : option Z).

(** The code after an [await]. *)
Inductive SaveContinuation :=
| onComplete_resume (o : Origin) (messageText fullResponse : string)
| onError_resume (o : Origin).

Inductive Continuation :=
| after_save (k : SaveContinuation)
| after_resolveUser (m : MessageType).

(** *** State *)

(** The [let] variables of the connection closure. *)
Record Vars := {
  currentLLMStream : option nat;
  currentTTSStream : option nat;
  deepgramStream : option nat;
  conversationHistory : list (Role * string);
  browserSessionId : option string;
  currentUserId : option string;
  isRecording : bool;
  lastTranscriptTime : option Z;
  lastAudioChunkTime : option Z;
  silenceTimeout : option nat;
  pendingTranscript : option string;
  lastFinalizedTranscript : option string;
  lastSentTranscript : option string;
  silenceCheckInterval : option nat;
  llmCallPending : bool;
  receivedFinalTranscript : bool;
}.

(** What the runtime holds for the connection: live intervals, streams,
    promises awaiting I/O, the microtask queue of the current run. *)
Record Heap := {
  timers : gmap nat Timer;
  llmStreams : gmap nat LLMStream;
  ttsStreams : gmap nat TTSStream;
  dgStreams : gmap nat DeepgramStream;
  promises : gmap nat Continuation;
  microtasks : list SaveContinuation;
  nextId : nat;
  OPENAI_API_KEY : bool;              (* process.env.OPENAI_API_KEY is set *)
}.

(** The socket: its state, the frames written to it, and the number of
    [ws.send] calls made while it was not open. *)
Record Socket := {
  readyState : ReadyState;
  wire : list Frame;
  faults : nat;
}.

Record World := {
  vars : Vars;
  heap : Heap;
  sock : Socket;
}.

(** Field updates. *)
Ltac mk_setter eta proj :=
  let e := eval cbv [eta] in eta in
  match eval pattern proj in e with
  | ?F _ => let t := eval cbv beta in (fun v x => F (fun _ => v) x) in exact t
  end.

Definition etaVars (x : Vars) : Vars :=
  Build_Vars (currentLLMStream x) (currentTTSStream x) (deepgramStream x)
    (conversationHistory x) (browserSessionId x) (currentUserId x)
    (isRecording x) (lastTranscriptTime x) (lastAudioChunkTime x)
    (silenceTimeout x) (pendingTranscript x) (lastFinalizedTranscript x)
    (lastSentTranscript x) (silenceCheckInterval x) (llmCallPending x)
    (receivedFinalTranscript x).
Definition etaHeap (x : Heap) : Heap :=
  Build_Heap (timers x) (llmStreams x) (ttsStreams x) (dgStreams x)
    (promises x) (microtasks x) (nextId x) (OPENAI_API_KEY x).
Definition etaLLM (x : LLMStream) : LLMStream :=
  Build_LLMStream (origin x) (userText x) (messages x) (responseText x)
    (fullText x) (controller x) (settled x).
Definition etaTTS (x : TTSStream) : TTSStream :=
  Build_TTSStream (tts_text x) (cancelled x) (fired x).

Definition set_currentLLMStream := ltac:(mk_setter etaVars currentLLMStream).
Definition set_currentTTSStream := ltac:(mk_setter etaVars currentTTSStream).
Definition set_deepgramStream := ltac:(mk_setter etaVars deepgramStream).
Definition set_conversationHistory := ltac:(mk_setter etaVars conversationHistory).
Definition set_browserSessionId := ltac:(mk_setter etaVars browserSessionId).
Definition set_currentUserId := ltac:(mk_setter etaVars currentUserId).
Definition set_isRecording := ltac:(mk_setter etaVars isRecording).
Definition set_lastTranscriptTime := ltac:(mk_setter etaVars lastTranscriptTime).
Definition set_lastAudioChunkTime := ltac:(mk_setter etaVars lastAudioChunkTime).
Definition set_silenceTimeout := ltac:(mk_setter etaVars silenceTimeout).
Definition set_pendingTranscript := ltac:(mk_setter etaVars pendingTranscript).
Definition set_lastFinalizedTranscript := ltac:(mk_setter etaVars lastFinalizedTranscript).
Definition set_lastSentTranscript := ltac:(mk_setter etaVars lastSentTranscript).
Definition set_silenceCheckInterval := ltac:(mk_setter etaVars silenceCheckInterval).
Definition set_llmCallPending := ltac:(mk_setter etaVars llmCallPending).
Definition set_receivedFinalTranscript := ltac:(mk_setter etaVars receivedFinalTranscript).

Definition set_timers := ltac:(mk_setter etaHeap timers).
Definition set_llmStreams := ltac:(mk_setter etaHeap llmStreams).
Definition set_ttsStreams := ltac:(mk_setter etaHeap ttsStreams).
Definition set_dgStreams := ltac:(mk_setter etaHeap dgStreams).
Definition set_promises := ltac:(mk_setter etaHeap promises).
Definition set_microtasks := ltac:(mk_setter etaHeap microtasks).
Definition set_nextId := ltac:(mk_setter etaHeap nextId).

Definition set_responseText := ltac:(mk_setter etaLLM responseText).
Definition set_fullText := ltac:(mk_setter etaLLM fullText).
Definition set_controller := ltac:(mk_setter etaLLM controller).
Definition set_settled := ltac:(mk_setter etaLLM settled).
Definition set_cancelled := ltac:(mk_setter etaTTS cancelled).
Definition set_fired := ltac:(mk_setter etaTTS fired).

(** [x = v] on a closure variable, and an update of the runtime's part. *)
Definition assign {T} (set : T -> Vars -> Vars) (v : T) (w : World) : World :=
  {| vars := set v (vars w); heap := heap w; sock := sock w |}.
Definition store {T} (set : T -> Heap -> Heap) (v : T) (w : World) : World :=
  {| vars := vars w; heap := set v (heap w); sock := sock w |}.

(** A fresh identifier for a handle. *)
Definition alloc (w : World) : nat * World :=
  (nextId (heap w), store set_nextId (S (nextId (heap w))) w).

(** Truthiness of a number that may be [null] (zero is falsy). *)
Definition truthyNum (o : option Z) : bool :=
  match o with Some z => negb (z =? 0)%Z | None => false end.

(** *** Sending *)

(** [ws.send]: writes the frame on an open socket; on any other socket the
    frame is lost and the call is counted. *)
Definition ws_send (f : Frame) (w : World) : World :=
  let k := sock w in
  match readyState k with
  | OPEN =>
      {| vars := vars w; heap := heap w;
         sock := {| readyState := OPEN; wire := wire k ++ [f]; faults := faults k |} |}
  | r =>
      {| vars := vars w; heap := heap w;
         sock := {| readyState := r; wire := wire k; faults := S (faults k) |} |}
  end.

(** [sendMessage(type, payload)] *)
Definition sendMessage (f : Frame) (w : World) : World :=
  if decide (readyState (sock w) = OPEN) then ws_send f w else w.

(** *** Timers and streams *)

Definition setInterval (t : Timer) (w : World) : nat * World :=
  let '(id, w) := alloc w in
  (id, store set_timers (<[id := t]> (timers (heap w))) w).

Definition clearInterval (id : nat) (w : World) : World :=
  store set_timers (delete id (timers (heap w))) w.

(** [clearSilenceDetection()] *)
Definition clearSilenceDetection (w : World) : World :=
  let w :=
    match silenceTimeout (vars w) with
    | Some id => assign set_silenceTimeout None (clearInterval id w)
    | None => w
    end in
  match silenceCheckInterval (vars w) with
  | Some id => assign set_silenceCheckInterval None (clearInterval id w)
  | None => w
  end.

(** The handle's [cancel()] of a completion stream: [controller.abort()],
    or nothing for the handle of the unconfigured branch. *)
Definition llm_cancel (h : nat) (w : World) : World :=
  match llmStreams (heap w) !! h with
  | Some st =>
      match controller st with
      | Some _ =>
          store set_llmStreams
            (<[h := set_controller (Some true) st]> (llmStreams (heap w))) w
      | None => w
      end
  | None => w
  end.

(** The handle's [cancel()] of a synthesis stream. *)
Definition tts_cancel (h : nat) (w : World) : World :=
  match ttsStreams (heap w) !! h with
  | Some st =>
      store set_ttsStreams (<[h := set_cancelled true st]> (ttsStreams (heap w))) w
  | None => w
  end.

(** [createTTSStream({ text, onAudioChunk, onEnd })] *)
Definition createTTSStream (text : string) (w : World) : nat * World :=
  let '(h, w) := alloc w in
  (h, store set_ttsStreams
        (<[h := {| tts_text := text; cancelled := false; fired := false |}]>
           (ttsStreams (heap w))) w).

(** [await saveConversationTurn(...)]: without a browser session the
    promise is already resolved and the rest runs as a microtask of the
    current run; with one, the rest waits for the database. *)
Definition await_save (k : SaveContinuation) (w : World) : World :=
  if truthy (browserSessionId (vars w))
  then
    let '(p, w) := alloc w in
    store set_promises (<[p := after_save k]> (promises (heap w))) w
  else store set_microtasks (microtasks (heap w) ++ [k]) w.

(** [onToken] of either call site. *)
Definition onToken (h : nat) (token : string) (w : World) : World :=
  let w :=
    match llmStreams (heap w) !! h with
    | Some st =>
        store set_llmStreams
          (<[h := set_responseText (responseText st +:+ token) st]>
             (llmStreams (heap w))) w
    | None => w
    end in
  sendMessage (agent_text token false) w.

(** [onComplete] of either call site, up to its [await]. *)
Definition onComplete (h : nat) (fullResponse : string) (w : World) : World :=
  match llmStreams (heap w) !! h with
  | Some st =>
      let w :=
        store set_llmStreams
          (<[h := set_responseText fullResponse st]> (llmStreams (heap w))) w in
      let w :=
        assign set_conversationHistory
          (conversationHistory (vars w) ++ [(assistant, fullResponse)]) w in
      await_save (onComplete_resume (origin st) (userText st) fullResponse) w
  | None => w
  end.

(** [onError] of either call site, up to its [await]. *)
Definition onError (h : nat) (w : World) : World :=
  match llmStreams (heap w) !! h with
  | Some st => await_save (onError_resume (origin st)) w
  | None => w
  end.

(** The code after [await saveConversationTurn(...)]. *)
Definition resume_save (k : SaveContinuation) (w : World) : World :=
  match k with
  | onComplete_resume (inProcessUserMessage isChatMode) messageText fullResponse =>
      let w :=
        sendMessage
          (conversation_turn (if isChatMode then chat else voice)
             messageText fullResponse) w in
      let w :=
        if isChatMode
        then sendMessage (status idle None) w
        else sendMessage (status idle None) (sendMessage (status speaking None) w) in
      assign set_currentLLMStream None w
  | onComplete_resume inFinalizeTranscript transcriptForFile fullText =>
      let w := sendMessage (conversation_turn voice transcriptForFile fullText) w in
      let w := sendMessage (status speaking None) w in
      let '(h, w) := createTTSStream fullText w in
      assign set_currentTTSStream (Some h) w
  | onError_resume (inProcessUserMessage _) =>
      let w := sendMessage (status error (Some "llm_error")) w in
      assign set_currentLLMStream None w
  | onError_resume inFinalizeTranscript =>
      sendMessage (status error (Some "llm_error")) w
  end.

(** [createOpenAIStream({ messages, onToken, onComplete, onError })] with
    the callbacks of call site [o].  Without an API key the fake text is
    delivered to the callbacks before the handle is returned. *)
Definition fakeText : string := "LLM is not configured. Please set OPENAI_API_KEY.".

Definition createOpenAIStream (o : Origin) (text : string) (w : World)
  : nat * World :=
  let '(h, w) := alloc w in
  let st b c :=
    {| origin := o; userText := text; messages := conversationHistory (vars w);
       responseText := ""; fullText := ""; controller := c; settled := b |} in
  if OPENAI_API_KEY (heap w)
  then (h, store set_llmStreams (<[h := st false (Some false)]> (llmStreams (heap w))) w)
  else
    let w := store set_llmStreams (<[h := st true None]> (llmStreams (heap w))) w in
    let w := onToken h fakeText w in
    let w := onComplete h fakeText w in
    (h, w).

(** "Cancel any in-flight LLM/TTS streams" as written in
    [processUserMessage] and [finalizeTranscript]. *)
Definition cancelInFlight (w : World) : World :=
  let w :=
    match currentLLMStream (vars w) with
    | Some h => assign set_currentLLMStream None (llm_cancel h w)
    | None => w
    end in
  match currentTTSStream (vars w) with
  | Some h => assign set_currentTTSStream None (tts_cancel h w)
  | None => w
  end.

(** [processUserMessage(userMessage, isChatMode)] *)
Definition processUserMessage (userMessage : string) (isChatMode : bool)
                              (w : World) : World :=
  if negb (truthy (Some userMessage)) || negb (truthy (Some (trim userMessage)))
  then w
  else
    let messageText := trim userMessage in
    let w :=
      assign set_conversationHistory
        (conversationHistory (vars w) ++ [(user, messageText)]) w in
    let w := sendMessage (status thinking None) w in
    let w := sendMessage (agent_text "" true) w in
    let w := cancelInFlight w in
    let '(h, w) := createOpenAIStream (inProcessUserMessage isChatMode) messageText w in
    assign set_currentLLMStream (Some h) w.

(** *** Endpointer *)

Definition SILENCE_THRESHOLD_MS : Z := 5000.
Definition FINAL_TRANSCRIPT_BUFFER_MS : Z := 1500.
Definition checkInterval : Z := 100.
Definition WAIT_AFTER_FINAL_MS : Z := 2000.

(** [pendingTranscript && pendingTranscript.trim().length > 0] *)
Definition hasPending (w : World) : bool :=
  truthy (pendingTranscript (vars w))
  && (0 <? String.length (trim (pendingText (pendingTranscript (vars w))))).

(** [checkForFinalTranscript()] of the silence trigger that captured
    [transcriptAtSilence]. *)
Definition checkForFinalTranscript (transcriptAtSilence : string) (w : World)
  : World :=
  let transcriptToProcess :=
    if hasPending w
    then trim (pendingText (pendingTranscript (vars w)))
    else transcriptAtSilence in
  if truthy (Some transcriptToProcess) && (0 <? String.length transcriptToProcess)
  then
    let w := processUserMessage transcriptToProcess false w in
    let w := assign set_pendingTranscript None w in
    let w := assign set_lastSentTranscript None w in
    let w := assign set_receivedFinalTranscript false w in
    assign set_llmCallPending false w
  else
    let w := assign set_llmCallPending false w in
    assign set_receivedFinalTranscript false w.

(** The callback of [bufferCheckInterval], the interval [id]. *)
Definition bufferTick (id : nat) (now : Z) (transcriptAtSilence : string)
    (bufferElapsed : Z) (lastTranscriptLength : nat)
    (lastFinalTranscriptTime : option Z) (w : World) : World :=
  let keep e l f :=
    store set_timers
      (<[id := bufferCheck transcriptAtSilence e l f]> (timers (heap w))) w in
  let bufferElapsed := (bufferElapsed + checkInterval)%Z in
  let currentLength :=
    if truthy (pendingTranscript (vars w))
    then lengthOr0 (pendingTranscript (vars w))
    else String.length transcriptAtSilence in
  let transcriptStillUpdating := lastTranscriptLength <? currentLength in
  let lastFinalTranscriptTime :=
    if receivedFinalTranscript (vars w) && negb (truthyNum lastFinalTranscriptTime)
    then Some now else lastFinalTranscriptTime in
  if transcriptStillUpdating then keep 0%Z currentLength None
  else if receivedFinalTranscript (vars w) && truthyNum lastFinalTranscriptTime then
    let timeSinceFinal := (now - default 0%Z lastFinalTranscriptTime)%Z in
    if (WAIT_AFTER_FINAL_MS <=? timeSinceFinal)%Z
    then checkForFinalTranscript transcriptAtSilence (clearInterval id w)
    else keep bufferElapsed lastTranscriptLength lastFinalTranscriptTime
  else if (FINAL_TRANSCRIPT_BUFFER_MS <=? bufferElapsed)%Z
          && negb transcriptStillUpdating
  then checkForFinalTranscript transcriptAtSilence (clearInterval id w)
  else if (5000 <=? bufferElapsed)%Z
  then checkForFinalTranscript transcriptAtSilence (clearInterval id w)
  else keep bufferElapsed lastTranscriptLength lastFinalTranscriptTime.

(** The callback of [silenceCheckInterval], the interval [id]. *)
Definition silenceTick (id : nat) (now : Z) (checkCount : nat) (w : World)
  : World :=
  let w :=
    store set_timers (<[id := silenceCheck (S checkCount)]> (timers (heap w))) w in
  if negb (truthyNum (lastTranscriptTime (vars w))) then w
  else
    let timeSinceLastTranscript :=
      (now - default 0%Z (lastTranscriptTime (vars w)))%Z in
    if (SILENCE_THRESHOLD_MS <=? timeSinceLastTranscript)%Z
       && negb (llmCallPending (vars w))
       && hasPending w
    then
      let w := assign set_llmCallPending true w in
      let transcriptAtSilence := trim (pendingText (pendingTranscript (vars w))) in
      let lastTranscriptLength :=
        if truthy (pendingTranscript (vars w))
        then lengthOr0 (pendingTranscript (vars w))
        else String.length transcriptAtSilence in
      let lastFinalTranscriptTime :=
        if receivedFinalTranscript (vars w) then Some now else None in
      snd (setInterval
             (bufferCheck transcriptAtSilence 0%Z lastTranscriptLength
                lastFinalTranscriptTime) w)
    else w.

(** [startSilenceDetection()] *)
Definition startSilenceDetection (w : World) : World :=
  let w := clearSilenceDetection w in
  let '(id, w) := setInterval (silenceCheck 0) w in
  assign set_silenceCheckInterval (Some id) w.

(** [onTranscript({ text, isFinal })] of the Deepgram stream. *)
Definition onTranscript (text : string) (isFinal : bool) (now : Z) (w : World)
  : World :=
  if truthy (Some text) && (0 <? String.length (trim text)) then
    let trimmedText := trim text in
    let w :=
      if isFinal then assign set_receivedFinalTranscript true w else w in
    let w :=
      assign set_pendingTranscript
        (Some (mergeTranscript (pendingTranscript (vars w)) trimmedText)) w in
    let currentTranscript := trim (pendingText (pendingTranscript (vars w))) in
    let lastSent := lastSentTranscript (vars w) in
    if truthy (Some currentTranscript)
       && negb (bool_decide (Some currentTranscript = lastSent))
    then
      let previousLength := if truthy lastSent then lengthOr0 lastSent else 0 in
      let last := pendingText lastSent in
      let containsPrevious :=
        truthy lastSent
        && includes (toLowerCase currentTranscript)
             (substring (toLowerCase last) 0 (Nat.min 20 (String.length last))) in
      let startsDifferently :=
        truthy lastSent
        && negb (startsWith (toLowerCase currentTranscript)
                   (substring (toLowerCase last) 0 (Nat.min 10 (String.length last)))) in
      let isNewUtterance :=
        negb (truthy lastSent)
        || ((2 * String.length currentTranscript <? previousLength)
            && negb containsPrevious && startsDifferently) in
      let w := assign set_lastSentTranscript (Some currentTranscript) w in
      let w := assign set_lastTranscriptTime (Some now) w in
      let w :=
        if isNewUtterance then assign set_receivedFinalTranscript false w
        else if isFinal then assign set_receivedFinalTranscript true w
        else w in
      let w :=
        if llmCallPending (vars w) then
          if isNewUtterance
          then assign set_receivedFinalTranscript false
                 (assign set_llmCallPending false w)
          else if isFinal then assign set_receivedFinalTranscript true w
          else w
        else w in
      sendMessage (transcript currentTranscript false) w
    else w
  else w.

(** [startDeepgramStream()] *)
Definition startDeepgramStream (w : World) : World :=
  if bool_decide (deepgramStream (vars w) <> None) then w
  else
    let w := assign set_lastAudioChunkTime None w in
    let w := assign set_lastTranscriptTime None w in
    let w := assign set_pendingTranscript None w in
    let w := assign set_lastFinalizedTranscript None w in
    let w := assign set_lastSentTranscript None w in
    let w := assign set_llmCallPending false w in
    let w := assign set_receivedFinalTranscript false w in
    let w := clearSilenceDetection w in
    let w := startSilenceDetection w in
    let '(h, w) := alloc w in
    let w :=
      store set_dgStreams
        (<[h := {| written := []; closed := false |}]> (dgStreams (heap w))) w in
    assign set_deepgramStream (Some h) w.

(** [finalizeTranscript()] *)
Definition finalizeTranscript (w : World) : World :=
  if negb (truthy (pendingTranscript (vars w)))
     || (String.length (trim (pendingText (pendingTranscript (vars w)))) =? 0)
  then w
  else
    let finalText := trim (pendingText (pendingTranscript (vars w))) in
    if bool_decide (lastFinalizedTranscript (vars w) = Some finalText) then w
    else
      let w := assign set_lastFinalizedTranscript (Some finalText) w in
      let w := sendMessage (transcript finalText true) w in
      let w := sendMessage (status processing None) w in
      let w :=
        assign set_conversationHistory
          (conversationHistory (vars w) ++ [(user, finalText)]) w in
      let w := assign set_pendingTranscript None w in
      let w := cancelInFlight w in
      let w := sendMessage (status thinking None) w in
      let w := sendMessage (agent_text "" true) w in
      let '(h, w) := createOpenAIStream inFinalizeTranscript finalText w in
      assign set_currentLLMStream (Some h) w.

(** [deepgramStream.close()] *)
Definition dg_close (h : nat) (w : World) : World :=
  match dgStreams (heap w) !! h with
  | Some st =>
      store set_dgStreams
        (<[h := {| written := written st; closed := true |}]> (dgStreams (heap w))) w
  | None => w
  end.

(** [deepgramStream.write(buf)] *)
Definition dg_write (h : nat) (audio : string) (w : World) : World :=
  match dgStreams (heap w) !! h with
  | Some st =>
      store set_dgStreams
        (<[h := {| written := written st ++ [audio]; closed := closed st |}]>
           (dgStreams (heap w))) w
  | None => w
  end.

(** [stopDeepgramStream()] *)
Definition stopDeepgramStream (w : World) : World :=
  let w := if hasPending w then finalizeTranscript w else w in
  let w := clearSilenceDetection w in
  let w :=
    match deepgramStream (vars w) with
    | Some h => assign set_deepgramStream None (dg_close h w)
    | None => w
    end in
  let w := assign set_lastAudioChunkTime None w in
  let w := assign set_lastTranscriptTime None w in
  let w := assign set_pendingTranscript None w in
  let w := assign set_lastFinalizedTranscript None w in
  assign set_lastSentTranscript None w.

(** *** Inbound frames *)

(** The [switch (type)] of the message handler. *)
Definition dispatch (m : MessageType) (now : Z) (w : World) : World :=
  match m with
  | start_recording =>
      let w := assign set_isRecording true w in
      let w := startDeepgramStream w in
      sendMessage (status listening None) w
  | stop_recording =>
      let w := assign set_isRecording false w in
      let w := stopDeepgramStream w in
      sendMessage (status idle None) w
  | audio_chunk audio =>
      if negb (truthy audio) then w
      else
        match deepgramStream (vars w) with
        | Some h =>
            if isRecording (vars w)
            then dg_write h (pendingText audio)
                   (assign set_lastAudioChunkTime (Some now) w)
            else w
        | None => w
        end
  | interrupt =>
      let w :=
        match currentLLMStream (vars w) with
        | Some h => llm_cancel h w
        | None => w
        end in
      let w :=
        match currentTTSStream (vars w) with
        | Some h => tts_cancel h w
        | None => w
        end in
      let w := assign set_currentLLMStream None w in
      let w := assign set_currentTTSStream None w in
      sendMessage (status interrupted None) w
  | chat_message text =>
      if truthy text && truthy (Some (trim (pendingText text)))
      then processUserMessage (pendingText text) true w
      else w
  | unknown_type _ => w
  end.

(** [ws.on('message', async (data) => ...)]; [None] is a frame that
    [JSON.parse] rejects. *)
Definition onMessage (data : option Message) (now : Z) (w : World) : World :=
  match data with
  | None => w
  | Some m =>
      if truthy (browser_session_id m) && negb (truthy (browserSessionId (vars w)))
      then
        let w := assign set_browserSessionId (browser_session_id m) w in
        let '(p, w) := alloc w in
        store set_promises
          (<[p := after_resolveUser (msg_type m)]> (promises (heap w))) w
      else dispatch (msg_type m) now w
  end.

(** [ws.on('close', ...)] *)
Definition onClose (w : World) : World :=
  let w := clearSilenceDetection w in
  let w := assign set_lastTranscriptTime None w in
  let w := assign set_lastAudioChunkTime None w in
  let w :=
    match deepgramStream (vars w) with
    | Some h => dg_close h w
    | None => w
    end in
  let w :=
    match currentLLMStream (vars w) with
    | Some h => llm_cancel h w
    | None => w
    end in
  match currentTTSStream (vars w) with
  | Some h => tts_cancel h w
  | None => w
  end.

(** *** The event loop *)

(** What the runtime can run next for this connection. *)
Inductive Event :=
| ws_message (data : option Message) (now : Z)
| ws_closing                           (* the closing handshake has started *)
| ws_close                             (* the socket is closed: 'close' *)
| ws_error
| timer_fired (id : nat) (now : Z)
| dg_transcript (h : nat) (text : string) (isFinal : bool) (now : Z)
| dg_error (h : nat)
| llm_chunk (h : nat) (delta : string) (* the stream yields a chunk *)
| llm_end (h : nat)                    (* the stream is exhausted *)
| llm_throw (h : nat) (name : string)  (* the stream throws [err] *)
| tts_timeout (h : nat)
| promise_settled (p : nat) (user : option string) (now : Z).

Definition set_readyState (r : ReadyState) (w : World) : World :=
  {| vars := vars w; heap := heap w;
     sock := {| readyState := r; wire := wire (sock w); faults := faults (sock w) |} |}.

(** The body of [createOpenAIStream]'s loop for a running stream. *)
Definition running (h : nat) (w : World) : option LLMStream :=
  match llmStreams (heap w) !! h with
  | Some st => if settled st then None else Some st
  | None => None
  end.

Definition handle (e : Event) (w : World) : World :=
  match e with
  | ws_message data now => onMessage data now w
  | ws_closing =>
      if decide (readyState (sock w) = CLOSED) then w else set_readyState CLOSING w
  | ws_close => onClose (set_readyState CLOSED w)
  | ws_error => w
  | timer_fired id now =>
      match timers (heap w) !! id with
      | Some (silenceCheck checkCount) => silenceTick id now checkCount w
      | Some (bufferCheck t e l f) => bufferTick id now t e l f w
      | None => w
      end
  | dg_transcript h text isFinal now =>
      match dgStreams (heap w) !! h with
      | Some _ => if truthy (Some text) then onTranscript text isFinal now w else w
      | None => w
      end
  | dg_error h =>
      match dgStreams (heap w) !! h with
      | Some _ => sendMessage (status error (Some "stt_error")) w
      | None => w
      end
  | llm_chunk h delta =>
      match running h w with
      | Some st =>
          if truthy (Some delta) then
            let w :=
              store set_llmStreams
                (<[h := set_fullText (fullText st +:+ delta) st]>
                   (llmStreams (heap w))) w in
            onToken h delta w
          else w
      | None => w
      end
  | llm_end h =>
      match running h w with
      | Some st =>
          let w :=
            store set_llmStreams (<[h := set_settled true st]> (llmStreams (heap w))) w in
          onComplete h (fullText st) w
      | None => w
      end
  | llm_throw h name =>
      match running h w with
      | Some st =>
          let w :=
            store set_llmStreams (<[h := set_settled true st]> (llmStreams (heap w))) w in
          if String.eqb name "AbortError" then w else onError h w
      | None => w
      end
  | tts_timeout h =>
      match ttsStreams (heap w) !! h with
      | Some st =>
          if fired st then w
          else
            let w :=
              store set_ttsStreams (<[h := set_fired true st]> (ttsStreams (heap w))) w in
            if cancelled st then w
            else
              let w :=
                sendMessage
                  (agent_audio (Buffer.toBase64 (Buffer.from ("AUDIO:" +:+ tts_text st))))
                  w in
              let w := sendMessage (status idle None) w in
              assign set_currentTTSStream None w
      | None => w
      end
  | promise_settled p result now =>
      match promises (heap w) !! p with
      | Some k =>
          let w := store set_promises (delete p (promises (heap w))) w in
          match k with
          | after_save k => resume_save k w
          | after_resolveUser m => dispatch m now (assign set_currentUserId result w)
          end
      | None => w
      end
  end.

(** The microtasks queued by a run are executed before the next event. *)
Definition drainMicrotasks (w : World) : World :=
  foldl (fun w k => resume_save k w)
        (store set_microtasks [] w) (microtasks (heap w)).

Definition step (w : World) (e : Event) : World := drainMicrotasks (handle e w).

Definition run (w : World) (es : list Event) : World := foldl step w es.

(** The closure right after [wss.on('connection')] has run: every variable
    at its initial value, the [connected] status sent. *)
Definition connect (apiKey : bool) : World :=
  sendMessage (status connected None)
    {| vars :=
         {| currentLLMStream := None; currentTTSStream := None;
            deepgramStream := None; conversationHistory := [];
            browserSessionId := None; currentUserId := None;
            isRecording := false; lastTranscriptTime := None;
            lastAudioChunkTime := None; silenceTimeout := None;
            pendingTranscript := None; lastFinalizedTranscript := None;
            lastSentTranscript := None; silenceCheckInterval := None;
            llmCallPending := false; receivedFinalTranscript := false |};
       heap :=
         {| timers := ∅; llmStreams := ∅; ttsStreams := ∅; dgStreams := ∅;
            promises := ∅; microtasks := []; nextId := 0;
            OPENAI_API_KEY := apiKey |};
       sock := {| readyState := OPEN; wire := []; faults := 0 |} |}.

(** *** Observations *)

(** A completion stream is active while its body is running and its
    request has not been aborted. *)
Definition active (st : LLMStream) : bool :=
  negb (settled st) && bool_decide (controller st = Some false).

Definition activeCompletions (w : World) : gset nat :=
  dom (filter (fun p => active p.2 = true) (llmStreams (heap w))).

(** The frames written by one step. *)
Definition emitted (w : World) (e : Event) : list Frame :=
  drop (length (wire (sock w))) (wire (sock (step w e))).

Definition isToken (f : Frame) : bool :=
  match f with agent_text _ false => true | _ => false end.

End Engine.

(** ** What the properties observe *)

Module Observations.
Import Js Accumulator Engine.

(** Nothing reaches the wire of a socket that is not open, no send fails,
    and a socket that left the open state stays out of it. *)
Definition quiet (w w' : World) : Prop :=
  faults (sock w') = faults (sock w)
  /\ (readyState (sock w) <> OPEN ->
      readyState (sock w') <> OPEN /\ wire (sock w') = wire (sock w)).

Definition nonblank (s : string) : Prop := trim s <> EmptyString.

(** The user texts among the history entries that one step appends. *)
Definition userTexts (l : list (Role * string)) : list string :=
  omap (fun p => match p.1 with user => Some p.2 | assistant => None end) l.

Definition newTurns (w : World) (e : Event) : list string :=
  userTexts (drop (length (conversationHistory (vars w)))
                  (conversationHistory (vars (step w e)))).

(** The history only grows, and by user entries that are not blank. *)
Definition extends (w w' : World) : Prop :=
  exists l, conversationHistory (vars w') = conversationHistory (vars w) ++ l
            /\ Forall nonblank (userTexts l).

(** With a configured provider, nothing but a chunk delivery puts a token on
    the wire. *)
Definition tokenless (w w' : World) : Prop :=
  OPENAI_API_KEY (heap w') = OPENAI_API_KEY (heap w)
  /\ exists fs, wire (sock w') = wire (sock w) ++ fs
                /\ (OPENAI_API_KEY (heap w) = true -> Forall (fun f => isToken f = false) fs).

(** What holds of the closure variables between two events: the pending
    transcript is [null] or trimmed, and no finalized transcript is
    remembered. *)
Definition varsOk (v : Vars) : Prop :=
  pending_ok (pendingTranscript v) /\ lastFinalizedTranscript v = None.

Definition keepsVars (w w' : World) : Prop :=
  (pending_ok (pendingTranscript (vars w)) -> pending_ok (pendingTranscript (vars w')))
  /\ (lastFinalizedTranscript (vars w) = None -> lastFinalizedTranscript (vars w') = None).

(** The history grows by entries that are not user turns. *)
Definition noTurn (w w' : World) : Prop :=
  exists l, conversationHistory (vars w') = conversationHistory (vars w) ++ l
            /\ userTexts l = [].

Definition isChunk (e : Event) : bool :=
  match e with llm_chunk _ _ => true | _ => false end.

End Observations.

(** ** Scenarios

    Concrete inbound frames and event sequences used below. *)

Module Scenarios.
Import Js Accumulator Engine.
#[local] Open Scope Z_scope.

(** An inbound frame without metadata, and one carrying a browser session. *)
Definition frameAt (now : Z) (t : MessageType) : Event :=
  ws_message (Some {| msg_type := t; browser_session_id := None |}) now.
Definition frame : MessageType -> Event := frameAt 0.
Definition frameOf (sid : string) (t : MessageType) : Event :=
  ws_message (Some {| msg_type := t; browser_session_id := Some sid |}) 0.

(** The booking object the system prompt asks the model to emit after the
    caller confirms, as the provider streams it in two chunks. *)
Definition q : string := String (ascii_of_nat 34) EmptyString.
Definition str (s : string) : string := q +:+ s +:+ q.
Definition bookingHead : string :=
  "{" +:+ str "action" +:+ ":" +:+ str "book_appointment" +:+ "," +:+ str "payload" +:+ ":{".
Definition bookingTail : string :=
  str "name" +:+ ":" +:+ str "Asha Rao" +:+ ","
  +:+ str "age" +:+ ":27,"
  +:+ str "contact_number" +:+ ":" +:+ str "9970758021" +:+ ","
  +:+ str "medical_concern" +:+ ":" +:+ str "headache" +:+ ","
  +:+ str "appointment_datetime" +:+ ":" +:+ str "2025-12-24T16:00:00.000Z" +:+ ","
  +:+ str "email" +:+ ":null,"
  +:+ str "doctor_preference" +:+ ":null}}".
Definition bookingJSON : string := bookingHead +:+ bookingTail.

(** A caller confirms in chat and the model answers with the booking object. *)
Definition booking_trace : list Event :=
  [ frame (chat_message (Some "Yes, book the appointment"));
    llm_chunk 0 bookingHead; llm_chunk 0 bookingTail; llm_end 0 ].

(** Recording starts (interval 0, Deepgram stream 1), the caller says
    "hello" at t = 1000, and the tick at t = 6000 sees five seconds of
    silence and starts the buffer interval 2. *)
Definition silence_trace : list Event :=
  [ frame start_recording; dg_transcript 1 "hello" false 1000; timer_fired 0 6000 ].

(** The buffer interval fires [n] more times, 100 ms apart. *)
Definition buffer_ticks (n : nat) : list Event :=
  map (fun i => timer_fired 2 (6100 + 100 * Z.of_nat i)) (seq 0 n).

(** The socket closes while that buffer is running. *)
Definition disconnected : World := run (connect true) (silence_trace ++ [ws_close]).


(** Recording with a pending "hello". *)
Definition listening_hello : World :=
  run (connect true) [ frame start_recording; dg_transcript 1 "hello" false 1000 ].

(** Three chat turns of a session with a browser id: the first completion
    (stream 1) ends and its turn is being saved (promise 2) when the second
    message arrives (stream 3); the save then resolves; then the third
    message arrives (stream 4). *)
Definition stale_reset_trace : list Event :=
  [ frameOf "browser-1" (chat_message (Some "a"));
    promise_settled 0 None 0;
    llm_chunk 1 "hi"; llm_end 1;
    frame (chat_message (Some "b"));
    promise_settled 2 None 0;
    frame (chat_message (Some "c")) ].

(** A completion (stream 0) has streamed "Hel" when the caller interrupts. *)
Definition streaming_trace : list Event :=
  [ frame (chat_message (Some "hi")); llm_chunk 0 "Hel" ].
Definition streaming_world : World := run (connect true) streaming_trace.
Definition interrupted_world : World := step streaming_world (frame interrupt).

End Scenarios.

(** ** What the further properties observe *)

Module Bookkeeping.
Import Js Accumulator Engine.

(** The closure variables that a turn (a submission, the callbacks of its
    completion and synthesis, the code after a save) assigns are
    [currentLLMStream], [currentTTSStream] and [conversationHistory]; this
    is the rest. *)
Definition endpointerVars (v : Vars) : Vars :=
  set_currentLLMStream None (set_currentTTSStream None (set_conversationHistory [] v)).

(** What a turn leaves alone: the endpointer's variables, the intervals,
    the Deepgram streams, the configuration and the state of the socket;
    identifiers are only ever taken, never given back. *)
Definition turnFrame (w w' : World) : Prop :=
  endpointerVars (vars w') = endpointerVars (vars w)
  /\ timers (heap w') = timers (heap w)
  /\ dgStreams (heap w') = dgStreams (heap w)
  /\ OPENAI_API_KEY (heap w') = OPENAI_API_KEY (heap w)
  /\ readyState (sock w') = readyState (sock w)
  /\ nextId (heap w) <= nextId (heap w').

(** The callbacks of the completion stream and of the synthesis stream. *)
Definition isStreamEvent (e : Event) : bool :=
  match e with
  | llm_chunk _ _ | llm_end _ | llm_throw _ _ | tts_timeout _ => true
  | _ => false
  end.

(** The two guards of the transcript callback around its bookkeeping and
    its [sendMessage('transcript', ...)], read on the values before the
    event: [text && text.trim().length > 0], then
    [currentTranscript && currentTranscript !== lastSentTranscript]. *)
Definition sendsTranscript (text : string) (pending lastSent : option string) : bool :=
  truthy (Some text) && (0 <? String.length (trim text))
  && truthy (Some (trim (pendingText (accumulate pending text))))
  && negb (bool_decide (Some (trim (pendingText (accumulate pending text))) = lastSent)).

(** Between two events the transcript last shown to the client is the
    pending transcript, which is [null] or a trimmed string that is not
    empty. *)
Definition inSync (v : Vars) : Prop :=
  pending_ok (pendingTranscript v)
  /\ pendingTranscript v <> Some EmptyString
  /\ lastSentTranscript v = pendingTranscript v.

Definition keepsSync (w w' : World) : Prop := inSync (vars w) -> inSync (vars w').

Definition sameSession (w w' : World) : Prop :=
  browserSessionId (vars w') = browserSessionId (vars w).

(** The buffer interval [id] of a silence trigger that captured [snap] and
    the length [len], [e] ms into the buffer, while the pending transcript
    [p] is not blank and no longer than [len]. *)
Definition buffering (id : nat) (snap : string) (len : nat) (p : string)
    (w : World) (e : Z) (tf : option Z) : Prop :=
  microtasks (heap w) = []
  /\ timers (heap w) !! id = Some (bufferCheck snap e len tf)
  /\ pendingTranscript (vars w) = Some p
  /\ trim p <> EmptyString
  /\ String.length p <= len.

(** What holds of the live intervals between two events: every interval
    was handed out by the runtime, a live silence interval is the one that
    [silenceCheckInterval] holds, a live buffer interval captured a
    transcript that is not blank, and [silenceTimeout] is never set. *)
Definition timersOk (w : World) : Prop :=
  silenceTimeout (vars w) = None
  /\ forall id t, timers (heap w) !! id = Some t ->
       id < nextId (heap w)
       /\ match t with
          | silenceCheck _ => silenceCheckInterval (vars w) = Some id
          | bufferCheck snap _ _ _ => trim snap <> EmptyString
          end.

Definition keepsTimers (w w' : World) : Prop := timersOk w -> timersOk w'.

(** An [audio_chunk] frame without metadata, at time [t] with payload
    [audio]. *)
Definition audioFrame (chunk : Z * string) : Event :=
  ws_message (Some {| msg_type := audio_chunk (Some chunk.2);
                      browser_session_id := None |}) chunk.1.

(** The tokens that a list of chunks puts on the wire ([if (delta)]), and
    the [fullText] they add up to. *)
Definition tokensOf (ds : list string) : list Frame :=
  map (fun d => agent_text d false) (filter (fun d => d <> EmptyString) ds).
Definition concatChunks (ds : list string) : string :=
  foldr (fun d acc => d +:+ acc) EmptyString ds.

(** The frames whose branch of the [switch] does nothing while the closure
    variables are [v]: an unknown [type], a [chat_message] whose text is
    missing or blank, an [audio_chunk] without audio, outside a recording or
    without a Deepgram stream. *)
Definition ignoredType (v : Vars) (t : MessageType) : bool :=
  match t with
  | unknown_type _ => true
  | chat_message text => negb (truthy text && truthy (Some (trim (pendingText text))))
  | audio_chunk audio =>
      negb (truthy audio) || negb (isRecording v)
      || bool_decide (deepgramStream v = None)
  | _ => false
  end.

(** The prelude of the message handler binds the session: the frame
    carries a [browser_session_id] and the closure holds none yet. *)
Definition bindsSession (w : World) (m : Message) : bool :=
  truthy (browser_session_id m) && negb (truthy (browserSessionId (vars w))).

(** The inputs the closure ignores: a frame that is not JSON, a frame of an
    ignored type (read when it arrives, or when the user lookup of the
    frame that bound the session settles), a socket error, and a transcript
    event whose text is blank. *)
Definition ignored (w : World) (e : Event) : bool :=
  match e with
  | ws_message None _ => true
  | ws_message (Some m) _ => ignoredType (vars w) (msg_type m)
  | ws_error => true
  | dg_transcript _ text _ _ => bool_decide (trim text = EmptyString)
  | promise_settled p _ _ =>
      match promises (heap w) !! p with
      | Some (after_resolveUser t) => ignoredType (vars w) t
      | _ => false
      end
  | _ => false
  end.

Fixpoint allIgnored (w : World) (es : list Event) : bool :=
  match es with
  | [] => true
  | e :: es => ignored w e && allIgnored (step w e) es
  end.

(** An event that has a part in the binding of the session: a frame whose
    prelude binds it, or the settlement of a lookup. *)
Definition touchesSession (w : World) (e : Event) : bool :=
  match e with
  | ws_message (Some m) _ => bindsSession w m
  | promise_settled _ _ _ => true
  | _ => false
  end.

(** The closure variables but for the two of the session binding. *)
Definition sessionless (v : Vars) : Vars :=
  set_browserSessionId None (set_currentUserId None v).

(** Nothing changed but the binding of the session: the socket, every
    other closure variable, the intervals and the streams are the same, and
    a promise that was not pending before is a user lookup. *)
Definition onlySession (w w' : World) : Prop :=
  sock w' = sock w
  /\ sessionless (vars w') = sessionless (vars w)
  /\ timers (heap w') = timers (heap w)
  /\ llmStreams (heap w') = llmStreams (heap w)
  /\ ttsStreams (heap w') = ttsStreams (heap w)
  /\ dgStreams (heap w') = dgStreams (heap w)
  /\ forall p k, promises (heap w') !! p = Some k ->
                 promises (heap w) !! p = Some k \/ exists t, k = after_resolveUser t.

End Bookkeeping.

(** ** The HTTP side

    The two routes of [src/server.js] that read what the session engine
    writes and that create bookings. *)

Module HttpServer.
Import Js.

(** *** [GET /api/conversations/:sessionId] *)

(** A stored conversation entry as [find(...).lean()] returns it;
    [agentText] is a string or [null]. *)
Record ConversationDoc := {
  createdAt : string;                 (* createdAt.toISOString() *)
  userText : string;
  agentText : option string;
  browserSessionId : string;
  mode : Engine.Mode;
  user : option string;               (* doc.user.toString(), or null *)
}.

(** An element of [entries] in the response. *)
Record HistoryEntry := {
  timestamp : string;
  transcript : string;
  llm_response : option string;
  browser_session_id : string;
  entry_mode : Engine.Mode;
  user_id : option string;
}.

(** [containsCurlyBraces(text)]; the [typeof text !== 'string'] test holds
    of no value that is a string or [null]. *)
Definition containsCurlyBraces (text : option string) : bool :=
  if negb (truthy text) then false
  else includes (default EmptyString text) "{" || includes (default EmptyString text) "}".

(** The callback of [docs.map]. *)
Definition entryOf (doc : ConversationDoc) : HistoryEntry :=
  let sanitizedAgentText :=
    if containsCurlyBraces (agentText doc) then Some EmptyString else agentText doc in
  {| timestamp := createdAt doc;
     transcript := userText doc;
     llm_response := sanitizedAgentText;
     browser_session_id := browserSessionId doc;
     entry_mode := mode doc;
     user_id := user doc |}.

Definition entries (docs : list ConversationDoc) : list HistoryEntry := map entryOf docs.

(** The code units of a string. *)
Fixpoint units (s : string) : list ascii :=
  match s with
  | EmptyString => []
  | String c s' => c :: units s'
  end.

Definition isBrace (c : ascii) : bool :=
  Ascii.eqb c "{"%char || Ascii.eqb c "}"%char.

(** *** [POST /book-appointment] *)

(** A value of the parsed request body; an object has one entry per key. *)
#[warnings="-register-all"] Inductive JSON :=
| JNull
| JBool (b : bool)
| JNumber (q : QArith_base.Q)
| JString (s : string)
| JArray (items : list JSON)
| JObject (fields : list (string * JSON)).

(** A JavaScript value read from the request; [None] is [undefined]. *)
Definition Value := option JSON.

(** [!!v] *)
Definition truthyValue (v : Value) : bool :=
  match v with
  | None | Some JNull => false
  | Some (JBool b) => b
  | Some (JNumber q) => negb (QArith_base.Qnum q =? 0)%Z
  | Some (JString s) => truthy (Some s)
  | Some (JArray _) | Some (JObject _) => true
  end.

(** [typeof v] *)
Inductive TypeOf := t_undefined | t_object | t_boolean | t_number | t_string.

Definition typeof (v : Value) : TypeOf :=
  match v with
  | None => t_undefined
  | Some JNull | Some (JArray _) | Some (JObject _) => t_object
  | Some (JBool _) => t_boolean
  | Some (JNumber _) => t_number
  | Some (JString _) => t_string
  end.

(** [typeof v === t] *)
Definition isTypeOf (t : TypeOf) (v : Value) : bool :=
  match t, typeof v with
  | t_undefined, t_undefined | t_object, t_object | t_boolean, t_boolean
  | t_number, t_number | t_string, t_string => true
  | _, _ => false
  end.

Fixpoint assoc (key : string) (fields : list (string * JSON)) : Value :=
  match fields with
  | [] => None
  | (k, v) :: rest => if String.eqb k key then Some v else assoc key rest
  end.

(** [v.key] on a truthy value, for the keys the route reads (none of them
    is a property of an array, a string, a number or a boolean). *)
Definition get (key : string) (v : Value) : Value :=
  match v with
  | Some (JObject fields) => assoc key fields
  | _ => None
  end.

(** [a || b] *)
Definition orElse (a b : Value) : Value := if truthyValue a then a else b.

(** [v === s] for a string literal [s] *)
Definition isString (s : string) (v : Value) : bool :=
  match v with Some (JString x) => String.eqb x s | _ => false end.

(** What the route leaves behind. *)
Inductive Effect := bookingCreated | emailSent | meetingScheduled.

(** The collaborators of the route: whether [new Date(raw)] is a valid
    date, and whether each awaited call resolves (or throws). *)
Record Services := {
  validDate : JSON -> bool;
  createBooking : bool;                      (* connectToDatabase, Booking.create *)
  sendAppointmentConfirmationEmail : bool;
  scheduleMeeting : bool;                    (* formatAppointmentDateTime, scheduleMeeting *)
}.

Record Response := {
  statusCode : nat;
  effects : list Effect;
}.

(** [email && typeof email === 'string' && email.trim().length > 0] *)
Definition hasEmail (email : Value) : bool :=
  truthyValue email && isTypeOf t_string email
  && match email with
     | Some (JString s) => 0 <? String.length (trim s)
     | _ => false
     end.

(** The handler of [app.post('/book-appointment', ...)]; [header] is
    [req.headers['x-browser-session-id']]. *)
Definition bookAppointment (sv : Services) (body : Value) (header : option string)
  : Response :=
  let body := orElse body (Some (JObject [])) in
  let action := get "action" body in
  let payload := get "payload" body in
  let metadata := get "metadata" body in
  if negb (isString "book_appointment" action)
     || negb (truthyValue payload) || negb (isTypeOf t_object payload)
  then {| statusCode := 400; effects := [] |}
  else
    let name := get "name" payload in
    let age := get "age" payload in
    let contactNumber := get "contact_number" payload in
    let medicalConcern := get "medical_concern" payload in
    let appointmentDateTimeRaw := get "appointment_datetime" payload in
    let email :=
      match get "email" payload with None => Some JNull | v => v end in
    if negb (truthyValue name) || negb (truthyValue contactNumber)
       || negb (truthyValue medicalConcern) || negb (truthyValue appointmentDateTimeRaw)
       || negb (isTypeOf t_number age)
    then {| statusCode := 400; effects := [] |}
    else
      let browserSessionId :=
        orElse
          (orElse
             (if truthyValue metadata then get "browser_session_id" metadata else metadata)
             (JString <$> header))
          (Some JNull) in
      if negb (truthyValue browserSessionId)
      then {| statusCode := 400; effects := [] |}
      else if negb (validDate sv (default JNull appointmentDateTimeRaw))
      then {| statusCode := 400; effects := [] |}
      else if negb (createBooking sv)
      then {| statusCode := 500; effects := [] |}
      else
        let sent :=
          if hasEmail email then
            if sendAppointmentConfirmationEmail sv then
              if scheduleMeeting sv then [emailSent; meetingScheduled] else [emailSent]
            else []
          else [] in
        {| statusCode := 200; effects := bookingCreated :: sent |}.

(** The guards of the route, as one test and as a proposition. *)
Definition accepts (sv : Services) (body : Value) (header : option string) : bool :=
  let payload := get "payload" body in
  isString "book_appointment" (get "action" body)
  && truthyValue payload && isTypeOf t_object payload
  && truthyValue (get "name" payload) && truthyValue (get "contact_number" payload)
  && truthyValue (get "medical_concern" payload)
  && truthyValue (get "appointment_datetime" payload)
  && isTypeOf t_number (get "age" payload)
  && (truthyValue (get "browser_session_id" (get "metadata" body)) || truthy header)
  && validDate sv (default JNull (get "appointment_datetime" payload)).

Definition validRequest (sv : Services) (body : Value) (header : option string) : Prop :=
  let payload := get "payload" body in
  get "action" body = Some (JString "book_appointment")
  /\ typeof payload = t_object
  /\ truthyValue (get "name" payload) = true
  /\ truthyValue (get "contact_number" payload) = true
  /\ truthyValue (get "medical_concern" payload) = true
  /\ typeof (get "age" payload) = t_number
  /\ (exists raw, get "appointment_datetime" payload = Some raw
                  /\ truthyValue (Some raw) = true /\ validDate sv raw = true)
  /\ (truthyValue (get "browser_session_id" (get "metadata" body)) = true
      \/ truthy header = true).

End HttpServer.

(** ** Further scenarios *)

Module Cases.
Import Js Accumulator Engine Scenarios.
#[local] Open Scope Z_scope.

(** "hello" is extended to "hello world" by a transcript that Deepgram
    marks final; the tick at t = 7000 sees five seconds of silence and
    starts the buffer interval 2 with the final hint. *)
Definition final_hint_world : World :=
  run (connect true)
    [ frame start_recording; dg_transcript 1 "hello" false 1000;
      dg_transcript 1 "hello world" true 2000; timer_fired 0 7000 ].

(** The buffer interval 2 of [silence_trace] is running. *)
Definition silent_world : World := run (connect true) silence_trace.

(** The clock of the first fourteen ticks of that interval. *)
Definition tick_times : list Z := map (fun i => 6100 + 100 * Z.of_nat i) (seq 0 14).

(** A session that has adopted the browser session "browser-1". *)
Definition session_world : World :=
  run (connect true) [ frameOf "browser-1" (chat_message (Some "a")) ].

(** Without an API key: after a forced finalize of "hello" the reply is
    complete and its synthesis (stream 3) is pending. *)
Definition synthesis_world : World :=
  run (connect false)
    [ frame start_recording; dg_transcript 1 "hello" false 1000;
      frameAt 2000 stop_recording ].

(** A chat turn whose completion (stream 0) has just been started. *)
Definition asked_world : World := run (connect true) [ frame (chat_message (Some "hi")) ].
Definition asked_stream : LLMStream :=
  {| origin := inProcessUserMessage true; userText := "hi";
     messages := [(user, "hi")]; responseText := ""; fullText := "";
     controller := Some false; settled := false |}.


(** While "hello" is pending: a frame that is not JSON, a frame of unknown
    type that carries the first browser session id (its lookup is promise
    2), a blank chat message, the settlement of the lookup, a blank
    transcript and a socket error. *)
Definition ignored_trace : list Event :=
  [ ws_message None 1500;
    frameOf "browser-1" (unknown_type "ping");
    frameAt 1600 (chat_message (Some "  "));
    promise_settled 2 (Some "user-7") 1700;
    dg_transcript 1 "  " true 1800;
    ws_error ].

(** The same without the frame that binds the session. *)
Definition unbound_ignored_trace : list Event :=
  [ ws_message None 1500;
    frameAt 1600 (chat_message (Some "  "));
    frameAt 1650 (audio_chunk None);
    dg_transcript 1 "  " true 1800;
    ws_error ].

End Cases.

Module HttpCases.
Import Js HttpServer.

(** Stored entries: a plain reply and a raw booking object. *)
Definition stored_docs : list ConversationDoc :=
  [ {| createdAt := "2025-12-20T10:00:00.000Z"; userText := "hello";
       agentText := Some "Hello, how can I help?"; browserSessionId := "browser-1";
       mode := Engine.chat; user := None |};
    {| createdAt := "2025-12-20T10:01:00.000Z"; userText := "Yes, book the appointment";
       agentText := Some Scenarios.bookingJSON; browserSessionId := "browser-1";
       mode := Engine.chat; user := None |} ].

(** A booking request with every required field and an e-mail address, and
    services where only the calendar fails. *)
Definition booking_body : Value :=
  Some (JObject
    [ ("action", JString "book_appointment");
      ("payload", JObject
         [ ("name", JString "Asha Rao"); ("age", JNumber (QArith_base.Qmake 27 1));
           ("contact_number", JString "9970758021");
           ("medical_concern", JString "headache");
           ("appointment_datetime", JString "2025-12-24T16:00:00.000Z");
           ("email", JString "asha@example.com") ]);
      ("metadata", JObject [ ("browser_session_id", JString "browser-1") ]) ]).

Definition calendar_down : Services :=
  {| validDate := fun _ => true; createBooking := true;
     sendAppointmentConfirmationEmail := true; scheduleMeeting := false |}.

End HttpCases.

(** Strings with code units beyond the Latin-1 range. *)

Module Utf16Cases.
Import Utf16.
#[local] Open Scope N_scope.

(** "i" followed by the combining dot above, and the capital I with dot
    above, whose lower case is that pair. *)
Definition dotted_i : JsString := [0x69; 0x307].
Definition capital_dotted_I : JsString := [0x130].

(** "Istanbul" written with that capital, as a transcript with a space
    before and after. *)
Definition dotted_Istanbul : JsString :=
  [0x20] ++ capital_dotted_I ++ ofLatin1 "stanbul" ++ [0x20].

End Utf16Cases.

(** * Properties *)

(** ** Strings *)

Module JsFacts.
Import Js.

Lemma isWhiteSpace_toLowerCaseUnit c :
  isWhiteSpace (toLowerCaseUnit c) = isWhiteSpace c.
Proof. destruct c as [[] [] [] [] [] [] [] []]; vm_compute; reflexivity. Qed.

Lemma length_toLowerCase s : String.length (toLowerCase s) = String.length s.
Proof. induction s as [|c s IH]; simpl; congruence. Qed.

Lemma toLowerCase_empty s : toLowerCase s = EmptyString -> s = EmptyString.
Proof. destruct s; simpl; congruence. Qed.

Lemma toLowerCase_trimStart s : toLowerCase (trimStart s) = trimStart (toLowerCase s).
Proof.
  induction s as [|c s IH]; simpl; [reflexivity|].
  rewrite isWhiteSpace_toLowerCaseUnit. destruct (isWhiteSpace c); [exact IH|reflexivity].
Qed.

Lemma toLowerCase_trimEnd s : toLowerCase (trimEnd s) = trimEnd (toLowerCase s).
Proof.
  induction s as [|c s IH]; simpl; [reflexivity|].
  rewrite <- IH, isWhiteSpace_toLowerCaseUnit.
  destruct (trimEnd s); simpl; [destruct (isWhiteSpace c)|]; reflexivity.
Qed.

Lemma toLowerCase_trim s : toLowerCase (trim s) = trim (toLowerCase s).
Proof. unfold trim. now rewrite toLowerCase_trimEnd, toLowerCase_trimStart. Qed.

Lemma length_trimStart s : String.length (trimStart s) <= String.length s.
Proof. induction s as [|c s IH]; simpl; [lia|]. destruct (isWhiteSpace c); simpl; lia. Qed.

Lemma length_trimEnd s : String.length (trimEnd s) <= String.length s.
Proof.
  induction s as [|c s IH]; simpl; [lia|].
  destruct (trimEnd s); simpl in *; [destruct (isWhiteSpace c); simpl; lia|lia].
Qed.

Lemma length_trim s : String.length (trim s) <= String.length s.
Proof. unfold trim. pose proof (length_trimEnd (trimStart s)). pose proof (length_trimStart s). lia. Qed.

Lemma trimStart_full s : String.length (trimStart s) = String.length s -> trimStart s = s.
Proof.
  destruct s as [|c s]; simpl; [reflexivity|].
  destruct (isWhiteSpace c); [|reflexivity].
  pose proof (length_trimStart s). lia.
Qed.

Lemma trimEnd_full s : String.length (trimEnd s) = String.length s -> trimEnd s = s.
Proof.
  induction s as [|c s IH]; simpl; [reflexivity|].
  pose proof (length_trimEnd s) as Hle.
  destruct (trimEnd s) as [|d r] eqn:E; simpl in *.
  - destruct (isWhiteSpace c); simpl; intros H; [discriminate|].
    assert (s = EmptyString) by (destruct s; [reflexivity|simpl in H; discriminate]). now subst.
  - intros H. rewrite IH; [reflexivity|lia].
Qed.

Lemma trim_full s : String.length (trim s) = String.length s -> trim s = s.
Proof.
  unfold trim. intros H.
  pose proof (length_trimEnd (trimStart s)). pose proof (length_trimStart s).
  assert (trimStart s = s) as E by (apply trimStart_full; lia).
  rewrite E in *. now apply trimEnd_full.
Qed.

(** A string is its own trim exactly when it neither starts nor ends with white space. *)
Lemma trimmed_split s : trim s = s -> trimStart s = s /\ trimEnd s = s.
Proof.
  intros H. assert (String.length (trim s) = String.length s) as L by now rewrite H.
  unfold trim in *.
  pose proof (length_trimEnd (trimStart s)). pose proof (length_trimStart s).
  assert (trimStart s = s) as E by (apply trimStart_full; lia).
  rewrite E in *. split; [reflexivity|]. now apply trimEnd_full.
Qed.

Lemma trimEnd_trimEnd s : trimEnd (trimEnd s) = trimEnd s.
Proof.
  induction s as [|c s IH]; simpl; [reflexivity|].
  destruct (trimEnd s) as [|d r] eqn:E.
  - destruct (isWhiteSpace c) eqn:W; simpl; [reflexivity|]. now rewrite W.
  - simpl in *. now rewrite IH.
Qed.

Lemma trimStart_trimEnd_head c s :
  isWhiteSpace c = false -> trimStart (trimEnd (String c s)) = trimEnd (String c s).
Proof.
  intros W. simpl. rewrite W. destruct (trimEnd s); simpl; now rewrite W.
Qed.

Lemma trimStart_head s :
  trimStart s = EmptyString \/ exists c r, trimStart s = String c r /\ isWhiteSpace c = false.
Proof.
  induction s as [|c s IH]; simpl; [now left|].
  destruct (isWhiteSpace c) eqn:W; [exact IH|]. right. eauto.
Qed.

Lemma trim_trim s : trim (trim s) = trim s.
Proof.
  unfold trim at 2 3.
  destruct (trimStart_head s) as [->|(c & r & -> & W)]; [reflexivity|].
  unfold trim. rewrite trimStart_trimEnd_head by exact W. apply trimEnd_trimEnd.
Qed.

Lemma append_cons c s t : String c s +:+ t = String c (s +:+ t).
Proof. reflexivity. Qed.

Lemma append_nil s : EmptyString +:+ s = s.
Proof. reflexivity. Qed.

Lemma trimEnd_app s t : trimEnd t = t -> t <> EmptyString -> trimEnd (s +:+ t) = s +:+ t.
Proof.
  intros Ht Hne. induction s as [|c s IH]; [exact Ht|].
  rewrite append_cons. simpl. rewrite IH.
  destruct (s +:+ t) eqn:E; [|reflexivity].
  destruct s; [now apply Hne in E|discriminate].
Qed.

Lemma trimStart_app s t : trimStart s = s -> s <> EmptyString -> trimStart (s +:+ t) = s +:+ t.
Proof.
  destruct s as [|c s]; [congruence|]. rewrite append_cons. simpl. intros H _.
  destruct (isWhiteSpace c); [|reflexivity].
  pose proof (length_trimStart s) as L. rewrite H in L. simpl in L. lia.
Qed.

Lemma trim_join p t :
  trim p = p -> p <> EmptyString -> trim t = t -> t <> EmptyString ->
  trim (p +:+ " " +:+ t) = p +:+ " " +:+ t.
Proof.
  intros Hp Np Ht Nt.
  apply trimmed_split in Hp as [Hp1 Hp2]. apply trimmed_split in Ht as [Ht1 Ht2].
  unfold trim. rewrite trimStart_app by assumption.
  replace (p +:+ " " +:+ t) with ((p +:+ " ") +:+ t).
  - apply trimEnd_app; assumption.
  - clear. induction p as [|c p IH]; [reflexivity|].
    rewrite !append_cons. now f_equal.
Qed.

Lemma prefix_refl s : String.prefix s s = true.
Proof. induction s as [|c s IH]; simpl; [reflexivity|]. destruct (ascii_dec c c); [exact IH|congruence]. Qed.

Lemma prefix_length p s : String.prefix p s = true -> String.length p <= String.length s.
Proof.
  revert s. induction p as [|c p IH]; intros [|d s]; simpl; try lia; try discriminate.
  destruct (ascii_dec c d); [|discriminate]. intros H. apply IH in H. lia.
Qed.

Lemma includes_refl s : includes s s = true.
Proof. destruct s; simpl; [reflexivity|]. destruct (ascii_dec a a); [|congruence]. now rewrite prefix_refl. Qed.

Lemma includes_length s sub : includes s sub = true -> String.length sub <= String.length s.
Proof.
  induction s as [|c s IH]; cbn [includes]; rewrite orb_true_iff; intros [H|H].
  - now apply prefix_length in H.
  - discriminate.
  - now apply prefix_length in H.
  - apply IH in H. simpl. lia.
Qed.


Lemma empty_includes s : includes EmptyString s = true -> s = EmptyString.
Proof. intros H. apply includes_length in H. destruct s; simpl in *; [reflexivity|lia]. Qed.




End JsFacts.

(** ** Buffers *)

Module BufferFacts.
Import Buffer.

Example utf8_ex : from (String (ascii_of_nat 233) EmptyString) = [195%N; 169%N].
Proof. reflexivity. Qed.

Example toBase64_ex : toBase64 (from "AUDIO:Hi there") = "QVVESU86SGkgdGhlcmU=".
Proof. reflexivity. Qed.

Example toBase64_padding_ex :
  toBase64 (from "AUDIO:") = "QVVESU86" /\ toBase64 (from "AUDIO:a") = "QVVESU86YQ=="
  /\ toBase64 (from "AUDIO:ab") = "QVVESU86YWI=".
Proof. repeat split. Qed.

(** Every three bytes, complete or not, give four characters. *)
Lemma length_toBase64 bytes :
  String.length (toBase64 bytes) = 4 * ((length bytes + 2) / 3).
Proof.
  assert (forall n bs, length bs <= n ->
            String.length (toBase64 bs) = 4 * ((length bs + 2) / 3)) as H.
  { induction n as [n IH] using (well_founded_induction lt_wf).
    intros [|a [|b [|c r]]] L; try reflexivity.
    cbn [toBase64 String.length length]. cbn [length] in L.
    rewrite (IH (length r)) by lia.
    replace (S (S (S (length r))) + 2) with ((length r + 2) + 1 * 3) by lia.
    rewrite Nat.div_add by lia. lia. }
  now apply (H (length bytes)).
Qed.

End BufferFacts.

(** ** Transcript accumulator *)

Module AccumulatorFacts.
Import Js Accumulator JsFacts.


Example trim_ex : trim "  Book an  " = "Book an".
Proof. reflexivity. Qed.

Example lower_ex : toLowerCase "Book AN" = "book an".
Proof. reflexivity. Qed.

Example grow_ex :
  accumulate (accumulate (accumulate None "book") "book an") "book an appointment"
  = Some "book an appointment".
Proof. reflexivity. Qed.

Example append_ex : accumulate (Some "hello there") "general kenobi!"
                    = Some "hello there general kenobi!".
Proof. reflexivity. Qed.

Example shorter_ex : accumulate (Some "hello there") "bye" = Some "hello there bye".
Proof. reflexivity. Qed.

Example shorter_overlap_ex : accumulate (Some "hello there") "re" = Some "hello there".
Proof. reflexivity. Qed.

Example spec_ex : merge_spec (Some "hello there") "bye" = "hello there bye".
Proof. reflexivity. Qed.






Lemma trimmed_trim s : trimmed (trim s).
Proof. apply trim_trim. Qed.


(** The guard of [accumulate] holds exactly for a text that is not blank. *)
Lemma guard_spec text :
  truthy (Some text) && (0 <? String.length (trim text)) = negb (String.eqb (trim text) EmptyString).
Proof.
  destruct text as [|c r]; [reflexivity|]. cbn [truthy andb].
  destruct (trim (String c r)); reflexivity.
Qed.


Lemma accumulate_None t : accumulate None t = if String.eqb (trim t) EmptyString then None else Some (trim t).
Proof. unfold accumulate. rewrite guard_spec. now destruct (String.eqb (trim t) EmptyString). Qed.

Lemma eqb_empty s : String.eqb s EmptyString = false -> s <> EmptyString.
Proof. destruct s; [discriminate|discriminate]. Qed.


(** [pendingTranscript] stays [null] or trimmed. *)
Lemma mergeTranscript_trimmed P t : pending_ok P -> trimmed t -> trimmed (mergeTranscript P t).
Proof.
  intros HP Ht. unfold mergeTranscript.
  destruct P as [[|a q]|]; try exact Ht.
  cbv zeta. repeat case_match; try exact Ht; try exact HP; apply trimmed_trim.
Qed.

Lemma accumulate_ok P text : pending_ok P -> pending_ok (accumulate P text).
Proof.
  intros HP. unfold accumulate. case_match; [|exact HP].
  apply mergeTranscript_trimmed; [exact HP|apply trimmed_trim].
Qed.



(** C8.  Merging a transcript with itself gives it back, for every string:
    as the merge proper, and through the guard of the transcript callback. *)
Theorem merge_idempotent (P : string) :
  mergeTranscript (Some P) P = P /\ accumulate (Some P) P = Some P.
Proof.
  split.
  - unfold mergeTranscript. destruct P as [|a q] eqn:EP; [reflexivity|]. rewrite <- EP.
    cbv zeta. rewrite includes_refl, Nat.ltb_irrefl, Nat.leb_refl. reflexivity.
  - unfold accumulate. rewrite guard_spec.
    destruct (String.eqb (trim P) EmptyString) eqn:E; cbn [negb]; [reflexivity|].
    f_equal. unfold mergeTranscript.
    destruct P as [|a q] eqn:EP; [discriminate|]. rewrite <- EP. cbv zeta.
    rewrite <- !toLowerCase_trim, trim_trim, includes_refl.
    pose proof (length_trim P) as L.
    destruct (String.length P <? String.length (trim P)) eqn:L1;
      [apply Nat.ltb_lt in L1; lia|].
    cbn [andb].
    destruct (String.length P <=? String.length (trim P)) eqn:L2.
    + apply Nat.leb_le in L2. apply trim_full. lia.
    + apply Nat.leb_gt in L2. apply Nat.ltb_lt in L2. now rewrite L2.
Qed.

(** On strings of code units below 256 lower-casing keeps the length, so a
    pending transcript that the incoming text contains (case-insensitively,
    on the trimmed strings) is never the longer one, and the merge is the
    incoming text.  [Utf16Facts] has the merge over every code unit. *)
Lemma latin1_merge_absorbs_contained (P T : string) :
  trimmed P ->
  includes (toLowerCase (trim T)) (toLowerCase (trim P)) = true ->
  mergeTranscript (Some P) T = T /\ accumulate (Some P) T = Some (trim T).
Proof.
  intros HP Hc.
  assert (forall t, includes (trim (toLowerCase t)) (trim (toLowerCase P)) = true ->
                    mergeTranscript (Some P) t = t) as Hm.
  { intros t Ht. unfold mergeTranscript.
    destruct P as [|a q] eqn:EP; [reflexivity|]. rewrite <- EP in *. cbv zeta.
    rewrite Ht. pose proof (includes_length _ _ Ht) as L.
    rewrite <- !toLowerCase_trim, !length_toLowerCase, HP in L.
    pose proof (length_trim t) as Lt.
    destruct (String.length P <? String.length t) eqn:L1; [reflexivity|].
    apply Nat.ltb_ge in L1. cbn [andb].
    replace (String.length P <=? String.length t) with true; [reflexivity|].
    symmetry. apply Nat.leb_le. lia. }
  split.
  - apply Hm. now rewrite <- !toLowerCase_trim.
  - unfold accumulate. rewrite guard_spec.
    destruct (String.eqb (trim T) EmptyString) eqn:E; cbn [negb].
    + apply String.eqb_eq in E. rewrite E in *. rewrite HP in Hc.
      apply empty_includes, toLowerCase_empty in Hc. now subst.
    + f_equal. apply Hm. now rewrite <- !toLowerCase_trim, trim_trim.
Qed.

Example latin1_merge_absorbs_contained_ex :
  mergeTranscript (Some "book an") "Book an appointment" = "Book an appointment"
  /\ accumulate (Some "book an") "Book an appointment" = Some (trim "Book an appointment").
Proof.
  apply (latin1_merge_absorbs_contained "book an" "Book an appointment"); reflexivity.
Qed.

End AccumulatorFacts.

(** ** The accumulator over every code unit *)

Module Utf16Facts.
Import Utf16 Utf16Accumulator Utf16Cases.

(** On the code units of [Js] the two embeddings of the string operations
    agree. *)
Lemma isWhiteSpace_ofLatin1 c : isWhiteSpace (N_of_ascii c) = Js.isWhiteSpace c.
Proof. destruct c as [[] [] [] [] [] [] [] []]; vm_compute; reflexivity. Qed.

Lemma toLowerCaseUnit_ofLatin1 c :
  toLowerCaseUnit (N_of_ascii c) = [N_of_ascii (Js.toLowerCaseUnit c)].
Proof. destruct c as [[] [] [] [] [] [] [] []]; vm_compute; reflexivity. Qed.

Lemma ofLatin1_cons c s : ofLatin1 (String c s) = N_of_ascii c :: ofLatin1 s.
Proof. reflexivity. Qed.

Lemma ofLatin1_inj s t : ofLatin1 s = ofLatin1 t -> s = t.
Proof.
  revert t. induction s as [|c s IH]; intros [|d t]; try discriminate; [reflexivity|].
  rewrite !ofLatin1_cons. intros H. injection H as Hc Hs.
  f_equal; [|now apply IH].
  rewrite <- (ascii_N_embedding c), <- (ascii_N_embedding d). now rewrite Hc.
Qed.

Lemma length_ofLatin1 s : length (ofLatin1 s) = String.length s.
Proof. induction s as [|c s IH]; [reflexivity|]. rewrite ofLatin1_cons. simpl. now rewrite IH. Qed.

Lemma ofLatin1_app s t : ofLatin1 (s +:+ t) = ofLatin1 s ++ ofLatin1 t.
Proof.
  induction s as [|c s IH]; [reflexivity|].
  rewrite JsFacts.append_cons, !ofLatin1_cons. simpl. now rewrite IH.
Qed.

Lemma ofLatin1_trimStart s : ofLatin1 (Js.trimStart s) = trimStart (ofLatin1 s).
Proof.
  induction s as [|c s IH]; [reflexivity|].
  rewrite ofLatin1_cons. simpl. rewrite isWhiteSpace_ofLatin1.
  destruct (Js.isWhiteSpace c); [exact IH|reflexivity].
Qed.

Lemma ofLatin1_trimEnd s : ofLatin1 (Js.trimEnd s) = trimEnd (ofLatin1 s).
Proof.
  induction s as [|c s IH]; [reflexivity|].
  rewrite ofLatin1_cons. simpl. rewrite <- IH, isWhiteSpace_ofLatin1.
  destruct (Js.trimEnd s); [destruct (Js.isWhiteSpace c)|]; reflexivity.
Qed.

Lemma ofLatin1_trim s : ofLatin1 (Js.trim s) = trim (ofLatin1 s).
Proof. unfold Js.trim, trim. now rewrite ofLatin1_trimEnd, ofLatin1_trimStart. Qed.

Lemma ofLatin1_toLowerCase s : ofLatin1 (Js.toLowerCase s) = toLowerCase (ofLatin1 s).
Proof.
  induction s as [|c s IH]; [reflexivity|].
  simpl Js.toLowerCase. rewrite !ofLatin1_cons. unfold toLowerCase. simpl.
  rewrite toLowerCaseUnit_ofLatin1. simpl. f_equal. exact IH.
Qed.

Lemma startsWith_ofLatin1 s p : startsWith (ofLatin1 s) (ofLatin1 p) = String.prefix p s.
Proof.
  revert s. induction p as [|a p IH]; intros [|b s]; try reflexivity.
  rewrite !ofLatin1_cons. simpl. rewrite IH.
  destruct (ascii_dec a b) as [->|N].
  - now rewrite N.eqb_refl.
  - destruct (N.eqb_spec (N_of_ascii a) (N_of_ascii b)) as [E|_]; [|reflexivity].
    exfalso. apply N. rewrite <- (ascii_N_embedding a), <- (ascii_N_embedding b). now rewrite E.
Qed.

Lemma includes_ofLatin1 s sub : includes (ofLatin1 s) (ofLatin1 sub) = Js.includes s sub.
Proof.
  induction s as [|c s IH].
  - cbn [Js.includes]. change (ofLatin1 "") with (@nil N). cbn [includes].
    now rewrite <- startsWith_ofLatin1.
  - rewrite ofLatin1_cons. cbn [includes Js.includes].
    rewrite <- ofLatin1_cons, startsWith_ofLatin1. now rewrite IH.
Qed.

Lemma ofLatin1_substring n m s :
  ofLatin1 (String.substring n m s) = take m (drop n (ofLatin1 s)).
Proof.
  revert n m. induction s as [|c s IH]; intros [|n] [|m]; try reflexivity.
  - rewrite ofLatin1_cons. simpl. rewrite ofLatin1_cons. f_equal. apply (IH 0 m).
  - simpl. rewrite (IH n 0). reflexivity.
  - simpl. apply (IH n (S m)).
Qed.

Lemma ofLatin1_js_substring s a b :
  ofLatin1 (Js.substring s a b) = substring (ofLatin1 s) a b.
Proof. unfold Js.substring, substring. now rewrite ofLatin1_substring, length_ofLatin1. Qed.

Lemma ofLatin1_substringFrom s a :
  ofLatin1 (Js.substringFrom s a) = substringFrom (ofLatin1 s) a.
Proof. unfold Js.substringFrom, substringFrom. now rewrite ofLatin1_js_substring, length_ofLatin1. Qed.

Lemma eqb_ofLatin1 s t : bool_decide (ofLatin1 s = ofLatin1 t) = String.eqb s t.
Proof.
  destruct (String.eqb_spec s t) as [->|N].
  - now rewrite bool_decide_eq_true_2.
  - rewrite bool_decide_eq_false_2; [reflexivity|]. intros E. now apply N, ofLatin1_inj.
Qed.

(** On strings of [Js] the merge over every code unit, with the lower case
    of [Utf16], is the merge of [Accumulator]. *)
Lemma mergeTranscript_ofLatin1 (P : option string) (t : string) :
  mergeTranscript toLowerCase (ofLatin1 <$> P) (ofLatin1 t)
  = ofLatin1 (Accumulator.mergeTranscript P t).
Proof.
  destruct P as [p|]; [|reflexivity].
  destruct p as [|a q] eqn:EP; [reflexivity|].
  unfold Accumulator.mergeTranscript, mergeTranscript.
  cbn [fmap option_fmap option_map]. rewrite ofLatin1_cons. cbv beta iota zeta.
  rewrite <- ofLatin1_cons, <- EP.
  rewrite <- !ofLatin1_toLowerCase, <- !ofLatin1_trim, !includes_ofLatin1, !length_ofLatin1.
  rewrite <- !ofLatin1_substringFrom, <- !ofLatin1_js_substring, !includes_ofLatin1.
  rewrite eqb_ofLatin1.
  change [32%N] with (ofLatin1 " ").
  rewrite <- !ofLatin1_app, <- !ofLatin1_trim.
  repeat match goal with |- context [if ?b then _ else _] => destruct b end; reflexivity.
Qed.

Lemma accumulate_ofLatin1 (P : option string) (text : string) :
  accumulate toLowerCase (ofLatin1 <$> P) (ofLatin1 text)
  = ofLatin1 <$> Accumulator.accumulate P text.
Proof.
  unfold accumulate, Accumulator.accumulate.
  rewrite <- ofLatin1_trim, length_ofLatin1, mergeTranscript_ofLatin1.
  assert (truthy (Some (ofLatin1 text)) = Js.truthy (Some text)) as ->
    by (destruct text; reflexivity).
  now destruct (Js.truthy (Some text) && (0 <? String.length (Js.trim text))).
Qed.

(** The merge when the containment test of the code holds: the incoming text
    unless the pending transcript is the longer one. *)
Lemma mergeTranscript_contained lower (P t : JsString) :
  includes (trim (lower t)) (trim (lower P)) = true ->
  mergeTranscript lower (Some P) t = if length P <=? length t then t else P.
Proof.
  intros C. unfold mergeTranscript.
  destruct P as [|a q] eqn:EP; [reflexivity|]. rewrite <- EP in *. cbv zeta. rewrite C.
  destruct (length P <? length t) eqn:L1.
  - apply Nat.ltb_lt in L1. cbn [andb].
    destruct (Nat.leb_spec (length P) (length t)); [reflexivity|lia].
  - apply Nat.ltb_ge in L1. cbn [andb negb].
    destruct (Nat.leb_spec (length P) (length t)) as [L2|L2]; [reflexivity|].
    destruct (includes (trim (lower P)) (trim (lower t))); cbn [andb].
    + destruct (Nat.ltb_spec (length t) (length P)); [reflexivity|lia].
    + destruct (Nat.eqb_spec (length t) (length P)); [lia|]. cbn [andb].
      rewrite andb_false_r. reflexivity.
Qed.

Lemma startsWith_le s p : startsWith s p = true -> length p <= length s.
Proof.
  revert s. induction p as [|a p IH]; intros [|b s]; simpl; try lia; try discriminate.
  intros [_ H]%andb_prop. apply IH in H. lia.
Qed.

Lemma includes_le s sub : includes s sub = true -> length sub <= length s.
Proof.
  induction s as [|c s IH]; cbn [includes]; rewrite orb_true_iff; intros [H|H].
  - now apply startsWith_le in H.
  - discriminate.
  - now apply startsWith_le in H.
  - apply IH in H. simpl. lia.
Qed.

(** C9, amended.  Whatever [toLowerCase] does: when the containment test of
    the code finds the pending transcript in the incoming text (both
    lower-cased and trimmed), the merge is the incoming text provided the
    pending transcript is not the longer of the two, in code units; when it
    is the longer one, the pending transcript is kept.  The pending
    transcript is not the longer one whenever lower-casing keeps the length
    of both strings. *)
Theorem contained_is_absorbed_unless_longer
    (toLowerCase : JsString -> JsString) (P T : JsString) :
  includes (trim (toLowerCase (trim T))) (trim (toLowerCase P)) = true ->
  (length P <= length (trim T) ->
   mergeTranscript toLowerCase (Some P) (trim T) = trim T
   /\ accumulate toLowerCase (Some P) T = Some (trim T))
  /\ (length (trim T) < length P ->
      mergeTranscript toLowerCase (Some P) (trim T) = P
      /\ accumulate toLowerCase (Some P) T = Some P)
  /\ (length (trim (toLowerCase P)) = length P ->
      length (trim (toLowerCase (trim T))) = length (trim T) ->
      length P <= length (trim T)).
Proof.
  intros C. pose proof (mergeTranscript_contained toLowerCase P (trim T) C) as M.
  assert (accumulate toLowerCase (Some P) T
          = Some (if length P <=? length (trim T) then trim T else P)) as A.
  { unfold accumulate. rewrite M.
    destruct (truthy (Some T) && (0 <? length (trim T))) eqn:G; [reflexivity|].
    assert (trim T = []) as E.
    { destruct T as [|c r]; [reflexivity|]. cbn [truthy andb] in G.
      apply Nat.ltb_ge in G. destruct (trim (c :: r)); [reflexivity|simpl in G; lia]. }
    rewrite E. destruct P; reflexivity. }
  rewrite M, A. split; [|split].
  - intros L. destruct (Nat.leb_spec (length P) (length (trim T))); [auto|lia].
  - intros L. destruct (Nat.leb_spec (length P) (length (trim T))); [lia|auto].
  - intros LP LT. apply includes_le in C. lia.
Qed.

Lemma contained_is_absorbed_unless_longer_witness :
  includes (trim (toLowerCase (trim dotted_Istanbul))) (trim (toLowerCase (ofLatin1 "stanbul")))
  = true
  /\ length (ofLatin1 "stanbul") <= length (trim dotted_Istanbul)
  /\ mergeTranscript toLowerCase (Some (ofLatin1 "stanbul")) (trim dotted_Istanbul)
     = trim dotted_Istanbul
  /\ accumulate toLowerCase (Some (ofLatin1 "stanbul")) dotted_Istanbul
     = Some (trim dotted_Istanbul).
Proof.
  assert (includes (trim (toLowerCase (trim dotted_Istanbul)))
            (trim (toLowerCase (ofLatin1 "stanbul"))) = true) as C
    by (vm_compute; reflexivity).
  assert (length (ofLatin1 "stanbul") <= length (trim dotted_Istanbul)) as L
    by (vm_compute; lia).
  split; [exact C|]. split; [exact L|].
  exact (proj1 (contained_is_absorbed_unless_longer toLowerCase (ofLatin1 "stanbul")
                  dotted_Istanbul C) L).
Defined.

(** C9, where the claim fails.  The lower case of U+0130 is "i" followed by
    U+0307.  The incoming text U+0130 contains the pending transcript "i"
    U+0307 case-insensitively, both being trimmed, and is shorter than it:
    the merge keeps the pending transcript. *)
Lemma longer_pending_is_kept :
  trim dotted_i = dotted_i
  /\ trim capital_dotted_I = capital_dotted_I
  /\ toLowerCase capital_dotted_I = dotted_i
  /\ toLowerCase dotted_i = dotted_i
  /\ includes (toLowerCase (trim capital_dotted_I)) (toLowerCase (trim dotted_i)) = true
  /\ mergeTranscript toLowerCase (Some dotted_i) capital_dotted_I = dotted_i
  /\ accumulate toLowerCase (Some dotted_i) capital_dotted_I = Some dotted_i
  /\ dotted_i <> capital_dotted_I.
Proof. vm_compute. repeat split. discriminate. Qed.

End Utf16Facts.

(** ** The connection closure *)

Module EngineTactics.
Import Js Accumulator Engine.

(** [peel prim]: prove [R w (body w)] for a preorder [R] on worlds by
    walking the body from the outside in; [prim] closes [R x (op x)] for the
    primitive operations. *)
Ltac peel prim :=
  lazymatch goal with
  | H : ?R ?w ?x |- ?R ?w ?x => exact H
  | |- ?R ?w ?w => reflexivity
  | |- ?R ?w (let x := ?A in @?B x) =>
      lazymatch type of A with
      | World =>
          let H := fresh "H" in
          let b := fresh "w" in
          assert (H : R w A) by peel prim;
          generalize dependent A; intros b H;
          change (R w (B b)); cbv beta; peel prim
      | _ => change (R w (B A)); cbv beta; peel prim
      end
  | |- ?R ?w (if ?c then _ else _) => destruct c eqn:?; peel prim
  | |- ?R ?w (match ?p with _ => _ end) =>
      lazymatch type of p with
      | (nat * World)%type =>
          let H := fresh "H" in
          assert (H : R w (snd p)) by peel prim;
          destruct p as [? ?]; cbn [snd] in H; peel prim
      | _ => destruct p eqn:?; peel prim
      end
  | |- ?R ?w (snd (?f ?x)) =>
      transitivity x;
      [ peel prim
      | tryif is_var x then idtac else (generalize x; intro);
        first [ solve [prim] | fail 1 "peel: no lemma for" f ] ]
  | |- ?R ?w (?f ?x) =>
      transitivity x;
      [ peel prim
      | tryif is_var x then idtac else (generalize x; intro);
        first [ solve [prim] | fail 1 "peel: no lemma for" f ] ]
  | |- ?G => fail 1 "peel: stuck at" G
  end.

End EngineTactics.

Module EngineFacts.
Import Js Accumulator Engine Observations Scenarios JsFacts EngineTactics.

(** *** Sends are guarded *)

#[local] Instance quiet_preorder : PreOrder quiet.
Proof.
  split.
  - intros w. split; [reflexivity|]. intros H. split; [exact H|reflexivity].
  - intros a b c [F1 H1] [F2 H2]. split; [congruence|].
    intros H. destruct (H1 H) as [Hb Wb]. destruct (H2 Hb) as [Hc Wc].
    split; [exact Hc|congruence].
Qed.

Lemma quiet_assign {T} (set : T -> Vars -> Vars) v w : quiet w (assign set v w).
Proof. split; [reflexivity|]. intros H. split; [exact H|reflexivity]. Qed.

Lemma quiet_store {T} (set : T -> Heap -> Heap) v w : quiet w (store set v w).
Proof. split; [reflexivity|]. intros H. split; [exact H|reflexivity]. Qed.

Lemma quiet_sendMessage f w : quiet w (sendMessage f w).
Proof.
  unfold sendMessage, ws_send. destruct (decide (readyState (sock w) = OPEN)) as [E|E].
  - rewrite E. split; [reflexivity|]. intros H. congruence.
  - reflexivity.
Qed.

Lemma quiet_closing w :
  quiet w (if decide (readyState (sock w) = CLOSED) then w else set_readyState CLOSING w).
Proof.
  destruct (decide _); [reflexivity|]. split; [reflexivity|].
  intros H. split; [discriminate|reflexivity].
Qed.

Lemma quiet_closed w : quiet w (set_readyState CLOSED w).
Proof. split; [reflexivity|]. intros H. split; [discriminate|reflexivity]. Qed.

Create HintDb quiet.
#[local] Hint Resolve quiet_assign quiet_store quiet_sendMessage quiet_closed : quiet.

Ltac quiet_prim := eauto 2 with quiet.

#[local] Opaque quiet.

Lemma quiet_alloc w : quiet w (alloc w).2.
Proof. apply quiet_store. Qed.
#[local] Hint Resolve quiet_alloc : quiet.

Lemma quiet_setInterval t w : quiet w (setInterval t w).2.
Proof.
  unfold setInterval. pose proof (quiet_alloc w) as H.
  destruct (alloc w) as [id x]. cbn [snd] in *.
  transitivity x; [exact H|apply quiet_store].
Qed.

Lemma quiet_createTTSStream t w : quiet w (createTTSStream t w).2.
Proof.
  unfold createTTSStream. pose proof (quiet_alloc w) as H.
  destruct (alloc w) as [id x]. cbn [snd] in *.
  transitivity x; [exact H|apply quiet_store].
Qed.
#[local] Hint Resolve quiet_setInterval quiet_createTTSStream : quiet.

Lemma quiet_resume_save k w : quiet w (resume_save k w).
Proof. unfold resume_save. peel quiet_prim. Qed.
#[local] Hint Resolve quiet_resume_save : quiet.

Lemma quiet_drainMicrotasks w : quiet w (drainMicrotasks w).
Proof.
  unfold drainMicrotasks. transitivity (store set_microtasks [] w); [apply quiet_store|].
  generalize (store set_microtasks [] w) as x. generalize (microtasks (heap w)) as l.
  induction l as [|k l IH]; intros x; [reflexivity|].
  cbn [foldl]. transitivity (resume_save k x); [apply quiet_resume_save|apply IH].
Qed.


Lemma quiet_llm_cancel h w : quiet w (llm_cancel h w).
Proof. unfold llm_cancel. peel quiet_prim. Qed.
Lemma quiet_tts_cancel h w : quiet w (tts_cancel h w).
Proof. unfold tts_cancel. peel quiet_prim. Qed.
Lemma quiet_await_save k w : quiet w (await_save k w).
Proof. unfold await_save. peel quiet_prim. Qed.
#[local] Hint Resolve quiet_llm_cancel quiet_tts_cancel quiet_await_save : quiet.
Lemma quiet_onToken h t w : quiet w (onToken h t w).
Proof. unfold onToken. peel quiet_prim. Qed.
Lemma quiet_onComplete h t w : quiet w (onComplete h t w).
Proof. unfold onComplete. peel quiet_prim. Qed.
Lemma quiet_onError h w : quiet w (onError h w).
Proof. unfold onError. peel quiet_prim. Qed.
#[local] Hint Resolve quiet_onToken quiet_onComplete quiet_onError : quiet.
Lemma quiet_createOpenAIStream o t w : quiet w (createOpenAIStream o t w).2.
Proof.
  unfold createOpenAIStream. pose proof (quiet_alloc w) as H.
  destruct (alloc w) as [h x]. cbn [snd] in *. cbv zeta.
  destruct (OPENAI_API_KEY (heap x)); cbn [snd].
  - transitivity x; [exact H|apply quiet_store].
  - peel quiet_prim.
Qed.
#[local] Hint Resolve quiet_createOpenAIStream : quiet.
Lemma quiet_cancelInFlight w : quiet w (cancelInFlight w).
Proof. unfold cancelInFlight. peel quiet_prim. Qed.
#[local] Hint Resolve quiet_cancelInFlight : quiet.
Lemma quiet_processUserMessage u c w : quiet w (processUserMessage u c w).
Proof. unfold processUserMessage. peel quiet_prim. Qed.
#[local] Hint Resolve quiet_processUserMessage : quiet.
Lemma quiet_checkForFinalTranscript t w : quiet w (checkForFinalTranscript t w).
Proof. unfold checkForFinalTranscript. peel quiet_prim. Qed.
#[local] Hint Resolve quiet_checkForFinalTranscript : quiet.
Lemma quiet_clearInterval t w : quiet w (clearInterval t w).
Proof. unfold clearInterval. peel quiet_prim. Qed.
#[local] Hint Resolve quiet_clearInterval : quiet.
Lemma quiet_bufferTick id now t e l f w : quiet w (bufferTick id now t e l f w).
Proof. unfold bufferTick. peel quiet_prim. Qed.
Lemma quiet_silenceTick id now c w : quiet w (silenceTick id now c w).
Proof. unfold silenceTick. peel quiet_prim. Qed.
Lemma quiet_clearSilenceDetection w : quiet w (clearSilenceDetection w).
Proof. unfold clearSilenceDetection. peel quiet_prim. Qed.
#[local] Hint Resolve quiet_bufferTick quiet_silenceTick quiet_clearSilenceDetection : quiet.
Lemma quiet_startSilenceDetection w : quiet w (startSilenceDetection w).
Proof. unfold startSilenceDetection. peel quiet_prim. Qed.
Lemma quiet_onTranscript t f n w : quiet w (onTranscript t f n w).
Proof. unfold onTranscript. peel quiet_prim. Qed.
#[local] Hint Resolve quiet_startSilenceDetection quiet_onTranscript : quiet.
Lemma quiet_startDeepgramStream w : quiet w (startDeepgramStream w).
Proof. unfold startDeepgramStream. peel quiet_prim. Qed.
Lemma quiet_finalizeTranscript w : quiet w (finalizeTranscript w).
Proof. unfold finalizeTranscript. peel quiet_prim. Qed.
Lemma quiet_dg_close h w : quiet w (dg_close h w).
Proof. unfold dg_close. peel quiet_prim. Qed.
Lemma quiet_dg_write h a w : quiet w (dg_write h a w).
Proof. unfold dg_write. peel quiet_prim. Qed.
#[local] Hint Resolve quiet_startDeepgramStream quiet_finalizeTranscript quiet_dg_close
  quiet_dg_write : quiet.
Lemma quiet_stopDeepgramStream w : quiet w (stopDeepgramStream w).
Proof. unfold stopDeepgramStream. peel quiet_prim. Qed.
#[local] Hint Resolve quiet_stopDeepgramStream : quiet.
Lemma quiet_dispatch m now w : quiet w (dispatch m now w).
Proof. unfold dispatch. peel quiet_prim. Qed.
#[local] Hint Resolve quiet_dispatch : quiet.
Lemma quiet_onMessage d now w : quiet w (onMessage d now w).
Proof. unfold onMessage. peel quiet_prim. Qed.
Lemma quiet_onClose w : quiet w (onClose w).
Proof. unfold onClose. peel quiet_prim. Qed.
#[local] Hint Resolve quiet_onMessage quiet_onClose : quiet.

Lemma quiet_handle e w : quiet w (handle e w).
Proof.
  destruct e; unfold handle, running; try (peel quiet_prim).
  apply quiet_closing.
Qed.

Lemma quiet_step w e : quiet w (step w e).
Proof.
  unfold step. transitivity (handle e w); [apply quiet_handle|apply quiet_drainMicrotasks].
Qed.

#[local] Transparent quiet.


#[local] Instance extends_preorder : PreOrder extends.
Proof.
  split.
  - intros w. exists []. split; [now rewrite app_nil_r|constructor].
  - intros a b c (l1 & E1 & F1) (l2 & E2 & F2). exists (l1 ++ l2). split.
    + now rewrite E2, E1, <- app_assoc.
    + unfold userTexts in *. rewrite omap_app. now apply Forall_app.
Qed.

Lemma extends_same w w' :
  conversationHistory (vars w') = conversationHistory (vars w) -> extends w w'.
Proof. intros E. exists []. split; [now rewrite app_nil_r|constructor]. Qed.

Lemma extends_push_user t w :
  nonblank t ->
  extends w (assign set_conversationHistory (conversationHistory (vars w) ++ [(user, t)]) w).
Proof. intros H. exists [(user, t)]. split; [reflexivity|]. repeat constructor. exact H. Qed.

Lemma extends_push_assistant t w :
  extends w (assign set_conversationHistory (conversationHistory (vars w) ++ [(assistant, t)]) w).
Proof. exists [(assistant, t)]. split; [reflexivity|]. constructor. Qed.

Lemma nonblank_message u :
  negb (truthy (Some u)) || negb (truthy (Some (trim u))) = false -> nonblank (trim u).
Proof.
  intros H. apply orb_false_elim in H as [_ H]. unfold nonblank. rewrite trim_trim.
  destruct (trim u); [discriminate|discriminate].
Qed.

Lemma nonblank_final p :
  negb (truthy p) || (String.length (trim (pendingText p)) =? 0) = false ->
  nonblank (trim (pendingText p)).
Proof.
  intros H. apply orb_false_elim in H as [_ H]. unfold nonblank. rewrite trim_trim.
  destruct (trim (pendingText p)); [discriminate|discriminate].
Qed.

Lemma extends_assign {T} (set : T -> Vars -> Vars) v w :
  (forall x, conversationHistory (set v x) = conversationHistory x) ->
  extends w (assign set v w).
Proof. intros H. apply extends_same. apply H. Qed.

Lemma extends_store {T} (set : T -> Heap -> Heap) v w : extends w (store set v w).
Proof. now apply extends_same. Qed.

Lemma extends_alloc w : extends w (alloc w).2.
Proof. apply extends_store. Qed.
Lemma extends_setInterval t w : extends w (setInterval t w).2.
Proof. now apply extends_same. Qed.
Lemma extends_createTTSStream t w : extends w (createTTSStream t w).2.
Proof. now apply extends_same. Qed.
Lemma extends_set_readyState r w : extends w (set_readyState r w).
Proof. now apply extends_same. Qed.

Create HintDb extends.
#[local] Hint Resolve extends_push_user extends_push_assistant nonblank_message
  nonblank_final extends_store extends_alloc extends_setInterval
  extends_createTTSStream extends_set_readyState : extends.
#[local] Hint Extern 1 (extends _ (assign _ _ _)) =>
  apply extends_assign; intros ?; reflexivity : extends.

Ltac extends_prim := solve [eauto 3 with extends].

#[local] Opaque extends.

Lemma extends_sendMessage f w : extends w (sendMessage f w).
Proof.
  apply extends_same. unfold sendMessage, ws_send.
  destruct (decide _); [|reflexivity]. now destruct (readyState (sock w)).
Qed.
#[local] Hint Resolve extends_sendMessage : extends.
Lemma extends_resume_save k w : extends w (resume_save k w).
Proof. unfold resume_save. peel extends_prim. Qed.
Lemma extends_llm_cancel h w : extends w (llm_cancel h w).
Proof. unfold llm_cancel. peel extends_prim. Qed.
Lemma extends_tts_cancel h w : extends w (tts_cancel h w).
Proof. unfold tts_cancel. peel extends_prim. Qed.
Lemma extends_await_save k w : extends w (await_save k w).
Proof. unfold await_save. peel extends_prim. Qed.
#[local] Hint Resolve extends_resume_save extends_llm_cancel extends_tts_cancel
  extends_await_save : extends.
Lemma extends_onToken h t w : extends w (onToken h t w).
Proof. unfold onToken. peel extends_prim. Qed.
Lemma extends_onComplete h t w : extends w (onComplete h t w).
Proof. unfold onComplete. peel extends_prim. Qed.
Lemma extends_onError h w : extends w (onError h w).
Proof. unfold onError. peel extends_prim. Qed.
#[local] Hint Resolve extends_onToken extends_onComplete extends_onError : extends.
Lemma extends_createOpenAIStream o t w : extends w (createOpenAIStream o t w).2.
Proof.
  unfold createOpenAIStream. pose proof (extends_alloc w) as H.
  destruct (alloc w) as [h x]. cbn [snd] in *. cbv zeta.
  destruct (OPENAI_API_KEY (heap x)); cbn [snd]; peel extends_prim.
Qed.
#[local] Hint Resolve extends_createOpenAIStream : extends.
Lemma extends_cancelInFlight w : extends w (cancelInFlight w).
Proof. unfold cancelInFlight. peel extends_prim. Qed.
#[local] Hint Resolve extends_cancelInFlight : extends.
Lemma extends_processUserMessage u c w : extends w (processUserMessage u c w).
Proof. unfold processUserMessage. peel extends_prim. Qed.
#[local] Hint Resolve extends_processUserMessage : extends.
Lemma extends_checkForFinalTranscript t w : extends w (checkForFinalTranscript t w).
Proof. unfold checkForFinalTranscript. peel extends_prim. Qed.
Lemma extends_clearInterval t w : extends w (clearInterval t w).
Proof. unfold clearInterval. peel extends_prim. Qed.
#[local] Hint Resolve extends_checkForFinalTranscript extends_clearInterval : extends.
Lemma extends_bufferTick id now t e l f w : extends w (bufferTick id now t e l f w).
Proof. unfold bufferTick. peel extends_prim. Qed.
Lemma extends_silenceTick id now c w : extends w (silenceTick id now c w).
Proof. unfold silenceTick. peel extends_prim. Qed.
Lemma extends_clearSilenceDetection w : extends w (clearSilenceDetection w).
Proof. unfold clearSilenceDetection. peel extends_prim. Qed.
#[local] Hint Resolve extends_bufferTick extends_silenceTick extends_clearSilenceDetection : extends.
Lemma extends_startSilenceDetection w : extends w (startSilenceDetection w).
Proof. unfold startSilenceDetection. peel extends_prim. Qed.
Lemma extends_onTranscript t f n w : extends w (onTranscript t f n w).
Proof. unfold onTranscript. peel extends_prim. Qed.
#[local] Hint Resolve extends_startSilenceDetection extends_onTranscript : extends.
Lemma extends_startDeepgramStream w : extends w (startDeepgramStream w).
Proof. unfold startDeepgramStream. peel extends_prim. Qed.
Lemma extends_finalizeTranscript w : extends w (finalizeTranscript w).
Proof. unfold finalizeTranscript. peel extends_prim. Qed.
Lemma extends_dg_close h w : extends w (dg_close h w).
Proof. unfold dg_close. peel extends_prim. Qed.
Lemma extends_dg_write h a w : extends w (dg_write h a w).
Proof. unfold dg_write. peel extends_prim. Qed.
#[local] Hint Resolve extends_startDeepgramStream extends_finalizeTranscript extends_dg_close
  extends_dg_write : extends.
Lemma extends_stopDeepgramStream w : extends w (stopDeepgramStream w).
Proof. unfold stopDeepgramStream. peel extends_prim. Qed.
#[local] Hint Resolve extends_stopDeepgramStream : extends.
Lemma extends_dispatch m now w : extends w (dispatch m now w).
Proof. unfold dispatch. peel extends_prim. Qed.
#[local] Hint Resolve extends_dispatch : extends.
Lemma extends_onMessage d now w : extends w (onMessage d now w).
Proof. unfold onMessage. peel extends_prim. Qed.
Lemma extends_onClose w : extends w (onClose w).
Proof. unfold onClose. peel extends_prim. Qed.
#[local] Hint Resolve extends_onMessage extends_onClose : extends.

Lemma extends_handle e w : extends w (handle e w).
Proof.
  destruct e; unfold handle, running; peel extends_prim.
Qed.

Lemma extends_drainMicrotasks w : extends w (drainMicrotasks w).
Proof.
  unfold drainMicrotasks. transitivity (store set_microtasks [] w); [now apply extends_same|].
  generalize (store set_microtasks [] w) as x. generalize (microtasks (heap w)) as l.
  induction l as [|k l IH]; intros x; [reflexivity|].
  cbn [foldl]. transitivity (resume_save k x); [apply extends_resume_save|apply IH].
Qed.

Lemma extends_step w e : extends w (step w e).
Proof.
  unfold step. transitivity (handle e w); [apply extends_handle|apply extends_drainMicrotasks].
Qed.

#[local] Transparent extends.

(** *** Tokens come from chunks *)

#[local] Instance tokenless_preorder : PreOrder tokenless.
Proof.
  split.
  - intros w. split; [reflexivity|]. exists []. split; [now rewrite app_nil_r|constructor].
  - intros a b c (K1 & l1 & E1 & F1) (K2 & l2 & E2 & F2). split; [congruence|].
    exists (l1 ++ l2). split; [now rewrite E2, E1, <- app_assoc|].
    intros K. apply Forall_app. split; [now apply F1|apply F2; congruence].
Qed.

Lemma tokenless_same w w' :
  OPENAI_API_KEY (heap w') = OPENAI_API_KEY (heap w) -> wire (sock w') = wire (sock w) ->
  tokenless w w'.
Proof.
  intros K E. split; [exact K|]. exists []. split; [now rewrite app_nil_r|constructor].
Qed.

Lemma tokenless_assign {T} (set : T -> Vars -> Vars) v w : tokenless w (assign set v w).
Proof. now apply tokenless_same. Qed.

Lemma tokenless_store {T} (set : T -> Heap -> Heap) v w :
  (forall x, OPENAI_API_KEY (set v x) = OPENAI_API_KEY x) -> tokenless w (store set v w).
Proof. intros H. apply tokenless_same; [apply H|reflexivity]. Qed.

Lemma tokenless_set_readyState r w : tokenless w (set_readyState r w).
Proof. now apply tokenless_same. Qed.

Lemma wire_sendMessage f w :
  wire (sock (sendMessage f w))
  = wire (sock w) ++ (if decide (readyState (sock w) = OPEN) then [f] else []).
Proof.
  unfold sendMessage, ws_send. destruct (decide _) as [E|E]; [|now rewrite app_nil_r].
  now rewrite E.
Qed.

Lemma key_sendMessage f w :
  OPENAI_API_KEY (heap (sendMessage f w)) = OPENAI_API_KEY (heap w).
Proof.
  unfold sendMessage, ws_send. destruct (decide _); [|reflexivity].
  now destruct (readyState (sock w)).
Qed.

Lemma tokenless_sendMessage f w : isToken f = false -> tokenless w (sendMessage f w).
Proof.
  intros F. split; [apply key_sendMessage|]. eexists. split; [apply wire_sendMessage|].
  intros _. destruct (decide _); repeat constructor. exact F.
Qed.

(** Without a key the relation says nothing about the frames. *)
Lemma tokenless_sendMessage_nokey f w :
  OPENAI_API_KEY (heap w) = false -> tokenless w (sendMessage f w).
Proof.
  intros K. split; [apply key_sendMessage|]. eexists. split; [apply wire_sendMessage|].
  congruence.
Qed.

Lemma tokenless_alloc w : tokenless w (alloc w).2.
Proof. now apply tokenless_same. Qed.
Lemma tokenless_setInterval t w : tokenless w (setInterval t w).2.
Proof. now apply tokenless_same. Qed.
Lemma tokenless_createTTSStream t w : tokenless w (createTTSStream t w).2.
Proof. now apply tokenless_same. Qed.

Create HintDb tokenless.
#[local] Hint Resolve tokenless_assign tokenless_set_readyState tokenless_alloc
  tokenless_setInterval tokenless_createTTSStream : tokenless.
#[local] Hint Extern 1 (tokenless _ (store _ _ _)) =>
  apply tokenless_store; intros ?; reflexivity : tokenless.
#[local] Hint Extern 1 (tokenless _ (sendMessage _ _)) =>
  apply tokenless_sendMessage; reflexivity : tokenless.

Ltac tokenless_prim := solve [eauto 3 with tokenless].

#[local] Opaque tokenless.

Lemma tokenless_resume_save k w : tokenless w (resume_save k w).
Proof. unfold resume_save. peel tokenless_prim. Qed.
Lemma tokenless_llm_cancel h w : tokenless w (llm_cancel h w).
Proof. unfold llm_cancel. peel tokenless_prim. Qed.
Lemma tokenless_tts_cancel h w : tokenless w (tts_cancel h w).
Proof. unfold tts_cancel. peel tokenless_prim. Qed.
Lemma tokenless_await_save k w : tokenless w (await_save k w).
Proof. unfold await_save. peel tokenless_prim. Qed.
#[local] Hint Resolve tokenless_resume_save tokenless_llm_cancel tokenless_tts_cancel
  tokenless_await_save : tokenless.
Lemma tokenless_onComplete h t w : tokenless w (onComplete h t w).
Proof. unfold onComplete. peel tokenless_prim. Qed.
Lemma tokenless_onError h w : tokenless w (onError h w).
Proof. unfold onError. peel tokenless_prim. Qed.
#[local] Hint Resolve tokenless_onComplete tokenless_onError : tokenless.
Lemma tokenless_onToken_nokey h t w :
  OPENAI_API_KEY (heap w) = false -> tokenless w (onToken h t w).
Proof.
  intros K. unfold onToken.
  destruct (llmStreams (heap w) !! h).
  - etransitivity; [|apply tokenless_sendMessage_nokey; exact K]. tokenless_prim.
  - now apply tokenless_sendMessage_nokey.
Qed.

Lemma tokenless_createOpenAIStream o t w : tokenless w (createOpenAIStream o t w).2.
Proof.
  unfold createOpenAIStream. pose proof (tokenless_alloc w) as H.
  destruct (alloc w) as [h x]. cbn [snd] in *. cbv zeta.
  destruct (OPENAI_API_KEY (heap x)) eqn:K; cbn [snd].
  - peel tokenless_prim.
  - transitivity x; [exact H|].
    etransitivity; [|apply tokenless_onComplete].
    etransitivity; [|apply tokenless_onToken_nokey; exact K].
    tokenless_prim.
Qed.
#[local] Hint Resolve tokenless_createOpenAIStream : tokenless.
Lemma tokenless_cancelInFlight w : tokenless w (cancelInFlight w).
Proof. unfold cancelInFlight. peel tokenless_prim. Qed.
#[local] Hint Resolve tokenless_cancelInFlight : tokenless.
Lemma tokenless_processUserMessage u c w : tokenless w (processUserMessage u c w).
Proof. unfold processUserMessage. peel tokenless_prim. Qed.
#[local] Hint Resolve tokenless_processUserMessage : tokenless.
Lemma tokenless_checkForFinalTranscript t w : tokenless w (checkForFinalTranscript t w).
Proof. unfold checkForFinalTranscript. peel tokenless_prim. Qed.
Lemma tokenless_clearInterval t w : tokenless w (clearInterval t w).
Proof. unfold clearInterval. peel tokenless_prim. Qed.
#[local] Hint Resolve tokenless_checkForFinalTranscript tokenless_clearInterval : tokenless.
Lemma tokenless_bufferTick id now t e l f w : tokenless w (bufferTick id now t e l f w).
Proof. unfold bufferTick. peel tokenless_prim. Qed.
Lemma tokenless_silenceTick id now c w : tokenless w (silenceTick id now c w).
Proof. unfold silenceTick. peel tokenless_prim. Qed.
Lemma tokenless_clearSilenceDetection w : tokenless w (clearSilenceDetection w).
Proof. unfold clearSilenceDetection. peel tokenless_prim. Qed.
#[local] Hint Resolve tokenless_bufferTick tokenless_silenceTick tokenless_clearSilenceDetection : tokenless.
Lemma tokenless_startSilenceDetection w : tokenless w (startSilenceDetection w).
Proof. unfold startSilenceDetection. peel tokenless_prim. Qed.
Lemma tokenless_onTranscript t f n w : tokenless w (onTranscript t f n w).
Proof. unfold onTranscript. peel tokenless_prim. Qed.
#[local] Hint Resolve tokenless_startSilenceDetection tokenless_onTranscript : tokenless.
Lemma tokenless_startDeepgramStream w : tokenless w (startDeepgramStream w).
Proof. unfold startDeepgramStream. peel tokenless_prim. Qed.
Lemma tokenless_finalizeTranscript w : tokenless w (finalizeTranscript w).
Proof. unfold finalizeTranscript. peel tokenless_prim. Qed.
Lemma tokenless_dg_close h w : tokenless w (dg_close h w).
Proof. unfold dg_close. peel tokenless_prim. Qed.
Lemma tokenless_dg_write h a w : tokenless w (dg_write h a w).
Proof. unfold dg_write. peel tokenless_prim. Qed.
#[local] Hint Resolve tokenless_startDeepgramStream tokenless_finalizeTranscript tokenless_dg_close
  tokenless_dg_write : tokenless.
Lemma tokenless_stopDeepgramStream w : tokenless w (stopDeepgramStream w).
Proof. unfold stopDeepgramStream. peel tokenless_prim. Qed.
#[local] Hint Resolve tokenless_stopDeepgramStream : tokenless.
Lemma tokenless_dispatch m now w : tokenless w (dispatch m now w).
Proof. unfold dispatch. peel tokenless_prim. Qed.
#[local] Hint Resolve tokenless_dispatch : tokenless.
Lemma tokenless_onMessage d now w : tokenless w (onMessage d now w).
Proof. unfold onMessage. peel tokenless_prim. Qed.
Lemma tokenless_onClose w : tokenless w (onClose w).
Proof. unfold onClose. peel tokenless_prim. Qed.
#[local] Hint Resolve tokenless_onMessage tokenless_onClose : tokenless.


Lemma tokenless_handle e w : isChunk e = false -> tokenless w (handle e w).
Proof.
  destruct e; intros C; try discriminate C; unfold handle, running; peel tokenless_prim.
Qed.

Lemma tokenless_drainMicrotasks w : tokenless w (drainMicrotasks w).
Proof.
  unfold drainMicrotasks.
  transitivity (store set_microtasks [] w); [now apply tokenless_same|].
  generalize (store set_microtasks [] w) as x. generalize (microtasks (heap w)) as l.
  induction l as [|k l IH]; intros x; [reflexivity|].
  cbn [foldl]. transitivity (resume_save k x); [apply tokenless_resume_save|apply IH].
Qed.

Lemma tokenless_step w e : isChunk e = false -> tokenless w (step w e).
Proof.
  intros C. unfold step.
  transitivity (handle e w); [now apply tokenless_handle|apply tokenless_drainMicrotasks].
Qed.

Lemma tokenless_run w es : forallb (fun e => negb (isChunk e)) es = true -> tokenless w (run w es).
Proof.
  revert w. induction es as [|e es IH]; intros w H; [reflexivity|].
  cbn [forallb] in H. apply andb_prop in H as [He Hes]. apply negb_true_iff in He.
  unfold run. cbn [foldl]. transitivity (step w e); [now apply tokenless_step|now apply IH].
Qed.

#[local] Transparent tokenless.

(** *** Single steps *)

Lemma drain_nil w : microtasks (heap w) = [] -> drainMicrotasks w = store set_microtasks [] w.
Proof. intros H. unfold drainMicrotasks. now rewrite H. Qed.

Lemma sendMessage_open f w :
  readyState (sock w) = OPEN ->
  sendMessage f w
  = {| vars := vars w; heap := heap w;
       sock := {| readyState := OPEN; wire := wire (sock w) ++ [f]; faults := faults (sock w) |} |}.
Proof.
  intros H. unfold sendMessage, ws_send. rewrite H.
  destruct (decide (OPEN = OPEN)); [reflexivity|congruence].
Qed.

Lemma sendMessage_vars f w : vars (sendMessage f w) = vars w.
Proof.
  unfold sendMessage, ws_send. destruct (decide _); [|reflexivity].
  now destruct (readyState (sock w)).
Qed.
Lemma sendMessage_heap f w : heap (sendMessage f w) = heap w.
Proof.
  unfold sendMessage, ws_send. destruct (decide _); [|reflexivity].
  now destruct (readyState (sock w)).
Qed.
Lemma sendMessage_readyState f w : readyState (sock (sendMessage f w)) = readyState (sock w).
Proof.
  unfold sendMessage, ws_send. destruct (decide _) as [E|]; [|reflexivity].
  now rewrite E.
Qed.

Lemma tts_cancel_llm h w : llmStreams (heap (tts_cancel h w)) = llmStreams (heap w).
Proof. unfold tts_cancel. now destruct (ttsStreams (heap w) !! h). Qed.
Lemma tts_cancel_microtasks h w : microtasks (heap (tts_cancel h w)) = microtasks (heap w).
Proof. unfold tts_cancel. now destruct (ttsStreams (heap w) !! h). Qed.
Lemma tts_cancel_sock h w : sock (tts_cancel h w) = sock w.
Proof. unfold tts_cancel. now destruct (ttsStreams (heap w) !! h). Qed.

Lemma interrupt_world w h st now :
  microtasks (heap w) = [] ->
  currentLLMStream (vars w) = Some h ->
  llmStreams (heap w) !! h = Some st ->
  controller st = Some false ->
  let w' := step w (frameAt now interrupt) in
  currentLLMStream (vars w') = None
  /\ currentTTSStream (vars w') = None
  /\ llmStreams (heap w') !! h = Some (set_controller (Some true) st)
  /\ microtasks (heap w') = []
  /\ readyState (sock w') = readyState (sock w).
Proof.
  intros M C L K. cbv zeta. unfold step, frameAt, handle, onMessage. cbn [browser_session_id truthy andb msg_type].
  unfold dispatch. rewrite C.
  set (w1 := llm_cancel h w).
  assert (llmStreams (heap w1) !! h = Some (set_controller (Some true) st)
          /\ microtasks (heap w1) = [] /\ sock w1 = sock w) as (L1 & M1 & S1).
  { unfold w1, llm_cancel. rewrite L, K. cbn. now rewrite lookup_insert_eq. }
  clearbody w1.
  set (w2 := match currentTTSStream (vars w1) with Some h0 => tts_cancel h0 w1 | None => w1 end).
  assert (llmStreams (heap w2) !! h = Some (set_controller (Some true) st)
          /\ microtasks (heap w2) = [] /\ sock w2 = sock w) as (L2 & M2 & S2).
  { unfold w2. destruct (currentTTSStream (vars w1)); [|easy].
    now rewrite tts_cancel_llm, tts_cancel_microtasks, tts_cancel_sock. }
  clearbody w2.
  rewrite drain_nil by (now rewrite sendMessage_heap).
  cbn [vars heap sock store]. rewrite sendMessage_vars, sendMessage_heap, sendMessage_readyState.
  cbn. rewrite S2. easy.
Qed.

(** The transcript callback stores what [accumulate] computes. *)
Lemma onTranscript_pending text isFinal now w :
  pendingTranscript (vars (onTranscript text isFinal now w))
  = accumulate (pendingTranscript (vars w)) text.
Proof.
  unfold onTranscript, accumulate.
  destruct (truthy (Some text) && (0 <? String.length (trim text))); [|reflexivity].
  cbv zeta. repeat case_match; rewrite ?sendMessage_vars; reflexivity.
Qed.

(** "Cancel any in-flight LLM/TTS streams": the completion whose handle the
    closure holds is aborted and the handle dropped. *)
Lemma cancelInFlight_aborts_held w h st b :
  currentLLMStream (vars w) = Some h ->
  llmStreams (heap w) !! h = Some st ->
  controller st = Some b ->
  currentLLMStream (vars (cancelInFlight w)) = None
  /\ (controller <$> llmStreams (heap (cancelInFlight w)) !! h) = Some (Some true).
Proof.
  intros C L K. unfold cancelInFlight. rewrite C.
  set (w1 := assign set_currentLLMStream None (llm_cancel h w)).
  assert (currentLLMStream (vars w1) = None
          /\ llmStreams (heap w1) !! h = Some (set_controller (Some true) st)) as [C1 L1].
  { unfold w1, llm_cancel. rewrite L, K. cbn. now rewrite lookup_insert_eq. }
  clearbody w1.
  destruct (currentTTSStream (vars w1)); cbn; rewrite ?tts_cancel_llm, L1;
    (split; [|reflexivity]); [|exact C1].
  unfold tts_cancel. now destruct (ttsStreams (heap w1) !! n).
Qed.

(** A chunk delivered for a running stream is forwarded as a token,
    whether or not the stream's request has been aborted. *)
Lemma chunk_is_forwarded w h st d :
  microtasks (heap w) = [] ->
  llmStreams (heap w) !! h = Some st ->
  settled st = false ->
  d <> EmptyString ->
  readyState (sock w) = OPEN ->
  emitted w (llm_chunk h d) = [agent_text d false].
Proof.
  intros M L S D O. unfold emitted, step, handle, running. rewrite L, S.
  destruct d as [|c d]; [congruence|]. cbn [truthy].
  unfold onToken. cbn [heap store llmStreams set_llmStreams]. rewrite lookup_insert_eq.
  rewrite sendMessage_open by exact O.
  rewrite drain_nil by exact M. cbn [sock store wire].
  now rewrite drop_app_length.
Qed.

(** *** Steps that submit no turn *)

#[local] Instance noTurn_preorder : PreOrder noTurn.
Proof.
  split.
  - intros w. exists []. split; [now rewrite app_nil_r|reflexivity].
  - intros a b c (l1 & E1 & F1) (l2 & E2 & F2). exists (l1 ++ l2). split.
    + now rewrite E2, E1, <- app_assoc.
    + unfold userTexts in *. now rewrite omap_app, F1, F2.
Qed.

Lemma noTurn_same w w' :
  conversationHistory (vars w') = conversationHistory (vars w) -> noTurn w w'.
Proof. intros E. exists []. split; [now rewrite app_nil_r|reflexivity]. Qed.

Lemma noTurn_assign {T} (set : T -> Vars -> Vars) v w :
  (forall x, conversationHistory (set v x) = conversationHistory x) ->
  noTurn w (assign set v w).
Proof. intros H. apply noTurn_same. apply H. Qed.

Lemma noTurn_store {T} (set : T -> Heap -> Heap) v w : noTurn w (store set v w).
Proof. now apply noTurn_same. Qed.

Lemma noTurn_push_assistant t w :
  noTurn w (assign set_conversationHistory (conversationHistory (vars w) ++ [(assistant, t)]) w).
Proof. exists [(assistant, t)]. split; reflexivity. Qed.

Lemma noTurn_sendMessage f w : noTurn w (sendMessage f w).
Proof. apply noTurn_same. now rewrite sendMessage_vars. Qed.
Lemma noTurn_set_readyState r w : noTurn w (set_readyState r w).
Proof. now apply noTurn_same. Qed.
Lemma noTurn_alloc w : noTurn w (alloc w).2.
Proof. apply noTurn_store. Qed.
Lemma noTurn_createTTSStream t w : noTurn w (createTTSStream t w).2.
Proof. now apply noTurn_same. Qed.

Create HintDb noTurn.
#[local] Hint Resolve noTurn_push_assistant noTurn_store noTurn_sendMessage
  noTurn_set_readyState noTurn_alloc noTurn_createTTSStream : noTurn.
#[local] Hint Extern 1 (noTurn _ (assign _ _ _)) =>
  apply noTurn_assign; intros ?; reflexivity : noTurn.

Ltac noTurn_prim := solve [eauto 3 with noTurn].

#[local] Opaque noTurn.

Lemma noTurn_resume_save k w : noTurn w (resume_save k w).
Proof. unfold resume_save. peel noTurn_prim. Qed.
Lemma noTurn_llm_cancel h w : noTurn w (llm_cancel h w).
Proof. unfold llm_cancel. peel noTurn_prim. Qed.
Lemma noTurn_tts_cancel h w : noTurn w (tts_cancel h w).
Proof. unfold tts_cancel. peel noTurn_prim. Qed.
Lemma noTurn_await_save k w : noTurn w (await_save k w).
Proof. unfold await_save. peel noTurn_prim. Qed.
#[local] Hint Resolve noTurn_resume_save noTurn_llm_cancel noTurn_tts_cancel
  noTurn_await_save : noTurn.
Lemma noTurn_onToken h t w : noTurn w (onToken h t w).
Proof. unfold onToken. peel noTurn_prim. Qed.
Lemma noTurn_onComplete h t w : noTurn w (onComplete h t w).
Proof. unfold onComplete. peel noTurn_prim. Qed.
#[local] Hint Resolve noTurn_onToken noTurn_onComplete : noTurn.
Lemma noTurn_createOpenAIStream o t w : noTurn w (createOpenAIStream o t w).2.
Proof.
  unfold createOpenAIStream. pose proof (noTurn_alloc w) as H.
  destruct (alloc w) as [h x]. cbn [snd] in *. cbv zeta.
  destruct (OPENAI_API_KEY (heap x)); cbn [snd]; peel noTurn_prim.
Qed.
Lemma noTurn_cancelInFlight w : noTurn w (cancelInFlight w).
Proof. unfold cancelInFlight. peel noTurn_prim. Qed.
Lemma noTurn_clearInterval t w : noTurn w (clearInterval t w).
Proof. unfold clearInterval. peel noTurn_prim. Qed.
#[local] Hint Resolve noTurn_createOpenAIStream noTurn_cancelInFlight noTurn_clearInterval
  : noTurn.
Lemma noTurn_clearSilenceDetection w : noTurn w (clearSilenceDetection w).
Proof. unfold clearSilenceDetection. peel noTurn_prim. Qed.
Lemma noTurn_dg_close h w : noTurn w (dg_close h w).
Proof. unfold dg_close. peel noTurn_prim. Qed.
#[local] Hint Resolve noTurn_clearSilenceDetection noTurn_dg_close : noTurn.
Lemma noTurn_onClose w : noTurn w (onClose w).
Proof. unfold onClose. peel noTurn_prim. Qed.

Lemma noTurn_drainMicrotasks w : noTurn w (drainMicrotasks w).
Proof.
  unfold drainMicrotasks. transitivity (store set_microtasks [] w); [apply noTurn_store|].
  generalize (store set_microtasks [] w) as x. generalize (microtasks (heap w)) as l.
  induction l as [|k l IH]; intros x; [reflexivity|].
  cbn [foldl]. transitivity (resume_save k x); [apply noTurn_resume_save|apply IH].
Qed.

#[local] Transparent noTurn.

Lemma hasPending_guard w :
  hasPending w = true ->
  negb (truthy (pendingTranscript (vars w)))
  || (String.length (trim (pendingText (pendingTranscript (vars w)))) =? 0) = false.
Proof.
  unfold hasPending. intros H. apply andb_prop in H as [H1 H2]. rewrite H1. cbn.
  apply Nat.ltb_lt in H2. apply Nat.eqb_neq. lia.
Qed.

(** [finalizeTranscript] on a pending transcript that is not blank appends
    the user turn; what follows it in the history is no user turn. *)
Lemma finalizeTranscript_turn w :
  hasPending w = true -> lastFinalizedTranscript (vars w) = None ->
  exists l,
    conversationHistory (vars (finalizeTranscript w))
    = conversationHistory (vars w)
      ++ (user, trim (pendingText (pendingTranscript (vars w)))) :: l
    /\ userTexts l = [].
Proof.
  intros P F. unfold finalizeTranscript.
  rewrite (hasPending_guard w P), F.
  set (t := trim (pendingText (pendingTranscript (vars w)))).
  replace (bool_decide (None = Some t)) with false by reflexivity. cbv zeta.
  set (w0 := sendMessage (status processing None)
               (sendMessage (transcript t true)
                  (assign set_lastFinalizedTranscript (Some t) w))).
  assert (conversationHistory (vars w0) = conversationHistory (vars w)) as E0
    by (unfold w0; now rewrite !sendMessage_vars).
  clearbody w0.
  set (x := assign set_conversationHistory (conversationHistory (vars w0) ++ [(user, t)]) w0).
  assert (conversationHistory (vars x) = conversationHistory (vars w) ++ [(user, t)]) as Ex
    by (unfold x; cbn; now rewrite E0).
  clearbody x.
  match goal with |- exists l, conversationHistory (vars ?y) = _ /\ _ =>
    assert (noTurn x y) as (l & El & Fl) by peel noTurn_prim
  end.
  exists l. split; [|exact Fl]. rewrite El, Ex, <- app_assoc. reflexivity.
Qed.

Lemma stopDeepgramStream_turn w :
  hasPending w = true -> lastFinalizedTranscript (vars w) = None ->
  exists l,
    conversationHistory (vars (stopDeepgramStream w))
    = conversationHistory (vars w)
      ++ (user, trim (pendingText (pendingTranscript (vars w)))) :: l
    /\ userTexts l = [].
Proof.
  intros P F. destruct (finalizeTranscript_turn w P F) as (l & El & Fl).
  assert (noTurn (finalizeTranscript w) (stopDeepgramStream w)) as (l' & El' & Fl').
  { unfold stopDeepgramStream. rewrite P. peel noTurn_prim. }
  exists (l ++ l'). split.
  - rewrite El', El, <- app_assoc. reflexivity.
  - unfold userTexts in *. now rewrite omap_app, Fl, Fl'.
Qed.

Lemma userTexts_cons_user t l : userTexts ((user, t) :: l) = t :: userTexts l.
Proof. reflexivity. Qed.

Lemma userTexts_app l l' : userTexts (l ++ l') = userTexts l ++ userTexts l'.
Proof. apply omap_app. Qed.

Lemma newTurns_intro w e l :
  conversationHistory (vars (step w e)) = conversationHistory (vars w) ++ l ->
  newTurns w e = userTexts l.
Proof. intros E. unfold newTurns. now rewrite E, drop_app_length. Qed.

(** [stop_recording] in a state with a pending transcript and no remembered
    finalized transcript. *)
Lemma stop_recording_turn w now :
  hasPending w = true -> lastFinalizedTranscript (vars w) = None ->
  newTurns w (frameAt now stop_recording)
  = [trim (pendingText (pendingTranscript (vars w)))].
Proof.
  intros P F.
  set (w1 := assign set_isRecording false w).
  destruct (stopDeepgramStream_turn w1 P F) as (l & El & Fl).
  assert (noTurn (stopDeepgramStream w1) (step w (frameAt now stop_recording)))
    as (l' & El' & Fl').
  { unfold step, frameAt, handle, onMessage.
    cbn [browser_session_id truthy andb msg_type dispatch]. fold w1.
    etransitivity; [|apply noTurn_drainMicrotasks]. apply noTurn_sendMessage. }
  rewrite (newTurns_intro w _
             ((user, trim (pendingText (pendingTranscript (vars w)))) :: l ++ l')).
  - now rewrite userTexts_cons_user, userTexts_app, Fl, Fl'.
  - rewrite El', El. cbn [vars assign]. now rewrite <- app_assoc.
Qed.

(** *** What the closure variables keep between events *)

#[local] Instance keepsVars_preorder : PreOrder keepsVars.
Proof.
  split.
  - intros w. split; intros H; exact H.
  - intros a b c [P1 F1] [P2 F2]. split; intros H; [apply P2, P1, H|apply F2, F1, H].
Qed.

Lemma keepsVars_same w w' :
  pendingTranscript (vars w') = pendingTranscript (vars w) ->
  lastFinalizedTranscript (vars w') = lastFinalizedTranscript (vars w) ->
  keepsVars w w'.
Proof. intros P F. split; intros H; congruence. Qed.

Lemma keepsVars_assign {T} (set : T -> Vars -> Vars) v w :
  (forall x, pendingTranscript (set v x) = pendingTranscript x) ->
  (forall x, lastFinalizedTranscript (set v x) = lastFinalizedTranscript x) ->
  keepsVars w (assign set v w).
Proof. intros P F. apply keepsVars_same; [apply P|apply F]. Qed.

Lemma keepsVars_clear_pending w : keepsVars w (assign set_pendingTranscript None w).
Proof. split; intros H; [exact I|exact H]. Qed.

Lemma keepsVars_merge t w :
  keepsVars w
    (assign set_pendingTranscript
       (Some (mergeTranscript (pendingTranscript (vars w)) (trim t))) w).
Proof.
  split; intros H; [|exact H].
  apply AccumulatorFacts.mergeTranscript_trimmed; [exact H|apply trim_trim].
Qed.

Lemma keepsVars_clear_finalized w :
  keepsVars w (assign set_lastFinalizedTranscript None w).
Proof. split; intros H; [exact H|reflexivity]. Qed.

Lemma keepsVars_store {T} (set : T -> Heap -> Heap) v w : keepsVars w (store set v w).
Proof. now apply keepsVars_same. Qed.
Lemma keepsVars_sendMessage f w : keepsVars w (sendMessage f w).
Proof. apply keepsVars_same; now rewrite sendMessage_vars. Qed.
Lemma keepsVars_set_readyState r w : keepsVars w (set_readyState r w).
Proof. now apply keepsVars_same. Qed.
Lemma keepsVars_alloc w : keepsVars w (alloc w).2.
Proof. apply keepsVars_store. Qed.
Lemma keepsVars_setInterval t w : keepsVars w (setInterval t w).2.
Proof. now apply keepsVars_same. Qed.
Lemma keepsVars_createTTSStream t w : keepsVars w (createTTSStream t w).2.
Proof. now apply keepsVars_same. Qed.

Create HintDb keepsVars.
#[local] Hint Resolve keepsVars_clear_pending keepsVars_merge keepsVars_clear_finalized
  keepsVars_store keepsVars_sendMessage keepsVars_set_readyState keepsVars_alloc
  keepsVars_setInterval keepsVars_createTTSStream : keepsVars.
#[local] Hint Extern 2 (keepsVars _ (assign _ _ _)) =>
  apply keepsVars_assign; intros ?; reflexivity : keepsVars.

Lemma keepsVars_stopDeepgramStream w : keepsVars w (stopDeepgramStream w).
Proof. split; intros _; reflexivity. Qed.

Ltac keepsVars_prim := solve [eauto 3 with keepsVars].

#[local] Opaque keepsVars.

Lemma keepsVars_resume_save k w : keepsVars w (resume_save k w).
Proof. unfold resume_save. peel keepsVars_prim. Qed.
Lemma keepsVars_llm_cancel h w : keepsVars w (llm_cancel h w).
Proof. unfold llm_cancel. peel keepsVars_prim. Qed.
Lemma keepsVars_tts_cancel h w : keepsVars w (tts_cancel h w).
Proof. unfold tts_cancel. peel keepsVars_prim. Qed.
Lemma keepsVars_await_save k w : keepsVars w (await_save k w).
Proof. unfold await_save. peel keepsVars_prim. Qed.
#[local] Hint Resolve keepsVars_resume_save keepsVars_llm_cancel keepsVars_tts_cancel
  keepsVars_await_save : keepsVars.
Lemma keepsVars_onToken h t w : keepsVars w (onToken h t w).
Proof. unfold onToken. peel keepsVars_prim. Qed.
Lemma keepsVars_onComplete h t w : keepsVars w (onComplete h t w).
Proof. unfold onComplete. peel keepsVars_prim. Qed.
Lemma keepsVars_onError h w : keepsVars w (onError h w).
Proof. unfold onError. peel keepsVars_prim. Qed.
#[local] Hint Resolve keepsVars_onToken keepsVars_onComplete keepsVars_onError : keepsVars.
Lemma keepsVars_createOpenAIStream o t w : keepsVars w (createOpenAIStream o t w).2.
Proof.
  unfold createOpenAIStream. pose proof (keepsVars_alloc w) as H.
  destruct (alloc w) as [h x]. cbn [snd] in *. cbv zeta.
  destruct (OPENAI_API_KEY (heap x)); cbn [snd]; peel keepsVars_prim.
Qed.
#[local] Hint Resolve keepsVars_createOpenAIStream : keepsVars.
Lemma keepsVars_cancelInFlight w : keepsVars w (cancelInFlight w).
Proof. unfold cancelInFlight. peel keepsVars_prim. Qed.
#[local] Hint Resolve keepsVars_cancelInFlight : keepsVars.
Lemma keepsVars_processUserMessage u c w : keepsVars w (processUserMessage u c w).
Proof. unfold processUserMessage. peel keepsVars_prim. Qed.
#[local] Hint Resolve keepsVars_processUserMessage : keepsVars.
Lemma keepsVars_checkForFinalTranscript t w : keepsVars w (checkForFinalTranscript t w).
Proof. unfold checkForFinalTranscript. peel keepsVars_prim. Qed.
Lemma keepsVars_clearInterval t w : keepsVars w (clearInterval t w).
Proof. unfold clearInterval. peel keepsVars_prim. Qed.
#[local] Hint Resolve keepsVars_checkForFinalTranscript keepsVars_clearInterval : keepsVars.
Lemma keepsVars_bufferTick id now t e l f w : keepsVars w (bufferTick id now t e l f w).
Proof. unfold bufferTick. peel keepsVars_prim. Qed.
Lemma keepsVars_silenceTick id now c w : keepsVars w (silenceTick id now c w).
Proof. unfold silenceTick. peel keepsVars_prim. Qed.
Lemma keepsVars_clearSilenceDetection w : keepsVars w (clearSilenceDetection w).
Proof. unfold clearSilenceDetection. peel keepsVars_prim. Qed.
#[local] Hint Resolve keepsVars_bufferTick keepsVars_silenceTick keepsVars_clearSilenceDetection : keepsVars.
Lemma keepsVars_startSilenceDetection w : keepsVars w (startSilenceDetection w).
Proof. unfold startSilenceDetection. peel keepsVars_prim. Qed.
Lemma keepsVars_onTranscript t f n w : keepsVars w (onTranscript t f n w).
Proof. unfold onTranscript. peel keepsVars_prim. Qed.
#[local] Hint Resolve keepsVars_startSilenceDetection keepsVars_onTranscript : keepsVars.
Lemma keepsVars_startDeepgramStream w : keepsVars w (startDeepgramStream w).
Proof. unfold startDeepgramStream. peel keepsVars_prim. Qed.
Lemma keepsVars_dg_close h w : keepsVars w (dg_close h w).
Proof. unfold dg_close. peel keepsVars_prim. Qed.
Lemma keepsVars_dg_write h a w : keepsVars w (dg_write h a w).
Proof. unfold dg_write. peel keepsVars_prim. Qed.
#[local] Hint Resolve keepsVars_startDeepgramStream keepsVars_dg_close
  keepsVars_dg_write : keepsVars.
#[local] Hint Resolve keepsVars_stopDeepgramStream : keepsVars.
Lemma keepsVars_dispatch m now w : keepsVars w (dispatch m now w).
Proof. unfold dispatch. peel keepsVars_prim. Qed.
#[local] Hint Resolve keepsVars_dispatch : keepsVars.
Lemma keepsVars_onMessage d now w : keepsVars w (onMessage d now w).
Proof. unfold onMessage. peel keepsVars_prim. Qed.
Lemma keepsVars_onClose w : keepsVars w (onClose w).
Proof. unfold onClose. peel keepsVars_prim. Qed.
#[local] Hint Resolve keepsVars_onMessage keepsVars_onClose : keepsVars.


Lemma keepsVars_handle e w : keepsVars w (handle e w).
Proof. destruct e; unfold handle, running; peel keepsVars_prim. Qed.

Lemma keepsVars_drainMicrotasks w : keepsVars w (drainMicrotasks w).
Proof.
  unfold drainMicrotasks. transitivity (store set_microtasks [] w); [apply keepsVars_store|].
  generalize (store set_microtasks [] w) as x. generalize (microtasks (heap w)) as l.
  induction l as [|k l IH]; intros x; [reflexivity|].
  cbn [foldl]. transitivity (resume_save k x); [apply keepsVars_resume_save|apply IH].
Qed.

Lemma keepsVars_step w e : keepsVars w (step w e).
Proof.
  unfold step.
  transitivity (handle e w); [apply keepsVars_handle|apply keepsVars_drainMicrotasks].
Qed.

#[local] Transparent keepsVars.

(** The microtask queue is empty between events. *)
Lemma resume_save_microtasks k w :
  microtasks (heap (resume_save k w)) = microtasks (heap w).
Proof.
  destruct k as [[c|] u r|[c|]]; cbn [resume_save]; try destruct c;
    cbn; now rewrite ?sendMessage_heap.
Qed.

Lemma step_microtasks w e : microtasks (heap (step w e)) = [].
Proof.
  unfold step, drainMicrotasks.
  generalize (microtasks (heap (handle e w))) as l.
  assert (microtasks (heap (store set_microtasks [] (handle e w))) = []) as H by reflexivity.
  revert H. generalize (store set_microtasks [] (handle e w)) as x.
  intros x H l. revert x H. induction l as [|k l IH]; intros x H; [exact H|].
  cbn [foldl]. apply IH. now rewrite resume_save_microtasks.
Qed.

(** Every state the closure reaches from a new connection. *)
Lemma reachable_ok (apiKey : bool) (es : list Event) :
  let w := run (connect apiKey) es in
  varsOk (vars w) /\ microtasks (heap w) = [].
Proof.
  cbv zeta.
  assert (forall w, varsOk (vars w) /\ microtasks (heap w) = [] ->
                    varsOk (vars (run w es)) /\ microtasks (heap (run w es)) = []) as H.
  { induction es as [|e es IH]; intros w Hw; [exact Hw|].
    unfold run. cbn [foldl]. apply IH. split; [|apply step_microtasks].
    destruct Hw as [[P F] _]. destruct (keepsVars_step w e) as [P' F'].
    split; [now apply P'|now apply F']. }
  apply H. split; [split; reflexivity|reflexivity].
Qed.

(** *** Whole runs *)

Lemma quiet_run w es : quiet w (run w es).
Proof.
  revert w. induction es as [|e es IH]; intros w; [reflexivity|].
  unfold run. cbn [foldl]. transitivity (step w e); [apply quiet_step|apply IH].
Qed.



(** *** The claims *)

(** C10.  Every frame goes out through [sendMessage], which writes only to
    an open socket: over any sequence of events, from any state, no
    [ws.send] is ever attempted on a socket that is not open, and once the
    socket has left the open state nothing more is written to the wire,
    whichever callbacks (timer ticks, late tokens, completions, synthesis
    chunks, resolved promises) still run. *)
Theorem sends_are_guarded (w : World) (es : list Event) :
  faults (sock (run w es)) = faults (sock w)
  /\ (readyState (sock w) <> OPEN -> wire (sock (run w es)) = wire (sock w)).
Proof.
  destruct (quiet_run w es) as [F H]. split; [exact F|].
  intros C. now destruct (H C).
Qed.

Lemma sends_are_guarded_witness :
  readyState (sock disconnected) <> OPEN
  /\ wire (sock (run disconnected (buffer_ticks 15 ++ [llm_chunk 3 "Hi"; llm_end 3])))
     = wire (sock disconnected).
Proof.
  assert (readyState (sock disconnected) <> OPEN) as C by (vm_compute; discriminate).
  split; [exact C|].
  exact (proj2 (sends_are_guarded disconnected
                  (buffer_ticks 15 ++ [llm_chunk 3 "Hi"; llm_end 3])) C).
Defined.

(** C1, as the code behaves.  The caller confirms, the model answers with
    exactly the booking object: both chunks of the raw JSON go out as
    [agent_text] tokens, no placeholder message is sent, and the completed
    turn repeats the JSON; the closure has no booking collaborator to hand a
    payload to. *)
Theorem booking_json_is_streamed :
  wire (sock (run (connect true) booking_trace))
  = [ status connected None; status thinking None; agent_text "" true;
      agent_text bookingHead false; agent_text bookingTail false;
      conversation_turn chat "Yes, book the appointment" bookingJSON;
      status idle None ]
  /\ startsWith (trim bookingJSON) "{" = true
  /\ includes bookingJSON (str "book_appointment") = true.
Proof. vm_compute. repeat split. Qed.

(** C2, as the code behaves.  When the socket closes while the buffer
    interval of the endpointer is running, the close handler clears the
    100 ms silence interval but the buffer interval stays alive; fifteen
    ticks later it submits the transcript and starts a completion for the
    closed connection.  Nothing is written to the wire after the close. *)
Theorem buffer_interval_survives_close :
  silenceCheckInterval (vars disconnected) = None
  /\ timers (heap disconnected) !! 0 = None
  /\ timers (heap disconnected) !! 2 = Some (bufferCheck "hello" 0 5 None)
  /\ activeCompletions disconnected = ∅
  /\ activeCompletions (run disconnected (buffer_ticks 15)) = {[ 3 ]}
  /\ conversationHistory (vars (run disconnected (buffer_ticks 15))) = [(user, "hello")]
  /\ wire (sock (run disconnected (buffer_ticks 15))) = wire (sock disconnected).
Proof. vm_compute. repeat split. Qed.

(** C4, as the code behaves.  The continuation of a finished completion,
    resumed after its turn was saved, resets [currentLLMStream] although a
    newer completion has been started in the meantime; the next user turn
    then finds nothing to cancel, and two completions are active at once. *)
Theorem two_active_completions :
  let w := run (connect true) stale_reset_trace in
  size (activeCompletions w) = 2
  /\ activeCompletions w = {[ 3; 4 ]}
  /\ currentLLMStream (vars w) = Some 4.
Proof. vm_compute. repeat split. Qed.




(** C7, where the claim fails.  The socket closes while "hello" is
    pending: the close handler submits no turn and starts no completion. *)
Lemma close_does_not_finalize :
  hasPending listening_hello = true
  /\ newTurns listening_hello ws_close = []
  /\ llmStreams (heap (step listening_hello ws_close)) = ∅
  /\ pendingTranscript (vars (step listening_hello ws_close)) = Some "hello".
Proof. vm_compute. repeat split. Qed.

(** C5, where the claim fails.  The caller interrupts a completion that has
    streamed "Hel": the request is aborted and the handle dropped, but a
    chunk that the provider still delivers for it is forwarded. *)
Lemma late_token_is_forwarded :
  currentLLMStream (vars interrupted_world) = None
  /\ (controller <$> llmStreams (heap interrupted_world) !! 0) = Some (Some true)
  /\ emitted interrupted_world (llm_chunk 0 "lo") = [agent_text "lo" false].
Proof. vm_compute. repeat split. Qed.

(** C7, amended.  In every state the closure reaches, [stop_recording]
    with a pending transcript that is not blank submits, in that same step,
    exactly that transcript (trimmed) as a turn, whatever the silence clock,
    the pending-call flag, the final hint and the buffer interval say.  On
    disconnect the close handler submits no turn, whatever is pending. *)
Theorem stop_forces_finalize_close_does_not :
  (forall (apiKey : bool) (es : list Event) (now : Z),
      let w := run (connect apiKey) es in
      hasPending w = true ->
      newTurns w (frameAt now stop_recording)
      = [trim (pendingText (pendingTranscript (vars w)))])
  /\ (forall w : World, newTurns w ws_close = []).
Proof.
  split.
  - intros apiKey es now w P.
    destruct (reachable_ok apiKey es) as [[_ F] _]. fold w in F.
    now apply stop_recording_turn.
  - intros w.
    assert (noTurn w (step w ws_close)) as (l & El & Fl).
    { unfold step, handle. etransitivity; [|apply noTurn_drainMicrotasks].
      etransitivity; [|apply noTurn_onClose]. apply noTurn_set_readyState. }
    now rewrite (newTurns_intro w _ l El).
Qed.

Lemma stop_forces_finalize_close_does_not_witness :
  hasPending (run (connect true) silence_trace) = true
  /\ newTurns (run (connect true) silence_trace) (frameAt 6050 stop_recording) = ["hello"]
  /\ newTurns (run (connect true) silence_trace) ws_close = [].
Proof.
  assert (hasPending (run (connect true) silence_trace) = true) as P
    by (vm_compute; reflexivity).
  split; [exact P|]. split.
  - exact (proj1 stop_forces_finalize_close_does_not true silence_trace 6050%Z P).
  - exact (proj2 stop_forces_finalize_close_does_not (run (connect true) silence_trace)).
Defined.

(** C5, amended.  In every state the closure reaches, an interrupt aborts
    the request of the active completion and drops the completion and
    synthesis handles.  With a configured provider, no [agent_text] token is
    sent afterwards as long as no further chunk is delivered, whatever else
    runs.  The forwarding path has no cancellation check of its own: a chunk
    that the provider still delivers for the aborted completion is
    forwarded. *)
Theorem interrupt_aborts_and_relies_on_provider
    (apiKey : bool) (es : list Event) (h : nat) (st : LLMStream) (now : Z) :
  let w := run (connect apiKey) es in
  currentLLMStream (vars w) = Some h ->
  llmStreams (heap w) !! h = Some st ->
  controller st = Some false ->
  let w' := step w (frameAt now interrupt) in
  currentLLMStream (vars w') = None
  /\ currentTTSStream (vars w') = None
  /\ (controller <$> llmStreams (heap w') !! h) = Some (Some true)
  /\ (forall es',
         OPENAI_API_KEY (heap w) = true ->
         forallb (fun e => negb (isChunk e)) es' = true ->
         exists fs, wire (sock (run w' es')) = wire (sock w') ++ fs
                    /\ Forall (fun f => isToken f = false) fs)
  /\ (forall d,
         settled st = false -> d <> EmptyString -> readyState (sock w) = OPEN ->
         emitted w' (llm_chunk h d) = [agent_text d false]).
Proof.
  intros w C L K w'.
  destruct (reachable_ok apiKey es) as [_ M]. fold w in M.
  destruct (interrupt_world w h st now M C L K) as (C' & T' & L' & M' & R').
  fold w' in C', T', L', M', R'.
  split; [exact C'|]. split; [exact T'|]. split; [now rewrite L'|]. split.
  - intros es' Key Hes.
    assert (OPENAI_API_KEY (heap w') = true) as Key'.
    { destruct (tokenless_step w (frameAt now interrupt) eq_refl) as [E _].
      fold w' in E. congruence. }
    destruct (tokenless_run w' es' Hes) as (_ & fs & E & F).
    exists fs. split; [exact E|now apply F].
  - intros d S D O.
    apply (chunk_is_forwarded w' h (set_controller (Some true) st) d);
      [exact M'|exact L'|exact S|exact D|congruence].
Qed.

Lemma interrupt_aborts_and_relies_on_provider_witness :
  currentLLMStream (vars interrupted_world) = None
  /\ emitted interrupted_world (llm_chunk 0 "lo") = [agent_text "lo" false].
Proof.
  pose (st := {| origin := inProcessUserMessage true; userText := "hi";
                 messages := [(user, "hi")]; responseText := "Hel";
                 fullText := "Hel"; controller := Some false; settled := false |}).
  destruct (interrupt_aborts_and_relies_on_provider true streaming_trace 0 st 0%Z)
    as (C & _ & _ & _ & F); try (vm_compute; reflexivity).
  split; [exact C|].
  apply F; [reflexivity|discriminate|vm_compute; reflexivity].
Defined.

End EngineFacts.

(** ** The accumulator grows *)

Module AccumulatorGrowth.
Import Js Accumulator JsFacts AccumulatorFacts.

Lemma length_append s t : String.length (s +:+ t) = String.length s + String.length t.
Proof. induction s as [|c s IH]; [reflexivity|]. rewrite append_cons. simpl. now rewrite IH. Qed.

(** The merge leaves the incoming text, the pending transcript, or the two
    joined by one space. *)
Lemma mergeTranscript_cases p t :
  (mergeTranscript (Some p) t = t /\ String.length p <= String.length t)
  \/ (mergeTranscript (Some p) t = p /\ String.length t <= String.length p)
  \/ (p <> EmptyString /\ mergeTranscript (Some p) t = trim (p +:+ " " +:+ t)).
Proof.
  unfold mergeTranscript. destruct p as [|a q] eqn:Ep; [left; split; [reflexivity|simpl; lia]|].
  rewrite <- Ep.
  assert (p <> EmptyString) as Np by (subst p; discriminate).
  cbv zeta.
  generalize (includes (trim (toLowerCase t)) (trim (toLowerCase p))) as nce.
  generalize (includes (trim (toLowerCase p)) (trim (toLowerCase t))) as ecn.
  generalize (includes
       (substringFrom (trim (toLowerCase p))
          (Nat.max 0 (String.length (trim (toLowerCase p)) - 10)))
       (substring (trim (toLowerCase t)) 0
          (Nat.min 10 (String.length (trim (toLowerCase t)))))) as o1.
  generalize (includes
       (substring (trim (toLowerCase t)) 0
          (Nat.min 10 (String.length (trim (toLowerCase t)))))
       (substringFrom (trim (toLowerCase p))
          (Nat.max 0 (String.length (trim (toLowerCase p)) - 10)))) as o2.
  generalize (String.eqb t p) as e. intros e o2 o1 ecn nce.
  destruct (String.length p <? String.length t) eqn:L1;
    destruct (String.length p <=? String.length t) eqn:L2;
    destruct (String.length t <? String.length p) eqn:L3;
    destruct (String.length t =? String.length p) eqn:L4;
    destruct nce, ecn, e, o1, o2; cbn; auto;
    rewrite ?Nat.ltb_lt, ?Nat.ltb_ge, ?Nat.leb_le, ?Nat.leb_gt, ?Nat.eqb_eq, ?Nat.eqb_neq in *;
    first [ left; split; [reflexivity|lia] | right; left; split; [reflexivity|lia] ].
Qed.

Lemma mergeTranscript_length P t :
  pending_ok P -> trimmed t -> t <> EmptyString ->
  String.length (pendingText P) <= String.length (mergeTranscript P t)
  /\ String.length t <= String.length (mergeTranscript P t).
Proof.
  intros HP Ht Nt. destruct P as [p|]; unfold pendingText; cbn [from_option id];
    [|cbn [mergeTranscript String.length]; lia].
  destruct (mergeTranscript_cases p t) as [[-> L]|[[-> L]|[Np ->]]]; [lia|lia|].
  rewrite trim_join; [|exact HP|exact Np|exact Ht|exact Nt].
  rewrite !length_append. simpl. lia.
Qed.

Lemma mergeTranscript_nonempty P t :
  pending_ok P -> trimmed t -> t <> EmptyString -> mergeTranscript P t <> EmptyString.
Proof.
  intros HP Ht Nt E. destruct (mergeTranscript_length P t HP Ht Nt) as [_ L].
  rewrite E in L. destruct t; [congruence|simpl in L; lia].
Qed.

(** X1.  Within an utterance the accumulated transcript never gets
    shorter: after any transcript event it is at least as long as the
    pending transcript was and as the trimmed incoming text is. *)
Theorem accumulate_never_shortens (P : option string) (text : string) :
  pending_ok P ->
  String.length (pendingText P) <= String.length (pendingText (accumulate P text))
  /\ String.length (trim text) <= String.length (pendingText (accumulate P text)).
Proof.
  intros HP. unfold accumulate. rewrite guard_spec.
  destruct (String.eqb (trim text) EmptyString) eqn:E; cbn [negb].
  - apply String.eqb_eq in E. rewrite E. simpl. lia.
  - apply eqb_empty in E.
    apply (mergeTranscript_length P (trim text) HP (trim_trim text) E).
Qed.

Lemma accumulate_never_shortens_witness :
  pending_ok (Some "hello there")
  /\ String.length "hello there"
     <= String.length (pendingText (accumulate (Some "hello there") " bye "))
  /\ String.length (trim " bye ")
     <= String.length (pendingText (accumulate (Some "hello there") " bye ")).
Proof.
  split; [reflexivity|].
  apply (accumulate_never_shortens (Some "hello there") " bye "). reflexivity.
Defined.

End AccumulatorGrowth.

(** ** What a turn leaves alone *)

Module TurnFacts.
Import Js Accumulator Engine Observations Scenarios JsFacts EngineTactics Bookkeeping.

#[local] Instance turnFrame_preorder : PreOrder turnFrame.
Proof.
  split.
  - intros w. unfold turnFrame. auto 10.
  - intros a b c (V1 & T1 & D1 & K1 & R1 & N1) (V2 & T2 & D2 & K2 & R2 & N2).
    unfold turnFrame. repeat (split; [congruence|]). lia.
Qed.

Lemma turnFrame_assign {T} (set : T -> Vars -> Vars) v w :
  (forall x, endpointerVars (set v x) = endpointerVars x) ->
  turnFrame w (assign set v w).
Proof. intros H. unfold turnFrame. split; [apply H|]. auto 10. Qed.

Lemma turnFrame_store {T} (set : T -> Heap -> Heap) v w :
  (forall x, timers (set v x) = timers x) ->
  (forall x, dgStreams (set v x) = dgStreams x) ->
  (forall x, OPENAI_API_KEY (set v x) = OPENAI_API_KEY x) ->
  (forall x, nextId (set v x) = nextId x) ->
  turnFrame w (store set v w).
Proof.
  intros H1 H2 H3 H4. unfold turnFrame. cbn [vars heap sock store].
  rewrite H1, H2, H3, H4. auto 10.
Qed.

Lemma turnFrame_sendMessage f w : turnFrame w (sendMessage f w).
Proof.
  unfold turnFrame.
  rewrite EngineFacts.sendMessage_vars, EngineFacts.sendMessage_heap,
    EngineFacts.sendMessage_readyState.
  auto 10.
Qed.

Lemma turnFrame_alloc w : turnFrame w (alloc w).2.
Proof. unfold turnFrame. cbn. auto 10. Qed.
Lemma turnFrame_createTTSStream t w : turnFrame w (createTTSStream t w).2.
Proof. unfold turnFrame. cbn. auto 10. Qed.

Create HintDb turnFrame.
#[local] Hint Resolve turnFrame_sendMessage turnFrame_alloc turnFrame_createTTSStream
  : turnFrame.
#[local] Hint Extern 1 (turnFrame _ (assign _ _ _)) =>
  apply turnFrame_assign; intros ?; reflexivity : turnFrame.
#[local] Hint Extern 1 (turnFrame _ (store _ _ _)) =>
  apply turnFrame_store; intros ?; reflexivity : turnFrame.

Ltac turnFrame_prim := solve [eauto 3 with turnFrame].

#[local] Opaque turnFrame.

Lemma turnFrame_llm_cancel h w : turnFrame w (llm_cancel h w).
Proof. unfold llm_cancel. peel turnFrame_prim. Qed.
Lemma turnFrame_tts_cancel h w : turnFrame w (tts_cancel h w).
Proof. unfold tts_cancel. peel turnFrame_prim. Qed.
Lemma turnFrame_await_save k w : turnFrame w (await_save k w).
Proof. unfold await_save. peel turnFrame_prim. Qed.
Lemma turnFrame_resume_save k w : turnFrame w (resume_save k w).
Proof. unfold resume_save. peel turnFrame_prim. Qed.
#[local] Hint Resolve turnFrame_llm_cancel turnFrame_tts_cancel turnFrame_await_save
  turnFrame_resume_save : turnFrame.
Lemma turnFrame_onToken h t w : turnFrame w (onToken h t w).
Proof. unfold onToken. peel turnFrame_prim. Qed.
Lemma turnFrame_onComplete h t w : turnFrame w (onComplete h t w).
Proof. unfold onComplete. peel turnFrame_prim. Qed.
Lemma turnFrame_onError h w : turnFrame w (onError h w).
Proof. unfold onError. peel turnFrame_prim. Qed.
#[local] Hint Resolve turnFrame_onToken turnFrame_onComplete turnFrame_onError : turnFrame.
Lemma turnFrame_createOpenAIStream o t w : turnFrame w (createOpenAIStream o t w).2.
Proof.
  unfold createOpenAIStream. pose proof (turnFrame_alloc w) as H.
  destruct (alloc w) as [h x]. cbn [snd] in *. cbv zeta.
  destruct (OPENAI_API_KEY (heap x)); cbn [snd]; peel turnFrame_prim.
Qed.
Lemma turnFrame_cancelInFlight w : turnFrame w (cancelInFlight w).
Proof. unfold cancelInFlight. peel turnFrame_prim. Qed.
#[local] Hint Resolve turnFrame_createOpenAIStream turnFrame_cancelInFlight : turnFrame.
Lemma turnFrame_processUserMessage u c w : turnFrame w (processUserMessage u c w).
Proof. unfold processUserMessage. peel turnFrame_prim. Qed.

Lemma turnFrame_drainMicrotasks w : turnFrame w (drainMicrotasks w).
Proof.
  unfold drainMicrotasks. transitivity (store set_microtasks [] w); [turnFrame_prim|].
  generalize (store set_microtasks [] w) as x. generalize (microtasks (heap w)) as l.
  induction l as [|k l IH]; intros x; [reflexivity|].
  cbn [foldl]. transitivity (resume_save k x); [apply turnFrame_resume_save|apply IH].
Qed.

Lemma turnFrame_stream_event e w : isStreamEvent e = true -> turnFrame w (handle e w).
Proof.
  destruct e; try discriminate; intros _; unfold handle, running; peel turnFrame_prim.
Qed.

Lemma turnFrame_stream_step w e : isStreamEvent e = true -> turnFrame w (step w e).
Proof.
  intros H. unfold step. transitivity (handle e w);
    [now apply turnFrame_stream_event|apply turnFrame_drainMicrotasks].
Qed.

#[local] Transparent turnFrame.

(** What [turnFrame] says of single variables. *)
Lemma turnFrame_pending w w' :
  turnFrame w w' -> pendingTranscript (vars w') = pendingTranscript (vars w).
Proof. intros (V & _). exact (f_equal pendingTranscript V). Qed.
Lemma turnFrame_lastSent w w' :
  turnFrame w w' -> lastSentTranscript (vars w') = lastSentTranscript (vars w).
Proof. intros (V & _). exact (f_equal lastSentTranscript V). Qed.
Lemma turnFrame_session w w' :
  turnFrame w w' -> browserSessionId (vars w') = browserSessionId (vars w).
Proof. intros (V & _). exact (f_equal browserSessionId V). Qed.

End TurnFacts.

(** ** The transcript shown and the transcript pending *)

Module SyncFacts.
Import Js Accumulator Engine Observations Scenarios JsFacts EngineTactics Bookkeeping.
Import AccumulatorGrowth TurnFacts.

(** What the transcript callback does to the closure, the heap and the wire. *)
Lemma onTranscript_effect text isFinal now w :
  let P := pendingTranscript (vars w) in
  let S := lastSentTranscript (vars w) in
  let c := trim (pendingText (accumulate P text)) in
  let w' := onTranscript text isFinal now w in
  pendingTranscript (vars w') = accumulate P text
  /\ lastSentTranscript (vars w') = (if sendsTranscript text P S then Some c else S)
  /\ lastTranscriptTime (vars w')
     = (if sendsTranscript text P S then Some now else lastTranscriptTime (vars w))
  /\ heap w' = heap w
  /\ (readyState (sock w) = OPEN ->
      wire (sock w')
      = wire (sock w) ++ (if sendsTranscript text P S then [transcript c false] else [])).
Proof.
  cbv zeta. unfold sendsTranscript, onTranscript, accumulate.
  destruct (truthy (Some text) && (0 <? String.length (trim text))); cbn [andb];
    [|repeat split; intros; now rewrite app_nil_r].
  cbv zeta.
  set (m := mergeTranscript (pendingTranscript (vars w)) (trim text)).
  assert (pendingTranscript
            (vars (if isFinal then assign set_receivedFinalTranscript true w else w))
          = pendingTranscript (vars w)) as -> by now destruct isFinal.
  fold m. cbn [vars assign pendingTranscript set_pendingTranscript pendingText from_option id
                lastSentTranscript].
  assert (lastSentTranscript
            (vars (if isFinal then assign set_receivedFinalTranscript true w else w))
          = lastSentTranscript (vars w)) as -> by now destruct isFinal.
  destruct (truthy (Some (trim m))
            && negb (bool_decide (Some (trim m) = lastSentTranscript (vars w)))).
  - repeat case_match; rewrite ?EngineFacts.sendMessage_vars, ?EngineFacts.sendMessage_heap;
      repeat split; try (destruct isFinal; reflexivity);
      intros O; rewrite EngineFacts.sendMessage_open; try reflexivity;
      destruct isFinal; exact O.
  - destruct isFinal; repeat split; intros; now rewrite app_nil_r.
Qed.

(** With the bookkeeping in sync, the callback sends exactly when the
    accumulated transcript changes. *)
Lemma sendsTranscript_changed text P :
  pending_ok P -> P <> Some EmptyString ->
  sendsTranscript text P P = negb (bool_decide (accumulate P text = P))
  /\ pending_ok (accumulate P text)
  /\ accumulate P text <> Some EmptyString.
Proof.
  intros OK NE. unfold sendsTranscript, accumulate.
  rewrite AccumulatorFacts.guard_spec.
  destruct (String.eqb (trim text) EmptyString) eqn:E; cbn [negb andb].
  - rewrite bool_decide_eq_true_2 by reflexivity. auto.
  - apply AccumulatorFacts.eqb_empty in E.
    pose proof (AccumulatorFacts.mergeTranscript_trimmed P (trim text) OK (trim_trim text)) as Tm.
    pose proof (mergeTranscript_nonempty P (trim text) OK (trim_trim text) E) as Nm.
    unfold pendingText. cbn [from_option id]. rewrite Tm.
    destruct (mergeTranscript P (trim text)) as [|a m] eqn:Em; [congruence|].
    cbn [truthy andb]. repeat split; [exact Tm|congruence].
Qed.

#[local] Instance keepsSync_preorder : PreOrder keepsSync.
Proof.
  split.
  - intros w H. exact H.
  - intros a b c H1 H2 H. apply H2, H1, H.
Qed.

Lemma keepsSync_same w w' :
  pendingTranscript (vars w') = pendingTranscript (vars w) ->
  lastSentTranscript (vars w') = lastSentTranscript (vars w) ->
  keepsSync w w'.
Proof. intros P S (H1 & H2 & H3). unfold inSync. rewrite P, S. auto. Qed.

Lemma keepsSync_assign {T} (set : T -> Vars -> Vars) v w :
  (forall x, pendingTranscript (set v x) = pendingTranscript x) ->
  (forall x, lastSentTranscript (set v x) = lastSentTranscript x) ->
  keepsSync w (assign set v w).
Proof. intros P S. apply keepsSync_same; [apply P|apply S]. Qed.

Lemma keepsSync_store {T} (set : T -> Heap -> Heap) v w : keepsSync w (store set v w).
Proof. now apply keepsSync_same. Qed.
Lemma keepsSync_set_readyState r w : keepsSync w (set_readyState r w).
Proof. now apply keepsSync_same. Qed.
Lemma keepsSync_alloc w : keepsSync w (alloc w).2.
Proof. apply keepsSync_store. Qed.
Lemma keepsSync_setInterval t w : keepsSync w (setInterval t w).2.
Proof. now apply keepsSync_same. Qed.

Lemma keepsSync_turnFrame w w' : turnFrame w w' -> keepsSync w w'.
Proof.
  intros H. apply keepsSync_same; [now apply turnFrame_pending|now apply turnFrame_lastSent].
Qed.

(** The three places that assign the transcript variables. *)
Lemma keepsSync_onTranscript t f n w : keepsSync w (onTranscript t f n w).
Proof.
  intros (OK & NE & S).
  destruct (onTranscript_effect t f n w) as (P' & S' & _).
  rewrite S in S'.
  destruct (sendsTranscript_changed t _ OK NE) as (C & OK' & NE').
  unfold inSync. rewrite P', S', C. repeat split; [exact OK'|exact NE'|].
  destruct (bool_decide (accumulate (pendingTranscript (vars w)) t = pendingTranscript (vars w)))
    eqn:B; cbn [negb].
  - apply bool_decide_eq_true_1 in B. congruence.
  - destruct (accumulate (pendingTranscript (vars w)) t) as [m|] eqn:A.
    + cbn. f_equal. exact OK'.
    + exfalso. revert A. unfold accumulate.
      destruct (truthy (Some t) && (0 <? String.length (trim t))); intros A; [discriminate A|].
      rewrite A in B. now rewrite bool_decide_eq_true_2 in B.
Qed.

Lemma keepsSync_submitted w :
  keepsSync w
    (assign set_llmCallPending false
       (assign set_receivedFinalTranscript false
          (assign set_lastSentTranscript None (assign set_pendingTranscript None w)))).
Proof. intros _. split; [exact I|split; [discriminate|reflexivity]]. Qed.

Lemma keepsSync_started w :
  keepsSync w
    (assign set_receivedFinalTranscript false
       (assign set_llmCallPending false
          (assign set_lastSentTranscript None
             (assign set_lastFinalizedTranscript None
                (assign set_pendingTranscript None
                   (assign set_lastTranscriptTime None
                      (assign set_lastAudioChunkTime None w))))))).
Proof. intros _. split; [exact I|split; [discriminate|reflexivity]]. Qed.

Lemma keepsSync_stopDeepgramStream w : keepsSync w (stopDeepgramStream w).
Proof. intros _. split; [exact I|split; [discriminate|reflexivity]]. Qed.

Create HintDb keepsSync.
#[local] Hint Resolve keepsSync_store keepsSync_set_readyState keepsSync_alloc
  keepsSync_setInterval keepsSync_onTranscript keepsSync_stopDeepgramStream : keepsSync.
#[local] Hint Resolve turnFrame_sendMessage turnFrame_llm_cancel turnFrame_tts_cancel
  turnFrame_resume_save turnFrame_onToken turnFrame_onComplete turnFrame_onError
  turnFrame_processUserMessage turnFrame_drainMicrotasks : keepsSync.
#[local] Hint Extern 3 (keepsSync _ _) => apply keepsSync_turnFrame : keepsSync.
#[local] Hint Extern 2 (keepsSync _ (assign _ _ _)) =>
  apply keepsSync_assign; intros ?; reflexivity : keepsSync.

Ltac keepsSync_prim := solve [eauto 3 with keepsSync].

#[local] Opaque keepsSync turnFrame.

Lemma keepsSync_clearInterval t w : keepsSync w (clearInterval t w).
Proof. unfold clearInterval. peel keepsSync_prim. Qed.
#[local] Hint Resolve keepsSync_clearInterval : keepsSync.
Lemma keepsSync_clearSilenceDetection w : keepsSync w (clearSilenceDetection w).
Proof. unfold clearSilenceDetection. peel keepsSync_prim. Qed.
#[local] Hint Resolve keepsSync_clearSilenceDetection : keepsSync.
Lemma keepsSync_startSilenceDetection w : keepsSync w (startSilenceDetection w).
Proof. unfold startSilenceDetection. peel keepsSync_prim. Qed.
#[local] Hint Resolve keepsSync_startSilenceDetection : keepsSync.

Lemma keepsSync_checkForFinalTranscript t w : keepsSync w (checkForFinalTranscript t w).
Proof.
  unfold checkForFinalTranscript. cbv zeta. destruct (_ && _).
  - etransitivity; [|apply keepsSync_submitted]. keepsSync_prim.
  - peel keepsSync_prim.
Qed.
#[local] Hint Resolve keepsSync_checkForFinalTranscript : keepsSync.
Lemma keepsSync_bufferTick id now t e l f w : keepsSync w (bufferTick id now t e l f w).
Proof. unfold bufferTick. peel keepsSync_prim. Qed.
Lemma keepsSync_silenceTick id now c w : keepsSync w (silenceTick id now c w).
Proof. unfold silenceTick. peel keepsSync_prim. Qed.
#[local] Hint Resolve keepsSync_bufferTick keepsSync_silenceTick : keepsSync.

Lemma keepsSync_startDeepgramStream w : keepsSync w (startDeepgramStream w).
Proof.
  unfold startDeepgramStream. destruct (bool_decide _); [reflexivity|]. cbv zeta.
  match goal with |- context [clearSilenceDetection ?x] => set (X := x) end.
  assert (keepsSync w X) as HX by apply keepsSync_started.
  clearbody X. peel keepsSync_prim.
Qed.
Lemma keepsSync_dg_close h w : keepsSync w (dg_close h w).
Proof. unfold dg_close. peel keepsSync_prim. Qed.
Lemma keepsSync_dg_write h a w : keepsSync w (dg_write h a w).
Proof. unfold dg_write. peel keepsSync_prim. Qed.
#[local] Hint Resolve keepsSync_startDeepgramStream keepsSync_dg_close keepsSync_dg_write
  : keepsSync.
Lemma keepsSync_dispatch m now w : keepsSync w (dispatch m now w).
Proof. unfold dispatch. peel keepsSync_prim. Qed.
#[local] Hint Resolve keepsSync_dispatch : keepsSync.
Lemma keepsSync_onMessage d now w : keepsSync w (onMessage d now w).
Proof. unfold onMessage. peel keepsSync_prim. Qed.
Lemma keepsSync_onClose w : keepsSync w (onClose w).
Proof. unfold onClose. peel keepsSync_prim. Qed.
#[local] Hint Resolve keepsSync_onMessage keepsSync_onClose : keepsSync.

Lemma keepsSync_handle e w : keepsSync w (handle e w).
Proof. destruct e; unfold handle, running; peel keepsSync_prim. Qed.

Lemma keepsSync_step w e : keepsSync w (step w e).
Proof.
  unfold step. transitivity (handle e w); [apply keepsSync_handle|keepsSync_prim].
Qed.

#[local] Transparent keepsSync turnFrame.

Lemma reachable_inSync (apiKey : bool) (es : list Event) :
  inSync (vars (run (connect apiKey) es)).
Proof.
  assert (forall w, inSync (vars w) -> inSync (vars (run w es))) as H.
  { induction es as [|e es IH]; intros w Hw; [exact Hw|].
    unfold run. cbn [foldl]. apply IH. now apply keepsSync_step. }
  apply H. split; [exact I|split; [discriminate|reflexivity]].
Qed.

(** X2.  In every state the closure reaches, the transcript last shown to
    the client ([lastSentTranscript]) is the pending transcript, and the
    pending transcript is never the empty string. *)
Theorem shown_transcript_is_pending (apiKey : bool) (es : list Event) :
  let w := run (connect apiKey) es in
  lastSentTranscript (vars w) = pendingTranscript (vars w)
  /\ pendingTranscript (vars w) <> Some EmptyString.
Proof.
  cbv zeta. destruct (reachable_inSync apiKey es) as (_ & NE & S). split; assumption.
Qed.

Lemma transcript_step w h text isFinal now :
  microtasks (heap w) = [] -> is_Some (dgStreams (heap w) !! h) ->
  step w (dg_transcript h text isFinal now)
  = store set_microtasks [] (onTranscript text isFinal now w).
Proof.
  intros M [d D]. unfold step. cbn [handle]. rewrite D.
  assert ((if truthy (Some text) then onTranscript text isFinal now w else w)
          = onTranscript text isFinal now w) as -> by now destruct text.
  apply EngineFacts.drain_nil.
  destruct (onTranscript_effect text isFinal now w) as (_ & _ & _ & H & _). now rewrite H.
Qed.

(** X3.  In every state the closure reaches, a transcript event of an open
    Deepgram stream stores the accumulated transcript, and it sends an
    interim [transcript] frame and restarts the silence clock exactly when
    the accumulated transcript has changed: a repeated or absorbed
    transcript sends nothing and does not postpone the end of the turn. *)
Theorem transcript_frames_follow_changes
    (apiKey : bool) (es : list Event) (h : nat) (text : string) (isFinal : bool) (now : Z) :
  let w := run (connect apiKey) es in
  let P := pendingTranscript (vars w) in
  let w' := step w (dg_transcript h text isFinal now) in
  is_Some (dgStreams (heap w) !! h) ->
  readyState (sock w) = OPEN ->
  pendingTranscript (vars w') = accumulate P text
  /\ emitted w (dg_transcript h text isFinal now)
     = (if bool_decide (accumulate P text = P) then []
        else [transcript (pendingText (accumulate P text)) false])
  /\ lastTranscriptTime (vars w')
     = (if bool_decide (accumulate P text = P) then lastTranscriptTime (vars w)
        else Some now).
Proof.
  intros w P w' D O.
  destruct (EngineFacts.reachable_ok apiKey es) as [_ M]. fold w in M.
  destruct (reachable_inSync apiKey es) as (OK & NE & S). fold w in OK, NE, S. fold P in OK, NE, S.
  unfold emitted. fold w'. unfold w'. rewrite (transcript_step w h text isFinal now M D).
  cbn [vars sock store].
  destruct (onTranscript_effect text isFinal now w) as (P' & _ & T' & _ & W').
  fold P in P', T', W'. rewrite S in T', W'. specialize (W' O).
  destruct (sendsTranscript_changed text P OK NE) as (C & OK' & _).
  rewrite C in T', W'. rewrite P', T', W', drop_app_length.
  assert (trim (pendingText (accumulate P text)) = pendingText (accumulate P text)) as ->
    by (destruct (accumulate P text); [exact OK'|reflexivity]).
  destruct (bool_decide (accumulate P text = P)); auto.
Qed.

Lemma transcript_frames_follow_changes_witness :
  is_Some (dgStreams (heap listening_hello) !! 1)
  /\ readyState (sock listening_hello) = OPEN
  /\ emitted listening_hello (dg_transcript 1 "hello" true 2000) = []
  /\ emitted listening_hello (dg_transcript 1 "hello world" false 2000)
     = [transcript "hello world" false].
Proof.
  unfold listening_hello.
  set (es := [frame start_recording; dg_transcript 1 "hello" false 1000]).
  assert (is_Some (dgStreams (heap (run (connect true) es)) !! 1)) as D
    by (vm_compute; eauto).
  assert (readyState (sock (run (connect true) es)) = OPEN) as O
    by (vm_compute; reflexivity).
  assert (pendingTranscript (vars (run (connect true) es)) = Some "hello") as P
    by (vm_compute; reflexivity).
  split; [exact D|]. split; [exact O|].
  pose proof (transcript_frames_follow_changes true es 1 "hello" true 2000%Z) as H1.
  pose proof (transcript_frames_follow_changes true es 1 "hello world" false 2000%Z) as H2.
  cbv zeta in H1, H2. rewrite P in H1, H2.
  destruct (H1 D O) as (_ & E1 & _). destruct (H2 D O) as (_ & E2 & _).
  split; [exact E1|exact E2].
Defined.

End SyncFacts.

(** ** The browser session *)

Module SessionFacts.
Import Js Accumulator Engine Observations Scenarios JsFacts EngineTactics Bookkeeping Cases.
Import TurnFacts.

#[local] Instance sameSession_preorder : PreOrder sameSession.
Proof.
  split.
  - intros w. reflexivity.
  - intros a b c H1 H2. unfold sameSession in *. congruence.
Qed.

Lemma sameSession_assign {T} (set : T -> Vars -> Vars) v w :
  (forall x, browserSessionId (set v x) = browserSessionId x) ->
  sameSession w (assign set v w).
Proof. intros H. apply H. Qed.
Lemma sameSession_store {T} (set : T -> Heap -> Heap) v w : sameSession w (store set v w).
Proof. reflexivity. Qed.
Lemma sameSession_set_readyState r w : sameSession w (set_readyState r w).
Proof. reflexivity. Qed.
Lemma sameSession_alloc w : sameSession w (alloc w).2.
Proof. reflexivity. Qed.
Lemma sameSession_setInterval t w : sameSession w (setInterval t w).2.
Proof. reflexivity. Qed.
Lemma sameSession_turnFrame w w' : turnFrame w w' -> sameSession w w'.
Proof. apply turnFrame_session. Qed.

Create HintDb sameSession.
#[local] Hint Resolve sameSession_store sameSession_set_readyState sameSession_alloc
  sameSession_setInterval : sameSession.
#[local] Hint Resolve turnFrame_sendMessage turnFrame_llm_cancel turnFrame_tts_cancel
  turnFrame_resume_save turnFrame_onToken turnFrame_onComplete turnFrame_onError
  turnFrame_cancelInFlight turnFrame_createOpenAIStream
  turnFrame_processUserMessage turnFrame_drainMicrotasks : sameSession.
#[local] Hint Extern 3 (sameSession _ _) => apply sameSession_turnFrame : sameSession.
#[local] Hint Extern 2 (sameSession _ (assign _ _ _)) =>
  apply sameSession_assign; intros ?; reflexivity : sameSession.

Ltac sameSession_prim := solve [eauto 3 with sameSession].

#[local] Opaque sameSession turnFrame.

Lemma sameSession_clearInterval t w : sameSession w (clearInterval t w).
Proof. unfold clearInterval. peel sameSession_prim. Qed.
#[local] Hint Resolve sameSession_clearInterval : sameSession.
Lemma sameSession_clearSilenceDetection w : sameSession w (clearSilenceDetection w).
Proof. unfold clearSilenceDetection. peel sameSession_prim. Qed.
#[local] Hint Resolve sameSession_clearSilenceDetection : sameSession.
Lemma sameSession_startSilenceDetection w : sameSession w (startSilenceDetection w).
Proof. unfold startSilenceDetection. peel sameSession_prim. Qed.
Lemma sameSession_checkForFinalTranscript t w : sameSession w (checkForFinalTranscript t w).
Proof. unfold checkForFinalTranscript. peel sameSession_prim. Qed.
#[local] Hint Resolve sameSession_startSilenceDetection sameSession_checkForFinalTranscript
  : sameSession.
Lemma sameSession_bufferTick id now t e l f w : sameSession w (bufferTick id now t e l f w).
Proof. unfold bufferTick. peel sameSession_prim. Qed.
Lemma sameSession_silenceTick id now c w : sameSession w (silenceTick id now c w).
Proof. unfold silenceTick. peel sameSession_prim. Qed.
Lemma sameSession_onTranscript t f n w : sameSession w (onTranscript t f n w).
Proof. unfold onTranscript. peel sameSession_prim. Qed.
#[local] Hint Resolve sameSession_bufferTick sameSession_silenceTick sameSession_onTranscript
  : sameSession.
Lemma sameSession_startDeepgramStream w : sameSession w (startDeepgramStream w).
Proof. unfold startDeepgramStream. peel sameSession_prim. Qed.
Lemma sameSession_finalizeTranscript w : sameSession w (finalizeTranscript w).
Proof. unfold finalizeTranscript. peel sameSession_prim. Qed.
Lemma sameSession_dg_close h w : sameSession w (dg_close h w).
Proof. unfold dg_close. peel sameSession_prim. Qed.
Lemma sameSession_dg_write h a w : sameSession w (dg_write h a w).
Proof. unfold dg_write. peel sameSession_prim. Qed.
#[local] Hint Resolve sameSession_startDeepgramStream sameSession_finalizeTranscript
  sameSession_dg_close sameSession_dg_write : sameSession.
Lemma sameSession_stopDeepgramStream w : sameSession w (stopDeepgramStream w).
Proof. unfold stopDeepgramStream. peel sameSession_prim. Qed.
#[local] Hint Resolve sameSession_stopDeepgramStream : sameSession.
Lemma sameSession_dispatch m now w : sameSession w (dispatch m now w).
Proof. unfold dispatch. peel sameSession_prim. Qed.
Lemma sameSession_onClose w : sameSession w (onClose w).
Proof. unfold onClose. peel sameSession_prim. Qed.
#[local] Hint Resolve sameSession_dispatch sameSession_onClose : sameSession.

(** Every handler but the message handler. *)
Lemma sameSession_handle e w :
  (forall d now, e <> ws_message d now) -> sameSession w (handle e w).
Proof.
  intros H. destruct e; unfold handle, running; try (peel sameSession_prim).
  now destruct (H data now).
Qed.

#[local] Transparent sameSession turnFrame.

(** The message handler adopts a session identifier only while it has none. *)
Lemma session_onMessage d now w :
  truthy (browserSessionId (vars w)) = true ->
  browserSessionId (vars (onMessage d now w)) = browserSessionId (vars w).
Proof.
  intros H. unfold onMessage. destruct d as [m|]; [|reflexivity].
  rewrite H, andb_false_r. apply sameSession_dispatch.
Qed.

Lemma session_step w e :
  truthy (browserSessionId (vars w)) = true ->
  browserSessionId (vars (step w e)) = browserSessionId (vars w).
Proof.
  intros H. unfold step.
  rewrite (turnFrame_session _ _ (turnFrame_drainMicrotasks (handle e w))).
  destruct e; try (apply sameSession_handle; intros; discriminate).
  now apply session_onMessage.
Qed.

(** X4.  The browser session of a connection is fixed by the first frame
    that carries one: once [browserSessionId] is set, no later frame
    (whatever identifier it carries) and no callback changes it. *)
Theorem browser_session_is_fixed (w : World) (es : list Event) :
  truthy (browserSessionId (vars w)) = true ->
  browserSessionId (vars (run w es)) = browserSessionId (vars w).
Proof.
  revert w. induction es as [|e es IH]; intros w H; [reflexivity|].
  unfold run. cbn [foldl]. pose proof (session_step w e H) as E.
  fold (run (step w e) es). rewrite IH; [exact E|]. now rewrite E.
Qed.

Lemma browser_session_is_fixed_witness :
  truthy (browserSessionId (vars session_world)) = true
  /\ browserSessionId
       (vars (run session_world
                [ promise_settled 0 None 0;
                  frameOf "browser-2" (chat_message (Some "b")); ws_close ]))
     = Some "browser-1".
Proof.
  assert (truthy (browserSessionId (vars session_world)) = true) as H
    by (vm_compute; reflexivity).
  split; [exact H|].
  exact (browser_session_is_fixed session_world
           [ promise_settled 0 None 0;
             frameOf "browser-2" (chat_message (Some "b")); ws_close ] H).
Defined.

End SessionFacts.

(** ** The endpointer, tick by tick *)

Module EndpointerFacts.
Import Js Accumulator Engine Observations Scenarios JsFacts EngineTactics Bookkeeping Cases.
Import TurnFacts.

#[local] Existing Instance EngineFacts.noTurn_preorder.
#[local] Hint Resolve EngineFacts.noTurn_push_assistant EngineFacts.noTurn_store
  EngineFacts.noTurn_sendMessage EngineFacts.noTurn_alloc
  EngineFacts.noTurn_createOpenAIStream EngineFacts.noTurn_cancelInFlight : noTurn.
#[local] Hint Extern 1 (noTurn _ (assign _ _ _)) =>
  apply EngineFacts.noTurn_assign; intros ?; reflexivity : noTurn.

Lemma store_microtasks_nil w :
  microtasks (heap w) = [] -> store set_microtasks [] w = w.
Proof. destruct w as [v [] s]. cbn. now intros ->. Qed.

Lemma nonblank_truthy u : trim u <> EmptyString -> truthy (Some u) = true.
Proof. destruct u; [now intros []|reflexivity]. Qed.

Lemma nonblank_trim_truthy u : trim u <> EmptyString -> truthy (Some (trim u)) = true.
Proof. destruct (trim u); [now intros []|reflexivity]. Qed.

(** A submission appends the trimmed text as a user turn; what follows it
    in the history is no user turn. *)
Lemma processUserMessage_turn u c w :
  trim u <> EmptyString ->
  exists l,
    conversationHistory (vars (processUserMessage u c w))
    = conversationHistory (vars w) ++ (user, trim u) :: l
    /\ userTexts l = [].
Proof.
  intros N. unfold processUserMessage.
  rewrite (nonblank_truthy u N), (nonblank_trim_truthy u N). cbn [negb orb]. cbv zeta.
  set (x := assign set_conversationHistory (conversationHistory (vars w) ++ [(user, trim u)]) w).
  assert (conversationHistory (vars x) = conversationHistory (vars w) ++ [(user, trim u)]) as Ex
    by reflexivity.
  clearbody x.
  match goal with |- exists l, conversationHistory (vars ?y) = _ /\ _ =>
    assert (noTurn x y) as (l & El & Fl) by peel EngineFacts.noTurn_prim
  end.
  exists l. split; [|exact Fl]. rewrite El, Ex, <- app_assoc. reflexivity.
Qed.

(** [checkForFinalTranscript] with a pending transcript that is not blank,
    followed by the microtasks of the run. *)
Lemma checkForFinalTranscript_submits snap p w :
  pendingTranscript (vars w) = Some p -> trim p <> EmptyString ->
  let w' := drainMicrotasks (checkForFinalTranscript snap w) in
  (exists l, conversationHistory (vars w')
             = conversationHistory (vars w) ++ (user, trim p) :: l
             /\ userTexts l = [])
  /\ timers (heap w') = timers (heap w)
  /\ pendingTranscript (vars w') = None
  /\ lastSentTranscript (vars w') = None
  /\ llmCallPending (vars w') = false
  /\ receivedFinalTranscript (vars w') = false.
Proof.
  intros P N. cbv zeta.
  pose proof (turnFrame_drainMicrotasks (checkForFinalTranscript snap w)) as (V & T & _).
  pose proof (EngineFacts.noTurn_drainMicrotasks (checkForFinalTranscript snap w))
    as (l' & El' & Fl').
  rewrite El', T.
  rewrite (f_equal pendingTranscript V : pendingTranscript (vars _) = pendingTranscript (vars _)).
  rewrite (f_equal lastSentTranscript V : lastSentTranscript (vars _) = lastSentTranscript (vars _)).
  rewrite (f_equal llmCallPending V : llmCallPending (vars _) = llmCallPending (vars _)).
  rewrite (f_equal receivedFinalTranscript V
           : receivedFinalTranscript (vars _) = receivedFinalTranscript (vars _)).
  clear V T El'.
  unfold checkForFinalTranscript, hasPending. rewrite P.
  unfold pendingText. cbn [from_option id].
  rewrite (nonblank_truthy p N).
  assert ((0 <? String.length (trim p)) = true) as L
    by (apply Nat.ltb_lt; destruct (trim p); [congruence|simpl; lia]).
  rewrite L. cbn [andb]. rewrite (nonblank_trim_truthy p N), L. cbn [andb]. cbv zeta.
  destruct (processUserMessage_turn (trim p) false w) as (l & El & Fl);
    [now rewrite trim_trim|].
  rewrite trim_trim in El.
  pose proof (turnFrame_processUserMessage (trim p) false w) as (_ & T & _).
  cbn [vars heap assign]. repeat split; try exact T.
  exists (l ++ l'). split.
  - cbn. rewrite El, <- app_assoc. reflexivity.
  - now rewrite EngineFacts.userTexts_app, Fl, Fl'.
Qed.

Section Buffer.
Variables (id : nat) (snap : string) (len : nat) (p : string).

Lemma buffering_length w e tf :
  buffering id snap len p w e tf ->
  (len <? (if truthy (pendingTranscript (vars w))
           then lengthOr0 (pendingTranscript (vars w))
           else String.length snap)) = false.
Proof.
  intros (_ & _ & P & N & L). rewrite P, (nonblank_truthy p N). cbn [lengthOr0].
  now apply Nat.ltb_ge.
Qed.

(** Without a final hint the tick only counts, until 1500 ms are reached. *)
Lemma buffer_tick_waits w e tf now :
  buffering id snap len p w e tf -> receivedFinalTranscript (vars w) = false ->
  (e + 100 < 1500)%Z ->
  step w (timer_fired id now)
  = store set_timers (<[id := bufferCheck snap (e + 100) len tf]> (timers (heap w))) w.
Proof.
  intros B R E. pose proof (buffering_length w e tf B) as G.
  destruct B as (M & T & _).
  unfold step. cbn [handle]. rewrite T. unfold bufferTick. cbv zeta.
  rewrite G, R. cbn [andb negb]. unfold FINAL_TRANSCRIPT_BUFFER_MS, checkInterval.
  destruct (Z.leb_spec 1500 (e + 100)); [lia|]. cbn [andb].
  destruct (Z.leb_spec 5000 (e + 100)); [lia|].
  rewrite EngineFacts.drain_nil by exact M.
  now rewrite store_microtasks_nil.
Qed.

Lemma buffer_tick_submits w e tf now :
  buffering id snap len p w e tf -> receivedFinalTranscript (vars w) = false ->
  (1500 <= e + 100)%Z ->
  step w (timer_fired id now)
  = drainMicrotasks (checkForFinalTranscript snap (clearInterval id w)).
Proof.
  intros B R E. pose proof (buffering_length w e tf B) as G.
  destruct B as (M & T & _).
  unfold step. cbn [handle]. rewrite T. unfold bufferTick. cbv zeta.
  rewrite G, R. cbn [andb negb]. unfold FINAL_TRANSCRIPT_BUFFER_MS, checkInterval.
  destruct (Z.leb_spec 1500 (e + 100)); [|lia]. reflexivity.
Qed.

(** With a final hint the tick looks at the clock only. *)
Lemma final_tick w e tf now :
  buffering id snap len p w e (Some tf) -> receivedFinalTranscript (vars w) = true -> tf <> 0%Z ->
  step w (timer_fired id now)
  = if (2000 <=? now - tf)%Z
    then drainMicrotasks (checkForFinalTranscript snap (clearInterval id w))
    else store set_timers
           (<[id := bufferCheck snap (e + 100) len (Some tf)]> (timers (heap w))) w.
Proof.
  intros B R Z0. pose proof (buffering_length w e (Some tf) B) as G.
  destruct B as (M & T & _).
  unfold step. cbn [handle]. rewrite T. unfold bufferTick. cbv zeta.
  assert (truthyNum (Some tf) = true) as TN
    by (cbn; now apply negb_true_iff, Z.eqb_neq).
  rewrite G, R, TN. cbn [andb negb]. rewrite TN.
  cbn [from_option Datatypes.id]. unfold WAIT_AFTER_FINAL_MS, checkInterval.
  destruct (2000 <=? now - tf)%Z; [reflexivity|].
  rewrite EngineFacts.drain_nil by exact M.
  now rewrite store_microtasks_nil.
Qed.

Lemma buffer_ticks_wait (nows : list Z) : forall w e,
  buffering id snap len p w e None -> receivedFinalTranscript (vars w) = false ->
  (e + 100 * Z.of_nat (length nows) < 1500)%Z ->
  let w' := run w (map (timer_fired id) nows) in
  vars w' = vars w /\ sock w' = sock w
  /\ buffering id snap len p w' (e + 100 * Z.of_nat (length nows)) None.
Proof.
  induction nows as [|now nows IH]; intros w e B R E; cbv zeta.
  - cbn. rewrite Z.add_0_r. auto.
  - cbn [map length] in *. unfold run. cbn [foldl].
    rewrite (buffer_tick_waits w e None now B R) by lia.
    set (w1 := store set_timers _ w).
    assert (buffering id snap len p w1 (e + 100) None) as B1.
    { destruct B as (M & T & P & N & L). repeat split; try assumption.
      unfold w1. cbn. apply lookup_insert_eq. }
    destruct (IH w1 (e + 100)%Z B1 R) as (V & K & B'); [lia|].
    fold (run w1 (map (timer_fired id) nows)).
    rewrite V, K. split; [reflexivity|]. split; [reflexivity|].
    replace (e + 100 * Z.of_nat (S (length nows)))%Z
      with (e + 100 + 100 * Z.of_nat (length nows))%Z by lia.
    exact B'.
Qed.

End Buffer.

(** X5.  The silence tick starts the buffer exactly when 5000 ms have
    passed since the transcript last changed: before that it only counts;
    from then on it sets [llmCallPending] and starts one buffer interval
    that captures the trimmed pending transcript with an elapsed time of
    zero. *)
Theorem silence_starts_buffer_at_threshold
    (w : World) (id c : nat) (p : string) (t0 now : Z) :
  microtasks (heap w) = [] ->
  timers (heap w) !! id = Some (silenceCheck c) ->
  pendingTranscript (vars w) = Some p -> trim p <> EmptyString ->
  lastTranscriptTime (vars w) = Some t0 -> t0 <> 0%Z ->
  llmCallPending (vars w) = false ->
  let w' := step w (timer_fired id now) in
  ((now - t0 < 5000)%Z ->
     w' = store set_timers (<[id := silenceCheck (S c)]> (timers (heap w))) w)
  /\ ((5000 <= now - t0)%Z ->
       buffering (nextId (heap w)) (trim p) (String.length p) p w' 0
         (if receivedFinalTranscript (vars w) then Some now else None)
       /\ llmCallPending (vars w') = true
       /\ conversationHistory (vars w') = conversationHistory (vars w)
       /\ sock w' = sock w).
Proof.
  intros M T P N L Z0 C. cbv zeta.
  assert (step w (timer_fired id now) = store set_microtasks [] (silenceTick id now c w)) as E.
  { unfold step. cbn [handle]. rewrite T. apply EngineFacts.drain_nil.
    unfold silenceTick. cbv zeta. unfold setInterval, alloc.
    repeat case_match; cbn; exact M. }
  rewrite E. unfold silenceTick. cbv zeta.
  cbn [vars store]. rewrite L, C. cbn [truthyNum negb from_option Datatypes.id].
  assert ((t0 =? 0)%Z = false) as -> by now apply Z.eqb_neq.
  cbn [negb andb]. unfold hasPending. cbn [vars store]. rewrite P.
  unfold pendingText. cbn [from_option Datatypes.id].
  rewrite (nonblank_truthy p N).
  assert ((0 <? String.length (trim p)) = true) as ->
    by (apply Nat.ltb_lt; destruct (trim p); [congruence|simpl; lia]).
  unfold SILENCE_THRESHOLD_MS. split; intros H.
  - destruct (Z.leb_spec 5000 (now - t0)); [lia|]. cbn [andb].
    apply store_microtasks_nil. exact M.
  - destruct (Z.leb_spec 5000 (now - t0)); [|lia]. cbn [andb].
    unfold setInterval, alloc. cbn [snd vars heap store assign pendingTranscript
      set_llmCallPending receivedFinalTranscript lengthOr0].
    rewrite P, (nonblank_truthy p N). cbn [lengthOr0].
    unfold buffering. cbn. rewrite lookup_insert_eq. repeat split; auto.
Qed.

Lemma silence_starts_buffer_at_threshold_witness :
  microtasks (heap listening_hello) = []
  /\ timers (heap listening_hello) !! 0 = Some (silenceCheck 0)
  /\ pendingTranscript (vars listening_hello) = Some "hello"
  /\ lastTranscriptTime (vars listening_hello) = Some 1000%Z
  /\ llmCallPending (vars listening_hello) = false
  /\ buffering 2 "hello" 5 "hello" (step listening_hello (timer_fired 0 6000)) 0 None
  /\ llmCallPending (vars (step listening_hello (timer_fired 0 6000))) = true.
Proof.
  assert (microtasks (heap listening_hello) = []) as M by (vm_compute; reflexivity).
  assert (timers (heap listening_hello) !! 0 = Some (silenceCheck 0)) as T
    by (vm_compute; reflexivity).
  assert (pendingTranscript (vars listening_hello) = Some "hello") as P
    by (vm_compute; reflexivity).
  assert (lastTranscriptTime (vars listening_hello) = Some 1000%Z) as L
    by (vm_compute; reflexivity).
  assert (llmCallPending (vars listening_hello) = false) as C by (vm_compute; reflexivity).
  assert (trim "hello" <> EmptyString) as N by (vm_compute; discriminate).
  assert (1000%Z <> 0%Z) as Z0 by lia.
  repeat (split; [assumption|]).
  destruct (proj2 (silence_starts_buffer_at_threshold listening_hello 0 0 "hello" 1000 6000
                     M T P N L Z0 C)) as (B & C' & _); [lia|].
  split; [exact B|exact C'].
Defined.

(** X6.  Without a final hint, a buffer interval whose transcript does not
    grow submits the turn at its fifteenth tick, 1500 ms after the silence
    trigger, and not before: the first fourteen ticks change nothing but the
    interval's own counter, the fifteenth clears the interval and submits
    the trimmed pending transcript. *)
Theorem buffer_submits_at_fifteenth_tick
    (w : World) (id : nat) (snap p : string) (len : nat) (nows : list Z) (now : Z) :
  buffering id snap len p w 0 None ->
  receivedFinalTranscript (vars w) = false ->
  length nows = 14 ->
  let w14 := run w (map (timer_fired id) nows) in
  (forall k, k <= 14 ->
     let wk := run w (map (timer_fired id) (take k nows)) in
     vars wk = vars w /\ sock wk = sock w
     /\ timers (heap wk) !! id = Some (bufferCheck snap (100 * Z.of_nat k) len None))
  /\ newTurns w14 (timer_fired id now) = [trim p]
  /\ timers (heap (step w14 (timer_fired id now))) !! id = None
  /\ pendingTranscript (vars (step w14 (timer_fired id now))) = None.
Proof.
  intros B R L. cbv zeta. split.
  - intros k Hk.
    destruct (buffer_ticks_wait id snap len p (take k nows) w 0%Z B R) as (V & K & B').
    { rewrite length_take. lia. }
    rewrite length_take, L, Nat.min_l in B' by exact Hk.
    destruct B' as (_ & T & _). auto.
  - destruct (buffer_ticks_wait id snap len p nows w 0%Z B R) as (V & K & B'); [lia|].
    rewrite L in B'. cbn in B'.
    set (w14 := run w (map (timer_fired id) nows)) in *.
    assert (receivedFinalTranscript (vars w14) = false) as R' by now rewrite V.
    pose proof (buffer_tick_submits id snap len p w14 1400%Z None now B' R') as E.
    assert (pendingTranscript (vars (clearInterval id w14)) = Some p) as P
      by (destruct B' as (_ & _ & P & _); exact P).
    destruct B' as (_ & _ & _ & N & _).
    destruct (checkForFinalTranscript_submits snap p (clearInterval id w14) P N)
      as ((l & El & Fl) & T & P' & _).
    rewrite <- E in El, T, P' by lia. repeat split.
    + rewrite (EngineFacts.newTurns_intro w14 _ _ El).
      now rewrite EngineFacts.userTexts_cons_user, Fl.
    + rewrite T. cbn. apply lookup_delete_eq.
    + exact P'.
Qed.

Lemma buffer_submits_at_fifteenth_tick_witness :
  buffering 2 "hello" 5 "hello" silent_world 0 None
  /\ receivedFinalTranscript (vars silent_world) = false
  /\ length tick_times = 14
  /\ newTurns (run silent_world (map (timer_fired 2) tick_times)) (timer_fired 2 7500)
     = ["hello"].
Proof.
  assert (buffering 2 "hello" 5 "hello" silent_world 0 None) as B.
  { split; [vm_compute; reflexivity|]. split; [vm_compute; reflexivity|].
    split; [vm_compute; reflexivity|]. split; [vm_compute; discriminate|].
    vm_compute. lia. }
  assert (receivedFinalTranscript (vars silent_world) = false) as R
    by (vm_compute; reflexivity).
  assert (length tick_times = 14) as L by reflexivity.
  split; [exact B|]. split; [exact R|]. split; [exact L|].
  exact (proj1 (proj2 (buffer_submits_at_fifteenth_tick silent_world 2 "hello" "hello" 5
                         tick_times 7500%Z B R L))).
Defined.

(** X7.  With a final hint the buffer interval decides by the clock alone:
    it submits at the first tick that comes 2000 ms or more after the hint
    was seen, and until then it only counts, however long the buffer has
    been running (the 5000 ms cap of the buffer is not applied to it). *)
Theorem final_hint_wait_is_by_clock
    (w : World) (id : nat) (snap p : string) (len : nat) (e tf now : Z) :
  buffering id snap len p w e (Some tf) ->
  receivedFinalTranscript (vars w) = true -> tf <> 0%Z ->
  let w' := step w (timer_fired id now) in
  ((now - tf < 2000)%Z ->
     vars w' = vars w /\ sock w' = sock w
     /\ timers (heap w') !! id = Some (bufferCheck snap (e + 100) len (Some tf)))
  /\ ((2000 <= now - tf)%Z ->
       newTurns w (timer_fired id now) = [trim p]
       /\ timers (heap w') !! id = None
       /\ pendingTranscript (vars w') = None).
Proof.
  intros B R Z0. cbv zeta.
  pose proof (final_tick id snap len p w e tf now B R Z0) as E.
  split; intros H.
  - destruct (Z.leb_spec 2000 (now - tf)); [lia|]. rewrite E. cbn.
    repeat split. apply lookup_insert_eq.
  - destruct (Z.leb_spec 2000 (now - tf)); [|lia].
    assert (pendingTranscript (vars (clearInterval id w)) = Some p) as P
      by (destruct B as (_ & _ & P & _); exact P).
    destruct B as (_ & _ & _ & N & _).
    destruct (checkForFinalTranscript_submits snap p (clearInterval id w) P N)
      as ((l & El & Fl) & T & P' & _).
    rewrite <- E in El, T, P'. repeat split.
    + rewrite (EngineFacts.newTurns_intro w _ _ El).
      now rewrite EngineFacts.userTexts_cons_user, Fl.
    + rewrite T. cbn. apply lookup_delete_eq.
    + exact P'.
Qed.

Lemma final_hint_wait_is_by_clock_witness :
  buffering 2 "hello world" 11 "hello world" final_hint_world 0 (Some 7000%Z)
  /\ receivedFinalTranscript (vars final_hint_world) = true
  /\ newTurns final_hint_world (timer_fired 2 9000) = ["hello world"]
  /\ timers (heap (step final_hint_world (timer_fired 2 8900))) !! 2
     = Some (bufferCheck "hello world" 100 11 (Some 7000%Z)).
Proof.
  assert (buffering 2 "hello world" 11 "hello world" final_hint_world 0 (Some 7000%Z)) as B.
  { split; [vm_compute; reflexivity|]. split; [vm_compute; reflexivity|].
    split; [vm_compute; reflexivity|]. split; [vm_compute; discriminate|].
    vm_compute. lia. }
  assert (receivedFinalTranscript (vars final_hint_world) = true) as R
    by (vm_compute; reflexivity).
  assert (7000%Z <> 0%Z) as Z0 by lia.
  split; [exact B|]. split; [exact R|]. split.
  - destruct (proj2 (final_hint_wait_is_by_clock final_hint_world 2 "hello world"
                       "hello world" 11 0 7000 9000 B R Z0)) as (H & _); [lia|exact H].
  - destruct (proj1 (final_hint_wait_is_by_clock final_hint_world 2 "hello world"
                       "hello world" 11 0 7000 8900 B R Z0)) as (_ & _ & H); [lia|exact H].
Defined.

(** X8.  A transcript that has grown since the buffer interval last looked
    restarts the buffer: the tick submits nothing, sets the elapsed time back
    to zero, remembers the new length and forgets the time of the final
    hint, so that the waits of the two theorems above start again. *)
Theorem buffer_restarts_when_transcript_grows
    (w : World) (id : nat) (snap p : string) (len : nat) (e : Z) (tf : option Z) (now : Z) :
  microtasks (heap w) = [] ->
  timers (heap w) !! id = Some (bufferCheck snap e len tf) ->
  pendingTranscript (vars w) = Some p ->
  len < String.length p ->
  let w' := step w (timer_fired id now) in
  w' = store set_timers
         (<[id := bufferCheck snap 0 (String.length p) None]> (timers (heap w))) w
  /\ (trim p <> EmptyString -> buffering id snap (String.length p) p w' 0 None).
Proof.
  intros M T P G. cbv zeta.
  assert (step w (timer_fired id now)
          = store set_timers
              (<[id := bufferCheck snap 0 (String.length p) None]> (timers (heap w))) w) as E.
  { unfold step. cbn [handle]. rewrite T. unfold bufferTick. cbv zeta. rewrite P.
    assert (truthy (Some p) = true) as -> by (destruct p; [simpl in G; lia|reflexivity]).
    cbn [lengthOr0]. apply Nat.ltb_lt in G. rewrite G.
    rewrite EngineFacts.drain_nil by exact M. now rewrite store_microtasks_nil. }
  rewrite E. split; [reflexivity|]. intros N. unfold buffering. cbn.
  rewrite lookup_insert_eq. auto.
Qed.

Lemma buffer_restarts_when_transcript_grows_witness :
  timers (heap silent_world) !! 2 = Some (bufferCheck "hello" 0 5 None)
  /\ timers (heap (step (step silent_world (dg_transcript 1 "hello world" false 6050))
                      (timer_fired 2 6100))) !! 2
     = Some (bufferCheck "hello" 0 11 None).
Proof.
  split; [vm_compute; reflexivity|].
  set (w := step silent_world (dg_transcript 1 "hello world" false 6050)).
  assert (microtasks (heap w) = []) as M by (vm_compute; reflexivity).
  assert (timers (heap w) !! 2 = Some (bufferCheck "hello" 0 5 None)) as T
    by (vm_compute; reflexivity).
  assert (pendingTranscript (vars w) = Some "hello world") as P by (vm_compute; reflexivity).
  destruct (buffer_restarts_when_transcript_grows w 2 "hello" "hello world" 5 0%Z None 6100%Z
              M T P) as [E _]; [simpl; lia|].
  rewrite E. cbn. now rewrite lookup_insert_eq.
Defined.

End EndpointerFacts.

(** ** Turns, replies and synthesis *)

Module OrchestratorFacts.
Import Js Accumulator Engine Observations Scenarios JsFacts EngineTactics Bookkeeping Cases.
Import TurnFacts EndpointerFacts.

Lemma cancelInFlight_frame w :
  sock (cancelInFlight w) = sock w
  /\ conversationHistory (vars (cancelInFlight w)) = conversationHistory (vars w)
  /\ browserSessionId (vars (cancelInFlight w)) = browserSessionId (vars w)
  /\ microtasks (heap (cancelInFlight w)) = microtasks (heap w)
  /\ OPENAI_API_KEY (heap (cancelInFlight w)) = OPENAI_API_KEY (heap w).
Proof.
  unfold cancelInFlight, llm_cancel, tts_cancel.
  repeat case_match; cbn; auto 10.
Qed.

(** [createOpenAIStream] without an API key, on an open socket of a
    connection without a browser session. *)
Lemma createOpenAIStream_unconfigured o t w :
  OPENAI_API_KEY (heap w) = false ->
  readyState (sock w) = OPEN ->
  truthy (browserSessionId (vars w)) = false ->
  let w' := (createOpenAIStream o t w).2 in
  conversationHistory (vars w') = conversationHistory (vars w) ++ [(assistant, fakeText)]
  /\ wire (sock w') = wire (sock w) ++ [agent_text fakeText false]
  /\ readyState (sock w') = OPEN
  /\ microtasks (heap w') = microtasks (heap w) ++ [onComplete_resume o t fakeText].
Proof.
  intros K O B. cbv zeta. unfold createOpenAIStream, alloc.
  cbn [heap store OPENAI_API_KEY set_nextId]. rewrite K. cbn [snd].
  unfold onToken. cbn [heap store llmStreams set_llmStreams]. rewrite lookup_insert_eq.
  rewrite EngineFacts.sendMessage_open by exact O.
  unfold onComplete. cbn [heap store llmStreams set_llmStreams]. rewrite lookup_insert_eq.
  unfold await_save. cbn [vars assign store browserSessionId set_conversationHistory].
  rewrite B. cbn. auto.
Qed.

(** The code after the save of a completed chat turn. *)
Lemma resume_chat_turn u r w :
  readyState (sock w) = OPEN ->
  let w' := resume_save (onComplete_resume (inProcessUserMessage true) u r) w in
  wire (sock w') = wire (sock w) ++ [conversation_turn chat u r; status idle None]
  /\ conversationHistory (vars w') = conversationHistory (vars w)
  /\ currentLLMStream (vars w') = None.
Proof.
  intros O. cbn [resume_save].
  rewrite !EngineFacts.sendMessage_open by (rewrite ?EngineFacts.sendMessage_readyState; auto).
  cbn. rewrite <- app_assoc. auto.
Qed.

(** X9.  Without an API key a chat message is answered inside the same
    run of the event loop: the fixed "not configured" text is sent as one
    token, recorded as the assistant's reply and reported as the turn, and
    no completion is left in flight. *)
Theorem unconfigured_provider_answers_at_once (w : World) (text : string) (now : Z) :
  OPENAI_API_KEY (heap w) = false ->
  readyState (sock w) = OPEN ->
  truthy (browserSessionId (vars w)) = false ->
  microtasks (heap w) = [] ->
  trim text <> EmptyString ->
  let e := frameAt now (chat_message (Some text)) in
  emitted w e
  = [ status thinking None; agent_text "" true; agent_text fakeText false;
      conversation_turn chat (trim text) fakeText; status idle None ]
  /\ conversationHistory (vars (step w e))
     = conversationHistory (vars w) ++ [(user, trim text); (assistant, fakeText)]
  /\ currentLLMStream (vars (step w e)) = None.
Proof.
  intros K O B M N. cbv zeta. unfold emitted, step, frameAt, handle, onMessage.
  cbn [browser_session_id msg_type]. change (truthy None) with false.
  cbn [andb dispatch pendingText from_option Datatypes.id].
  rewrite (nonblank_truthy text N), (nonblank_trim_truthy text N). cbn [andb].
  unfold processUserMessage.
  rewrite (nonblank_truthy text N), (nonblank_trim_truthy text N). cbn [negb orb]. cbv zeta.
  rewrite !EngineFacts.sendMessage_open by (rewrite ?EngineFacts.sendMessage_readyState; cbn; auto).
  match goal with |- context [cancelInFlight ?x] => set (w3 := x) end.
  destruct (cancelInFlight_frame w3) as (S4 & H4 & B4 & M4 & K4).
  set (w4 := cancelInFlight w3) in *.
  assert (wire (sock w4) = wire (sock w) ++ [status thinking None; agent_text "" true]) as W4
    by (rewrite S4; cbn; now rewrite <- app_assoc).
  assert (readyState (sock w4) = OPEN) as O4 by now rewrite S4.
  cbn in H4, B4, M4, K4. rewrite <- B4 in B. rewrite M in M4. rewrite K in K4. clear B4.
  clearbody w4. clear S4 w3.
  destruct (createOpenAIStream_unconfigured (inProcessUserMessage true) (trim text) w4 K4 O4 B)
    as (H5 & W5 & O5 & M5).
  destruct (createOpenAIStream (inProcessUserMessage true) (trim text) w4) as [h w5].
  cbn [snd] in *. rewrite M4 in M5. cbn [app] in M5.
  unfold drainMicrotasks. cbn [heap assign]. rewrite M5. cbn [foldl].
  set (w6 := store set_microtasks [] (assign set_currentLLMStream (Some h) w5)).
  destruct (resume_chat_turn (trim text) fakeText w6 O5) as (W7 & H7 & C7).
  rewrite W7, H7, C7. unfold w6. cbn [vars sock assign store conversationHistory
    set_currentLLMStream].
  rewrite W5, W4, H5, H4, <- !app_assoc. cbn [app]. rewrite drop_app_length.
  repeat split.
Qed.

Lemma unconfigured_provider_answers_at_once_witness :
  OPENAI_API_KEY (heap (connect false)) = false
  /\ readyState (sock (connect false)) = OPEN
  /\ emitted (connect false) (frameAt 0 (chat_message (Some " hi ")))
     = [ status thinking None; agent_text "" true; agent_text fakeText false;
         conversation_turn chat "hi" fakeText; status idle None ].
Proof.
  split; [reflexivity|]. split; [reflexivity|].
  refine (proj1 (unconfigured_provider_answers_at_once (connect false) " hi " 0%Z
                   eq_refl eq_refl eq_refl eq_refl _)).
  vm_compute. discriminate.
Defined.

Lemma resume_save_history k w :
  conversationHistory (vars (resume_save k w)) = conversationHistory (vars w).
Proof.
  destruct k as [[c|] u r|[c|]]; cbn [resume_save]; try destruct c;
    cbn; now rewrite ?EngineFacts.sendMessage_vars.
Qed.

Lemma append_empty_r s : s +:+ EmptyString = s.
Proof. induction s as [|c s IH]; [reflexivity|]. rewrite append_cons. now f_equal. Qed.

Lemma append_assoc s t u : (s +:+ t) +:+ u = s +:+ (t +:+ u).
Proof. induction s as [|c s IH]; [reflexivity|]. rewrite !append_cons. now f_equal. Qed.

(** One chunk of a running stream. *)
Lemma llm_chunk_step w h st d :
  microtasks (heap w) = [] ->
  llmStreams (heap w) !! h = Some st -> settled st = false ->
  readyState (sock w) = OPEN ->
  let w' := step w (llm_chunk h d) in
  vars w' = vars w
  /\ microtasks (heap w') = []
  /\ readyState (sock w') = OPEN
  /\ wire (sock w') = wire (sock w) ++ (if truthy (Some d) then [agent_text d false] else [])
  /\ exists st', llmStreams (heap w') !! h = Some st'
                 /\ settled st' = false
                 /\ fullText st' = fullText st +:+ d
                 /\ origin st' = origin st /\ userText st' = userText st.
Proof.
  intros M L S O. cbv zeta. unfold step. cbn [handle]. unfold running. rewrite L, S.
  destruct d as [|c d]; cbn [truthy].
  - rewrite EngineFacts.drain_nil by exact M. rewrite store_microtasks_nil by exact M.
    rewrite app_nil_r, append_empty_r. eauto 10.
  - unfold onToken. cbn [heap store llmStreams set_llmStreams]. rewrite lookup_insert_eq.
    rewrite EngineFacts.sendMessage_open by exact O.
    rewrite EngineFacts.drain_nil by exact M.
    cbn [vars heap sock store microtasks set_microtasks set_llmStreams llmStreams
         readyState wire].
    rewrite lookup_insert_eq. repeat split. eexists. split; [reflexivity|]. now repeat split.
Qed.

Lemma llm_chunks_run (ds : list string) : forall w h st,
  microtasks (heap w) = [] ->
  llmStreams (heap w) !! h = Some st -> settled st = false ->
  readyState (sock w) = OPEN ->
  let w' := run w (map (llm_chunk h) ds) in
  vars w' = vars w
  /\ microtasks (heap w') = []
  /\ readyState (sock w') = OPEN
  /\ wire (sock w') = wire (sock w) ++ tokensOf ds
  /\ exists st', llmStreams (heap w') !! h = Some st'
                 /\ settled st' = false
                 /\ fullText st' = fullText st +:+ concatChunks ds
                 /\ origin st' = origin st /\ userText st' = userText st.
Proof.
  induction ds as [|d ds IH]; intros w h st M L S O; cbv zeta.
  - cbn. rewrite app_nil_r, append_empty_r. eauto 10.
  - cbn [map]. unfold run. cbn [foldl]. fold (run (step w (llm_chunk h d)) (map (llm_chunk h) ds)).
    destruct (llm_chunk_step w h st d M L S O) as (V1 & M1 & O1 & W1 & st1 & L1 & S1 & F1 & G1 & U1).
    destruct (IH _ h st1 M1 L1 S1 O1) as (V2 & M2 & O2 & W2 & st2 & L2 & S2 & F2 & G2 & U2).
    rewrite V2, V1, W2, W1, <- app_assoc. repeat split; try assumption.
    + f_equal. unfold tokensOf. cbn [filter list_filter]. destruct d; cbn [truthy].
      * rewrite decide_False by (intros H; now apply H). reflexivity.
      * rewrite decide_True by discriminate. reflexivity.
    + exists st2. repeat split; try congruence.
      rewrite F2, F1. cbn [concatChunks foldr]. apply append_assoc.
Qed.

(** The end of a running stream on a connection without a browser
    session. *)
Lemma llm_end_step w h st :
  microtasks (heap w) = [] ->
  llmStreams (heap w) !! h = Some st -> settled st = false ->
  readyState (sock w) = OPEN ->
  truthy (browserSessionId (vars w)) = false ->
  let mode := match origin st with inProcessUserMessage true => chat | _ => voice end in
  conversationHistory (vars (step w (llm_end h)))
  = conversationHistory (vars w) ++ [(assistant, fullText st)]
  /\ head (emitted w (llm_end h))
     = Some (conversation_turn mode (userText st) (fullText st)).
Proof.
  intros M L S O B. cbv zeta. unfold emitted, step. cbn [handle]. unfold running. rewrite L, S.
  unfold onComplete. cbn [heap store llmStreams set_llmStreams]. rewrite lookup_insert_eq.
  unfold await_save. cbn [vars assign store browserSessionId set_conversationHistory].
  rewrite B. unfold drainMicrotasks.
  cbn [heap store assign microtasks set_microtasks set_llmStreams]. rewrite M.
  cbn [app foldl]. rewrite resume_save_history. split; [reflexivity|].
  cbn [origin userText set_settled set_responseText].
  destruct (origin st) as [[|]|]; cbn [resume_save];
    rewrite ?EngineFacts.sendMessage_open
      by (rewrite ?EngineFacts.sendMessage_readyState; cbn; auto);
    cbn [createTTSStream alloc]; cbn [sock wire assign store];
    rewrite <- ?app_assoc, drop_app_length; reflexivity.
Qed.

(** X10.  The reply recorded and reported for a turn is the concatenation,
    in order, of the chunks of its stream, and the tokens sent are exactly
    the chunks that are not empty: for a running stream that then ends
    (open socket, no browser session), whatever the chunks. *)
Theorem reply_is_concatenation_of_chunks
    (w : World) (h : nat) (st : LLMStream) (ds : list string) :
  microtasks (heap w) = [] ->
  llmStreams (heap w) !! h = Some st -> settled st = false ->
  readyState (sock w) = OPEN ->
  truthy (browserSessionId (vars w)) = false ->
  let w' := run w (map (llm_chunk h) ds) in
  let reply := fullText st +:+ concatChunks ds in
  let mode := match origin st with inProcessUserMessage true => chat | _ => voice end in
  wire (sock w') = wire (sock w) ++ tokensOf ds
  /\ conversationHistory (vars (step w' (llm_end h)))
     = conversationHistory (vars w) ++ [(assistant, reply)]
  /\ head (emitted w' (llm_end h)) = Some (conversation_turn mode (userText st) reply).
Proof.
  intros M L S O B. cbv zeta.
  destruct (llm_chunks_run ds w h st M L S O) as (V & M' & O' & W & st' & L' & S' & F & G & U).
  split; [exact W|].
  destruct (llm_end_step _ h st' M' L' S' O') as (H1 & H2); [now rewrite V|].
  rewrite H1, H2, V, F, G, U. auto.
Qed.

Lemma reply_is_concatenation_of_chunks_witness :
  llmStreams (heap asked_world) !! 0 = Some asked_stream
  /\ readyState (sock asked_world) = OPEN
  /\ conversationHistory
       (vars (step (run asked_world (map (llm_chunk 0) ["Hel"; ""; "lo"])) (llm_end 0)))
     = [(user, "hi"); (assistant, "Hello")]
  /\ wire (sock (run asked_world (map (llm_chunk 0) ["Hel"; ""; "lo"])))
     = wire (sock asked_world) ++ [agent_text "Hel" false; agent_text "lo" false].
Proof.
  assert (llmStreams (heap asked_world) !! 0 = Some asked_stream) as L
    by (vm_compute; reflexivity).
  assert (readyState (sock asked_world) = OPEN) as O by (vm_compute; reflexivity).
  split; [exact L|]. split; [exact O|].
  destruct (reply_is_concatenation_of_chunks asked_world 0 asked_stream ["Hel"; ""; "lo"]
              eq_refl L eq_refl O eq_refl) as (W & H & _).
  split; [exact H|exact W].
Defined.

(** X11.  A stream that throws: an abort is swallowed (no frame, no
    history entry); any other error sends one [status] frame with
    [llm_error]; in both cases the failed turn gets no assistant entry. *)
Theorem provider_error_is_reported_once
    (w : World) (h : nat) (st : LLMStream) (name : string) :
  microtasks (heap w) = [] ->
  llmStreams (heap w) !! h = Some st -> settled st = false ->
  readyState (sock w) = OPEN ->
  truthy (browserSessionId (vars w)) = false ->
  emitted w (llm_throw h name)
  = (if String.eqb name "AbortError" then [] else [status error (Some "llm_error")])
  /\ conversationHistory (vars (step w (llm_throw h name))) = conversationHistory (vars w).
Proof.
  intros M L S O B. unfold emitted, step. cbn [handle]. unfold running. rewrite L, S.
  destruct (String.eqb name "AbortError").
  - rewrite EngineFacts.drain_nil by exact M. cbn. now rewrite drop_all.
  - unfold onError. cbn [heap store llmStreams set_llmStreams]. rewrite lookup_insert_eq.
    unfold await_save. cbn [vars store]. rewrite B. unfold drainMicrotasks.
    cbn [heap store microtasks set_microtasks set_llmStreams]. rewrite M.
    cbn [app foldl]. rewrite resume_save_history. split; [|reflexivity].
    cbn [origin set_settled].
    destruct (origin st) as [c|]; cbn [resume_save];
      rewrite EngineFacts.sendMessage_open by exact O;
      cbn [sock wire assign]; now rewrite drop_app_length.
Qed.

Lemma provider_error_is_reported_once_witness :
  llmStreams (heap asked_world) !! 0 = Some asked_stream
  /\ emitted asked_world (llm_throw 0 "TypeError") = [status error (Some "llm_error")]
  /\ emitted asked_world (llm_throw 0 "AbortError") = [].
Proof.
  assert (llmStreams (heap asked_world) !! 0 = Some asked_stream) as L
    by (vm_compute; reflexivity).
  assert (readyState (sock asked_world) = OPEN) as O by (vm_compute; reflexivity).
  split; [exact L|]. split.
  - exact (proj1 (provider_error_is_reported_once asked_world 0 asked_stream "TypeError"
                    eq_refl L eq_refl O eq_refl)).
  - exact (proj1 (provider_error_is_reported_once asked_world 0 asked_stream "AbortError"
                    eq_refl L eq_refl O eq_refl)).
Defined.

(** One run of the 10 ms timeout of a synthesis stream. *)
Lemma tts_timeout_step w h st :
  microtasks (heap w) = [] ->
  ttsStreams (heap w) !! h = Some st ->
  readyState (sock w) = OPEN ->
  emitted w (tts_timeout h)
  = (if fired st || cancelled st then []
     else [agent_audio (Buffer.toBase64 (Buffer.from ("AUDIO:" +:+ tts_text st)));
           status idle None])
  /\ (fired st || cancelled st = true -> vars (step w (tts_timeout h)) = vars w).
Proof.
  intros M T O. unfold emitted, step. cbn [handle]. rewrite T.
  destruct (fired st); cbn [orb].
  - rewrite EngineFacts.drain_nil by exact M. cbn. now rewrite drop_all.
  - destruct (cancelled st).
    + rewrite EngineFacts.drain_nil by exact M. cbn. now rewrite drop_all.
    + rewrite !EngineFacts.sendMessage_open
        by (rewrite ?EngineFacts.sendMessage_readyState; cbn; auto).
      rewrite EngineFacts.drain_nil by exact M. cbn [sock wire assign store].
      rewrite <- app_assoc, drop_app_length. split; [reflexivity|discriminate].
Qed.

(** X12.  The synthesis stream does honour its cancellation: after an
    interrupt the stream the closure held is cancelled, and when its timeout
    runs it sends neither audio nor a status and changes no variable; a
    stream that was not cancelled sends its audio (the base64 text of the
    UTF-8 bytes of "AUDIO:" followed by the reply) and [idle], once. *)
Theorem interrupt_silences_synthesis (w : World) (h : nat) (st : TTSStream) (now : Z) :
  microtasks (heap w) = [] ->
  currentTTSStream (vars w) = Some h ->
  ttsStreams (heap w) !! h = Some st ->
  fired st = false -> cancelled st = false ->
  readyState (sock w) = OPEN ->
  let w' := step w (frameAt now interrupt) in
  emitted w (tts_timeout h)
  = [agent_audio (Buffer.toBase64 (Buffer.from ("AUDIO:" +:+ tts_text st)));
     status idle None]
  /\ emitted (step w (tts_timeout h)) (tts_timeout h) = []
  /\ emitted w' (tts_timeout h) = []
  /\ vars (step w' (tts_timeout h)) = vars w'.
Proof.
  intros M C T F X O w'.
  destruct (tts_timeout_step w h st M T O) as [E1 _]. rewrite F, X in E1. cbn [orb] in E1.
  split; [exact E1|]. split.
  - assert (ttsStreams (heap (step w (tts_timeout h))) !! h = Some (set_fired true st)
            /\ readyState (sock (step w (tts_timeout h))) = OPEN) as [T2 O2].
    { unfold step. cbn [handle]. rewrite T, F, X.
      rewrite !EngineFacts.sendMessage_open
        by (rewrite ?EngineFacts.sendMessage_readyState; cbn; auto).
      rewrite EngineFacts.drain_nil by exact M. cbn. now rewrite lookup_insert_eq. }
    destruct (tts_timeout_step _ h _ (EngineFacts.step_microtasks _ _) T2 O2) as [E2 _].
    exact E2.
  - assert (ttsStreams (heap w') !! h = Some (set_cancelled true st)
            /\ readyState (sock w') = OPEN) as [T3 O3].
    { unfold w', step, frameAt, handle, onMessage.
      cbn [browser_session_id msg_type]. change (truthy None) with false.
      cbn [andb dispatch]. cbv zeta.
      set (w1 := match currentLLMStream (vars w) with
                 | Some h0 => llm_cancel h0 w | None => w end).
      assert (ttsStreams (heap w1) !! h = Some st /\ sock w1 = sock w
              /\ microtasks (heap w1) = []) as (T1 & S1 & M1).
      { unfold w1, llm_cancel. repeat case_match; cbn; auto. }
      assert (currentTTSStream (vars w1) = Some h) as C1.
      { unfold w1, llm_cancel. repeat case_match; cbn; auto. }
      clearbody w1. rewrite C1. unfold tts_cancel. rewrite T1.
      rewrite EngineFacts.sendMessage_open by (cbn; now rewrite S1).
      rewrite EngineFacts.drain_nil by (cbn; exact M1).
      cbn. now rewrite lookup_insert_eq. }
    destruct (tts_timeout_step _ h _ (EngineFacts.step_microtasks _ _) T3 O3) as [E3 V3].
    cbn [cancelled set_cancelled etaTTS] in E3, V3. rewrite orb_true_r in E3, V3.
    split; [exact E3|now apply V3].
Qed.

Lemma interrupt_silences_synthesis_witness :
  currentTTSStream (vars synthesis_world) = Some 3
  /\ ttsStreams (heap synthesis_world) !! 3
     = Some {| tts_text := fakeText; cancelled := false; fired := false |}
  /\ emitted synthesis_world (tts_timeout 3)
     = [agent_audio
          "QVVESU86TExNIGlzIG5vdCBjb25maWd1cmVkLiBQbGVhc2Ugc2V0IE9QRU5BSV9BUElfS0VZLg==";
        status idle None]
  /\ emitted (step synthesis_world (frameAt 2005 interrupt)) (tts_timeout 3) = [].
Proof.
  assert (currentTTSStream (vars synthesis_world) = Some 3) as C by (vm_compute; reflexivity).
  assert (ttsStreams (heap synthesis_world) !! 3
          = Some {| tts_text := fakeText; cancelled := false; fired := false |}) as T
    by (vm_compute; reflexivity).
  assert (readyState (sock synthesis_world) = OPEN) as O by (vm_compute; reflexivity).
  split; [exact C|]. split; [exact T|].
  destruct (interrupt_silences_synthesis synthesis_world 3 _ 2005%Z
              eq_refl C T eq_refl eq_refl O) as (E1 & _ & E3 & _).
  split; [exact E1|exact E3].
Defined.

(** The prelude of the message handler.  A frame that does not bind the
    session, because it carries no [browser_session_id] or because the
    session is bound already, runs as the frame without metadata does. *)
Lemma frame_without_binding w m now :
  bindsSession w m = false ->
  step w (ws_message (Some m) now) = step w (frameAt now (msg_type m)).
Proof.
  intros B. unfold step, frameAt, handle, onMessage.
  fold (bindsSession w m). rewrite B.
  cbn [browser_session_id msg_type]. change (truthy None) with false. reflexivity.
Qed.

(** A frame that binds the session runs no branch of the [switch] yet: it
    awaits the user lookup, and its branch runs when the lookup settles. *)
Lemma frame_with_binding w m now p result now' :
  microtasks (heap w) = [] ->
  bindsSession w m = true ->
  let w1 := step w (ws_message (Some m) now) in
  sock w1 = sock w
  /\ vars w1 = set_browserSessionId (browser_session_id m) (vars w)
  /\ promises (heap w1)
     = <[nextId (heap w) := after_resolveUser (msg_type m)]> (promises (heap w))
  /\ (promises (heap w1) !! p = Some (after_resolveUser (msg_type m)) ->
      handle (promise_settled p result now') w1
      = dispatch (msg_type m) now'
          (assign set_currentUserId result
             (store set_promises (delete p (promises (heap w1))) w1))).
Proof.
  intros M B w1.
  assert (w1 = store set_promises
                 (<[nextId (heap w) := after_resolveUser (msg_type m)]> (promises (heap w)))
                 (store set_nextId (S (nextId (heap w)))
                    (assign set_browserSessionId (browser_session_id m) w))) as E.
  { unfold w1, step, handle, onMessage. fold (bindsSession w m). rewrite B.
    unfold alloc. rewrite EngineFacts.drain_nil by exact M.
    now apply store_microtasks_nil. }
  split; [now rewrite E|]. split; [now rewrite E|]. split; [now rewrite E|].
  intros L. cbn [handle]. now rewrite L.
Qed.

#[local] Instance onlySession_preorder : PreOrder onlySession.
Proof.
  split.
  - intros w. unfold onlySession. repeat split; auto.
  - intros a b c (S1 & V1 & T1 & L1 & Y1 & D1 & P1) (S2 & V2 & T2 & L2 & Y2 & D2 & P2).
    unfold onlySession. repeat split; try congruence.
    intros p k H. destruct (P2 p k H) as [H'|H']; [now apply P1|now right].
Qed.

Lemma drain_idle w : microtasks (heap w) = [] -> drainMicrotasks w = w.
Proof.
  intros M. rewrite EngineFacts.drain_nil by exact M.
  now apply store_microtasks_nil.
Qed.

(** The branch of an ignored type is a no-op. *)
Lemma dispatch_ignored t now w :
  ignoredType (vars w) t = true -> dispatch t now w = w.
Proof.
  destruct t as [| |audio| |text|ty]; cbn [ignoredType dispatch]; try discriminate.
  - destruct (truthy audio); cbn [negb orb]; [|reflexivity].
    destruct (deepgramStream (vars w)) as [h|]; [|reflexivity].
    rewrite bool_decide_eq_false_2 by discriminate. rewrite orb_false_r.
    now intros ->%negb_true_iff.
  - now intros ->%negb_true_iff.
  - reflexivity.
Qed.

(** One ignored input, exactly. *)
Lemma ignored_step w e :
  microtasks (heap w) = [] -> ignored w e = true ->
  step w e
  = match e with
    | ws_message (Some m) _ =>
        if bindsSession w m
        then store set_promises
               (<[nextId (heap w) := after_resolveUser (msg_type m)]> (promises (heap w)))
               (store set_nextId (S (nextId (heap w)))
                  (assign set_browserSessionId (browser_session_id m) w))
        else w
    | promise_settled p result _ =>
        assign set_currentUserId result
          (store set_promises (delete p (promises (heap w))) w)
    | _ => w
    end.
Proof.
  intros M I. unfold step.
  destruct e as [[m|] now| | | | |h text isFinal now| | | | | |p result now];
    cbn [ignored] in I; try discriminate; cbn [handle onMessage].
  - fold (bindsSession w m). destruct (bindsSession w m).
    + unfold alloc. apply drain_idle. exact M.
    + rewrite dispatch_ignored by exact I. now apply drain_idle.
  - now apply drain_idle.
  - now apply drain_idle.
  - apply bool_decide_eq_true_1 in I.
    assert (onTranscript text isFinal now w = w) as E.
    { unfold onTranscript. rewrite I. now rewrite andb_false_r. }
    destruct (dgStreams (heap w) !! h); [|now apply drain_idle].
    destruct (truthy (Some text)); [rewrite E|]; now apply drain_idle.
  - destruct (promises (heap w) !! p) as [[k|t]|]; try discriminate.
    rewrite dispatch_ignored by exact I. apply drain_idle. exact M.
Qed.

Lemma onlySession_step w e :
  microtasks (heap w) = [] -> ignored w e = true -> onlySession w (step w e).
Proof.
  intros M I. rewrite (ignored_step w e M I).
  destruct e as [[m|] now| | | | | | | | | | |p result now]; try reflexivity.
  - destruct (bindsSession w m); [|reflexivity].
    unfold onlySession. repeat split. cbn. intros p k H.
    apply lookup_insert_Some in H as [[_ <-]|[_ H]]; [right; eauto|now left].
  - unfold onlySession. repeat split. cbn. intros q k H.
    apply lookup_delete_Some in H as [_ H]. now left.
Qed.

Lemma untouched_step w e :
  microtasks (heap w) = [] -> ignored w e = true -> touchesSession w e = false ->
  step w e = w.
Proof.
  intros M I T. rewrite (ignored_step w e M I).
  destruct e as [[m|] now| | | | | | | | | | |p result now]; try reflexivity.
  - cbn [touchesSession] in T. now rewrite T.
  - discriminate.
Qed.

(** X13.  Inputs the closure ignores change nothing but the binding of
    the session, whatever metadata they carry and in any number and order: a
    frame that is not JSON, a frame of an unknown type, a chat message whose
    text is missing or blank, an audio chunk without audio, outside a
    recording or without a Deepgram stream, a socket error, and a transcript
    event whose text is blank.  Over a run of them nothing is sent, no
    interval or stream is created or changed, no closure variable other
    than [browserSessionId] and [currentUserId] is assigned, and the only
    thing started is the user lookup of the frame that binds the session;
    when no frame of the run binds the session and no lookup settles in it,
    the state after the run is the state before. *)
Theorem ignored_inputs_change_nothing (w : World) (es : list Event) :
  microtasks (heap w) = [] ->
  allIgnored w es = true ->
  onlySession w (run w es)
  /\ ((forall e, e ∈ es -> touchesSession w e = false) -> run w es = w).
Proof.
  revert w. induction es as [|e es IH]; intros w M A; [split; reflexivity|].
  cbn [allIgnored] in A. apply andb_prop in A as [I A].
  unfold run. cbn [foldl]. fold (run (step w e) es).
  destruct (IH (step w e) (EngineFacts.step_microtasks w e) A) as [R U].
  split.
  - etransitivity; [apply (onlySession_step w e M I)|exact R].
  - intros T.
    assert (step w e = w) as E
      by (apply (untouched_step w e M I), T, list_elem_of_here).
    rewrite E in *. apply U. intros e' H. apply T. now apply list_elem_of_further.
Qed.

Lemma ignored_inputs_change_nothing_witness :
  microtasks (heap listening_hello) = []
  /\ allIgnored listening_hello ignored_trace = true
  /\ allIgnored listening_hello unbound_ignored_trace = true
  /\ onlySession listening_hello (run listening_hello ignored_trace)
  /\ run listening_hello unbound_ignored_trace = listening_hello.
Proof.
  assert (microtasks (heap listening_hello) = []) as M by (vm_compute; reflexivity).
  assert (allIgnored listening_hello ignored_trace = true) as A
    by (vm_compute; reflexivity).
  assert (allIgnored listening_hello unbound_ignored_trace = true) as B
    by (vm_compute; reflexivity).
  split; [exact M|]. split; [exact A|]. split; [exact B|]. split.
  - exact (proj1 (ignored_inputs_change_nothing listening_hello ignored_trace M A)).
  - apply (proj2 (ignored_inputs_change_nothing listening_hello unbound_ignored_trace M B)).
    intros e H. unfold unbound_ignored_trace in H.
    repeat (apply elem_of_cons in H as [->|H]; [reflexivity|]).
    now apply elem_of_nil in H.
Defined.

End OrchestratorFacts.

(** ** Whole runs of the closure *)

Module ClosureRuns.
Import Js Accumulator Engine Observations Scenarios JsFacts EngineTactics Bookkeeping Cases.
Import TurnFacts EndpointerFacts.

#[local] Existing Instance turnFrame_preorder.

(** X14.  The conversation history is append-only: whatever runs, the
    history before is a prefix of the history after. *)
Theorem history_is_append_only (w : World) (es : list Event) :
  conversationHistory (vars w) `prefix_of` conversationHistory (vars (run w es)).
Proof.
  revert w. induction es as [|e es IH]; intros w; [reflexivity|].
  unfold run. cbn [foldl]. fold (run (step w e) es).
  transitivity (conversationHistory (vars (step w e))); [|apply IH].
  destruct (EngineFacts.extends_step w e) as (l & E & _). rewrite E. now exists l.
Qed.

(** X15.  The callbacks of the completion and synthesis streams never touch
    the endpointer: over any sequence of chunks, stream ends, stream errors
    and synthesis timeouts, every closure variable other than
    [currentLLMStream], [currentTTSStream] and [conversationHistory] keeps
    its value, and so do the intervals, the Deepgram streams and the state
    of the socket. *)
Theorem stream_callbacks_leave_endpointer_alone (w : World) (es : list Event) :
  forallb isStreamEvent es = true -> turnFrame w (run w es).
Proof.
  revert w. induction es as [|e es IH]; intros w H; [reflexivity|].
  cbn [forallb] in H. apply andb_prop in H as [He Hes].
  unfold run. cbn [foldl]. fold (run (step w e) es).
  transitivity (step w e); [now apply turnFrame_stream_step|now apply IH].
Qed.

Lemma stream_callbacks_leave_endpointer_alone_witness :
  forallb isStreamEvent [llm_chunk 0 "lo"; llm_end 0; tts_timeout 5] = true
  /\ turnFrame streaming_world
       (run streaming_world [llm_chunk 0 "lo"; llm_end 0; tts_timeout 5]).
Proof.
  split; [reflexivity|].
  exact (stream_callbacks_leave_endpointer_alone streaming_world
           [llm_chunk 0 "lo"; llm_end 0; tts_timeout 5] eq_refl).
Defined.

Lemma finalizeTranscript_timers w :
  timers (heap (finalizeTranscript w)) = timers (heap w)
  /\ silenceCheckInterval (vars (finalizeTranscript w)) = silenceCheckInterval (vars w)
  /\ silenceTimeout (vars (finalizeTranscript w)) = silenceTimeout (vars w).
Proof.
  unfold finalizeTranscript. destruct (_ || _); [auto|]. destruct (bool_decide _); [auto|].
  cbv zeta.
  match goal with |- context [cancelInFlight ?x] => set (X := x) end.
  assert (timers (heap X) = timers (heap w)
          /\ silenceCheckInterval (vars X) = silenceCheckInterval (vars w)
          /\ silenceTimeout (vars X) = silenceTimeout (vars w)) as (T & C & O).
  { unfold X. cbn [vars heap assign]. rewrite !EngineFacts.sendMessage_heap,
      !EngineFacts.sendMessage_vars. cbn. auto. }
  clearbody X.
  match goal with |- timers (heap ?y) = _ /\ _ =>
    assert (turnFrame X y) as (V & T' & _)
  end.
  { pose proof (turnFrame_createOpenAIStream inFinalizeTranscript
                  (trim (pendingText (pendingTranscript (vars w))))
                  (sendMessage (agent_text "" true)
                     (sendMessage (status thinking None) (cancelInFlight X)))) as H.
    destruct (createOpenAIStream _ _ _) as [h y]. cbn [snd] in H.
    transitivity y; [|now apply turnFrame_assign].
    etransitivity; [|exact H].
    etransitivity; [apply turnFrame_cancelInFlight|].
    etransitivity; apply turnFrame_sendMessage. }
  rewrite T', T.
  rewrite (f_equal silenceCheckInterval V
           : silenceCheckInterval (vars _) = silenceCheckInterval (vars _)).
  rewrite (f_equal silenceTimeout V : silenceTimeout (vars _) = silenceTimeout (vars _)).
  auto.
Qed.

Lemma clearSilenceDetection_clears w id :
  silenceCheckInterval (vars w) = Some id ->
  timers (heap (clearSilenceDetection w)) !! id = None
  /\ silenceCheckInterval (vars (clearSilenceDetection w)) = None.
Proof.
  intros C. unfold clearSilenceDetection, clearInterval.
  destruct (silenceTimeout (vars w)); cbn; rewrite C; cbn; now rewrite lookup_delete_eq.
Qed.

Lemma clearSilenceDetection_var w :
  silenceCheckInterval (vars (clearSilenceDetection w)) = None.
Proof.
  unfold clearSilenceDetection, clearInterval.
  destruct (silenceTimeout (vars w)); cbn;
    destruct (silenceCheckInterval (vars w)) eqn:C; cbn; auto.
Qed.

Lemma stop_silence_var w now :
  silenceCheckInterval (vars (step w (frameAt now stop_recording))) = None.
Proof.
  unfold step.
  destruct (turnFrame_drainMicrotasks (handle (frameAt now stop_recording) w)) as (V & _).
  rewrite (f_equal silenceCheckInterval V
           : silenceCheckInterval (vars _) = silenceCheckInterval (vars _)).
  clear V. unfold frameAt, handle, onMessage.
  cbn [browser_session_id msg_type]. change (truthy None) with false.
  cbn [andb dispatch]. cbv zeta. rewrite EngineFacts.sendMessage_vars.
  unfold stopDeepgramStream. cbv zeta.
  match goal with |- context [clearSilenceDetection ?x] =>
    pose proof (clearSilenceDetection_var x) as C; set (w2 := clearSilenceDetection x) in *
  end.
  clearbody w2. unfold dg_close. repeat case_match; cbn; auto.
Qed.

Lemma close_silence_var w : silenceCheckInterval (vars (step w ws_close)) = None.
Proof.
  unfold step.
  destruct (turnFrame_drainMicrotasks (handle ws_close w)) as (V & _).
  rewrite (f_equal silenceCheckInterval V
           : silenceCheckInterval (vars _) = silenceCheckInterval (vars _)).
  clear V. cbn [handle]. unfold onClose. cbv zeta.
  pose proof (clearSilenceDetection_var (set_readyState CLOSED w)) as C.
  set (w2 := clearSilenceDetection (set_readyState CLOSED w)) in *. clearbody w2.
  unfold dg_close, llm_cancel, tts_cancel. repeat case_match; cbn; auto.
Qed.

(** X16.  The silence interval itself is cleared both by [stop_recording]
    and by the close of the socket: after either, its timer is gone from the
    runtime and [silenceCheckInterval] is null. *)
Theorem silence_interval_is_cleared (w : World) (id : nat) (now : Z) :
  silenceCheckInterval (vars w) = Some id ->
  (timers (heap (step w (frameAt now stop_recording))) !! id = None
   /\ silenceCheckInterval (vars (step w (frameAt now stop_recording))) = None)
  /\ (timers (heap (step w ws_close)) !! id = None
      /\ silenceCheckInterval (vars (step w ws_close)) = None).
Proof.
  intros C. split.
  - unfold step.
    destruct (turnFrame_drainMicrotasks (handle (frameAt now stop_recording) w))
      as (V & T & _).
    rewrite T, (f_equal silenceCheckInterval V
                : silenceCheckInterval (vars _) = silenceCheckInterval (vars _)).
    clear V T. unfold frameAt, handle, onMessage.
    cbn [browser_session_id msg_type]. change (truthy None) with false.
    cbn [andb dispatch]. cbv zeta.
    rewrite EngineFacts.sendMessage_heap, EngineFacts.sendMessage_vars.
    unfold stopDeepgramStream. cbv zeta.
    set (w0 := assign set_isRecording false w).
    set (w1 := if hasPending w0 then finalizeTranscript w0 else w0).
    assert (silenceCheckInterval (vars w1) = Some id) as C1.
    { unfold w1. destruct (hasPending w0); [|exact C].
      destruct (finalizeTranscript_timers w0) as (_ & E & _). now rewrite E. }
    clearbody w1. destruct (clearSilenceDetection_clears w1 id C1) as (T2 & C2).
    set (w2 := clearSilenceDetection w1) in *. clearbody w2.
    unfold dg_close. repeat case_match; cbn; auto.
  - unfold step.
    destruct (turnFrame_drainMicrotasks (handle ws_close w)) as (V & T & _).
    rewrite T, (f_equal silenceCheckInterval V
                : silenceCheckInterval (vars _) = silenceCheckInterval (vars _)).
    clear V T. cbn [handle]. unfold onClose. cbv zeta.
    destruct (clearSilenceDetection_clears (set_readyState CLOSED w) id C) as (T2 & C2).
    set (w2 := clearSilenceDetection (set_readyState CLOSED w)) in *. clearbody w2.
    unfold dg_close, llm_cancel, tts_cancel. repeat case_match; cbn; auto.
Qed.

Lemma silence_interval_is_cleared_witness :
  silenceCheckInterval (vars listening_hello) = Some 0
  /\ timers (heap (step listening_hello (frameAt 2000 stop_recording))) !! 0 = None
  /\ timers (heap (step listening_hello ws_close)) !! 0 = None.
Proof.
  assert (silenceCheckInterval (vars listening_hello) = Some 0) as C
    by (vm_compute; reflexivity).
  destruct (silence_interval_is_cleared listening_hello 0 2000%Z C) as ((T1 & _) & (T2 & _)).
  split; [exact C|]. split; [exact T1|exact T2].
Defined.

End ClosureRuns.

(** ** The live intervals *)

Module TimerFacts.
Import Js Accumulator Engine Observations Scenarios JsFacts EngineTactics Bookkeeping Cases.
Import TurnFacts EndpointerFacts.

#[local] Instance keepsTimers_preorder : PreOrder keepsTimers.
Proof.
  split.
  - intros w H. exact H.
  - intros a b c H1 H2 H. apply H2, H1, H.
Qed.

Lemma keepsTimers_same w w' :
  silenceTimeout (vars w') = silenceTimeout (vars w) ->
  silenceCheckInterval (vars w') = silenceCheckInterval (vars w) ->
  timers (heap w') = timers (heap w) ->
  nextId (heap w) <= nextId (heap w') ->
  keepsTimers w w'.
Proof.
  intros O C T N [HO H]. split; [congruence|].
  intros id t L. rewrite T in L. destruct (H id t L) as [I M].
  split; [lia|]. destruct t; [congruence|exact M].
Qed.

Lemma keepsTimers_assign {T} (set : T -> Vars -> Vars) v w :
  (forall x, silenceTimeout (set v x) = silenceTimeout x) ->
  (forall x, silenceCheckInterval (set v x) = silenceCheckInterval x) ->
  keepsTimers w (assign set v w).
Proof. intros O C. apply keepsTimers_same; cbn; auto. Qed.

Lemma keepsTimers_store {T} (set : T -> Heap -> Heap) v w :
  (forall x, timers (set v x) = timers x) ->
  (forall x, nextId (set v x) = nextId x) ->
  keepsTimers w (store set v w).
Proof. intros H1 H2. apply keepsTimers_same; cbn; rewrite ?H1, ?H2; auto. Qed.

Lemma keepsTimers_set_readyState r w : keepsTimers w (set_readyState r w).
Proof. now apply keepsTimers_same. Qed.

Lemma keepsTimers_turnFrame w w' : turnFrame w w' -> keepsTimers w w'.
Proof.
  intros (V & T & _ & _ & _ & N). apply keepsTimers_same; try assumption.
  - exact (f_equal silenceTimeout V).
  - exact (f_equal silenceCheckInterval V).
Qed.

Lemma keepsTimers_clearInterval id w : keepsTimers w (clearInterval id w).
Proof.
  intros [HO H]. split; [exact HO|]. intros i t L. cbn in L.
  apply lookup_delete_Some in L as [_ L]. exact (H i t L).
Qed.

(** Starting a buffer interval for a snapshot that is not blank. *)
Lemma keepsTimers_buffer snap e l f w :
  trim snap <> EmptyString ->
  keepsTimers w (setInterval (bufferCheck snap e l f) w).2.
Proof.
  intros N [HO H]. split; [exact HO|]. intros i t L. cbn in L.
  apply lookup_insert_Some in L as [[<- <-]|[_ L]]; cbn.
  - split; [lia|exact N].
  - destruct (H i t L) as [I M]. split; [lia|exact M].
Qed.

(** A tick rewrites its own row. *)
Lemma keepsTimers_rewrite id t t' w :
  timers (heap w) !! id = Some t ->
  match t, t' with
  | silenceCheck _, silenceCheck _ => True
  | bufferCheck s _ _ _, bufferCheck s' _ _ _ => s' = s
  | _, _ => False
  end ->
  keepsTimers w (store set_timers (<[id := t']> (timers (heap w))) w).
Proof.
  intros L0 R [HO H]. split; [exact HO|]. intros i u L. cbn in L.
  destruct (H id t L0) as [I0 M0].
  apply lookup_insert_Some in L as [[<- <-]|[_ L]]; cbn.
  - split; [exact I0|]. destruct t, t'; try contradiction; [exact M0|now subst].
  - exact (H i u L).
Qed.

Lemma keepsTimers_clearSilenceDetection w : keepsTimers w (clearSilenceDetection w).
Proof.
  intros [HO H]. unfold clearSilenceDetection. rewrite HO.
  destruct (silenceCheckInterval (vars w)) as [id|] eqn:C; [|split; [exact HO|rewrite C; exact H]].
  split; [exact HO|]. intros i t L. cbn in L.
  apply lookup_delete_Some in L as [D L]. destruct (H i t L) as [I M].
  split; [exact I|]. destruct t; [|exact M]. congruence.
Qed.

(** After [clearSilenceDetection] no silence interval is live. *)
Lemma clearSilenceDetection_none w :
  timersOk w ->
  silenceCheckInterval (vars (clearSilenceDetection w)) = None
  /\ forall i c, timers (heap (clearSilenceDetection w)) !! i <> Some (silenceCheck c).
Proof.
  intros [HO H]. unfold clearSilenceDetection. rewrite HO.
  destruct (silenceCheckInterval (vars w)) as [id|] eqn:C.
  - split; [reflexivity|]. intros i c L. cbn in L.
    apply lookup_delete_Some in L as [D L]. destruct (H i _ L) as [_ M]. cbn in M. congruence.
  - split; [exact C|]. intros i c L. destruct (H i _ L) as [_ M]. cbn in M. congruence.
Qed.

Lemma keepsTimers_startSilenceDetection w : keepsTimers w (startSilenceDetection w).
Proof.
  intros T. pose proof (keepsTimers_clearSilenceDetection w T) as [HO H].
  destruct (clearSilenceDetection_none w T) as [_ NS].
  unfold startSilenceDetection. cbv zeta.
  set (x := clearSilenceDetection w) in *. clearbody x.
  split; [exact HO|]. intros i t L. cbn in L.
  apply lookup_insert_Some in L as [[<- <-]|[_ L]]; cbn.
  - split; [lia|reflexivity].
  - destruct (H i t L) as [I M]. split; [lia|].
    destruct t; [now destruct (NS i checkCount)|exact M].
Qed.

Create HintDb keepsTimers.
#[local] Hint Resolve keepsTimers_set_readyState keepsTimers_clearInterval
  keepsTimers_clearSilenceDetection keepsTimers_startSilenceDetection : keepsTimers.
#[local] Hint Resolve turnFrame_sendMessage turnFrame_alloc turnFrame_llm_cancel
  turnFrame_tts_cancel turnFrame_resume_save turnFrame_onToken turnFrame_onComplete
  turnFrame_onError turnFrame_cancelInFlight turnFrame_createOpenAIStream
  turnFrame_processUserMessage turnFrame_drainMicrotasks : keepsTimers.
#[local] Hint Extern 3 (keepsTimers _ _) => apply keepsTimers_turnFrame : keepsTimers.
#[local] Hint Extern 2 (keepsTimers _ (assign _ _ _)) =>
  apply keepsTimers_assign; intros ?; reflexivity : keepsTimers.
#[local] Hint Extern 2 (keepsTimers _ (store _ _ _)) =>
  apply keepsTimers_store; intros ?; reflexivity : keepsTimers.

Ltac keepsTimers_prim := solve [eauto 3 with keepsTimers].

#[local] Opaque keepsTimers turnFrame.

Lemma keepsTimers_checkForFinalTranscript t w : keepsTimers w (checkForFinalTranscript t w).
Proof. unfold checkForFinalTranscript. peel keepsTimers_prim. Qed.
Lemma keepsTimers_onTranscript t f n w : keepsTimers w (onTranscript t f n w).
Proof. unfold onTranscript. peel keepsTimers_prim. Qed.
#[local] Hint Resolve keepsTimers_checkForFinalTranscript keepsTimers_onTranscript
  : keepsTimers.
Lemma keepsTimers_startDeepgramStream w : keepsTimers w (startDeepgramStream w).
Proof. unfold startDeepgramStream. peel keepsTimers_prim. Qed.
Lemma keepsTimers_finalizeTranscript w : keepsTimers w (finalizeTranscript w).
Proof. unfold finalizeTranscript. peel keepsTimers_prim. Qed.
Lemma keepsTimers_dg_close h w : keepsTimers w (dg_close h w).
Proof. unfold dg_close. peel keepsTimers_prim. Qed.
Lemma keepsTimers_dg_write h a w : keepsTimers w (dg_write h a w).
Proof. unfold dg_write. peel keepsTimers_prim. Qed.
#[local] Hint Resolve keepsTimers_startDeepgramStream keepsTimers_finalizeTranscript
  keepsTimers_dg_close keepsTimers_dg_write : keepsTimers.
Lemma keepsTimers_stopDeepgramStream w : keepsTimers w (stopDeepgramStream w).
Proof. unfold stopDeepgramStream. peel keepsTimers_prim. Qed.
#[local] Hint Resolve keepsTimers_stopDeepgramStream : keepsTimers.
Lemma keepsTimers_dispatch m now w : keepsTimers w (dispatch m now w).
Proof. unfold dispatch. peel keepsTimers_prim. Qed.
#[local] Hint Resolve keepsTimers_dispatch : keepsTimers.
Lemma keepsTimers_onMessage d now w : keepsTimers w (onMessage d now w).
Proof. unfold onMessage. peel keepsTimers_prim. Qed.
Lemma keepsTimers_onClose w : keepsTimers w (onClose w).
Proof. unfold onClose. peel keepsTimers_prim. Qed.
#[local] Hint Resolve keepsTimers_onMessage keepsTimers_onClose : keepsTimers.

(** The two interval callbacks, run for a live interval. *)
Lemma keepsTimers_bufferTick id now t e l f w :
  timers (heap w) !! id = Some (bufferCheck t e l f) ->
  keepsTimers w (bufferTick id now t e l f w).
Proof.
  intros L. unfold bufferTick. cbv zeta.
  repeat (match goal with |- keepsTimers _ (if ?c then _ else _) => destruct c end);
    try (apply (keepsTimers_rewrite id (bufferCheck t e l f)); [exact L|reflexivity]);
    (transitivity (clearInterval id w); [keepsTimers_prim|keepsTimers_prim]).
Qed.

Lemma keepsTimers_silenceTick id now c w :
  timers (heap w) !! id = Some (silenceCheck c) ->
  keepsTimers w (silenceTick id now c w).
Proof.
  intros L. unfold silenceTick. cbv zeta.
  set (x := store set_timers (<[id := silenceCheck (S c)]> (timers (heap w))) w).
  assert (keepsTimers w x) as Hx
    by (apply (keepsTimers_rewrite id (silenceCheck c)); [exact L|exact I]).
  clearbody x.
  destruct (negb _); [exact Hx|].
  destruct (_ && _) eqn:G; [|exact Hx].
  apply andb_prop in G as [_ G].
  transitivity (assign set_llmCallPending true x); [peel keepsTimers_prim|].
  apply keepsTimers_buffer. cbn [vars assign pendingTranscript set_llmCallPending].
  rewrite trim_trim. unfold hasPending in G. apply andb_prop in G as [_ G].
  apply Nat.ltb_lt in G. intros E. rewrite E in G. simpl in G. lia.
Qed.

Lemma keepsTimers_handle e w : keepsTimers w (handle e w).
Proof.
  destruct e; unfold handle, running; try (peel keepsTimers_prim).
  destruct (timers (heap w) !! id) as [[c|t e l f]|] eqn:L; [| |reflexivity].
  - now apply keepsTimers_silenceTick.
  - now apply keepsTimers_bufferTick.
Qed.

Lemma keepsTimers_step w e : keepsTimers w (step w e).
Proof.
  unfold step. transitivity (handle e w); [apply keepsTimers_handle|keepsTimers_prim].
Qed.

#[local] Transparent keepsTimers turnFrame.

Lemma reachable_timersOk (apiKey : bool) (es : list Event) :
  timersOk (run (connect apiKey) es).
Proof.
  assert (forall w, timersOk w -> timersOk (run w es)) as H.
  { induction es as [|e es IH]; intros w Hw; [exact Hw|].
    unfold run. cbn [foldl]. apply IH. now apply keepsTimers_step. }
  apply H. split; [reflexivity|]. intros id t L. unfold connect in L.
  rewrite EngineFacts.sendMessage_heap in L. cbn in L. now rewrite lookup_empty in L.
Qed.

(** X17.  In every state the closure reaches, at most one silence interval
    is live, and it is the one [silenceCheckInterval] holds; so once
    [stop_recording] or the close of the socket has cleared it, the only
    intervals that can still fire are buffer intervals, and every one of
    them captured a transcript that is not blank. *)
Theorem silence_interval_is_unique (apiKey : bool) (es : list Event) :
  let w := run (connect apiKey) es in
  (forall id c, timers (heap w) !! id = Some (silenceCheck c) ->
                silenceCheckInterval (vars w) = Some id)
  /\ (forall id id' c c',
        timers (heap w) !! id = Some (silenceCheck c) ->
        timers (heap w) !! id' = Some (silenceCheck c') -> id = id')
  /\ (forall id snap e l f,
        timers (heap w) !! id = Some (bufferCheck snap e l f) -> trim snap <> EmptyString)
  /\ (forall now e,
        e = frameAt now stop_recording \/ e = ws_close ->
        forall id c, timers (heap (step w e)) !! id <> Some (silenceCheck c)).
Proof.
  cbv zeta. pose proof (reachable_timersOk apiKey es) as T.
  set (w := run (connect apiKey) es) in *.
  assert (forall id c, timers (heap w) !! id = Some (silenceCheck c) ->
                       silenceCheckInterval (vars w) = Some id) as U.
  { intros id c L. destruct T as [_ H]. now destruct (H id _ L). }
  split; [exact U|]. split; [|split].
  - intros id id' c c' L L'. apply U in L, L'. congruence.
  - intros id snap e l f L. destruct T as [_ H]. now destruct (H id _ L).
  - intros now e He id c L.
    pose proof (keepsTimers_step w e T) as [_ H]. destruct (H id _ L) as [_ M]. cbn in M.
    destruct He as [-> | ->].
    + rewrite ClosureRuns.stop_silence_var in M. discriminate.
    + rewrite ClosureRuns.close_silence_var in M. discriminate.
Qed.

End TimerFacts.


(** ** Recording, audio and disconnect *)

Module RecordingFacts.
Import Js Accumulator Engine Observations Scenarios JsFacts EngineTactics Bookkeeping Cases.
Import TurnFacts EndpointerFacts.

#[local] Existing Instance EngineFacts.noTurn_preorder.
#[local] Hint Resolve EngineFacts.noTurn_store EngineFacts.noTurn_sendMessage
  EngineFacts.noTurn_clearSilenceDetection EngineFacts.noTurn_dg_close
  EngineFacts.noTurn_drainMicrotasks : noTurn.
#[local] Hint Extern 1 (noTurn _ (assign _ _ _)) =>
  apply EngineFacts.noTurn_assign; intros ?; reflexivity : noTurn.

Lemma resume_save_llmStreams k w :
  llmStreams (heap (resume_save k w)) = llmStreams (heap w).
Proof.
  destruct k as [[c|] u r|[c|]]; cbn [resume_save]; try destruct c;
    cbn; now rewrite ?EngineFacts.sendMessage_heap.
Qed.

Lemma drain_llmStreams w : llmStreams (heap (drainMicrotasks w)) = llmStreams (heap w).
Proof.
  unfold drainMicrotasks.
  change (llmStreams (heap w)) with (llmStreams (heap (store set_microtasks [] w))).
  generalize (store set_microtasks [] w) as x. generalize (microtasks (heap w)) as l.
  induction l as [|k l IH]; intros x; [reflexivity|].
  cbn [foldl]. now rewrite IH, resume_save_llmStreams.
Qed.

(** X18.  [stop_recording] without a pending transcript (null, empty or
    blank) submits nothing: no user turn is appended and no completion is
    started. *)
Theorem stop_without_pending_submits_nothing (w : World) (now : Z) :
  hasPending w = false ->
  newTurns w (frameAt now stop_recording) = []
  /\ llmStreams (heap (step w (frameAt now stop_recording))) = llmStreams (heap w).
Proof.
  intros P.
  assert (hasPending (assign set_isRecording false w) = false) as P' by exact P.
  split.
  - assert (noTurn w (step w (frameAt now stop_recording))) as (l & El & Fl).
    { unfold step, frameAt, handle, onMessage.
      cbn [browser_session_id msg_type]. change (truthy None) with false.
      cbn [andb dispatch]. unfold stopDeepgramStream. rewrite P'.
      peel EngineFacts.noTurn_prim. }
    now rewrite (EngineFacts.newTurns_intro w _ l El).
  - unfold step. rewrite drain_llmStreams. unfold frameAt, handle, onMessage.
    cbn [browser_session_id msg_type]. change (truthy None) with false.
    cbn [andb dispatch]. cbv zeta. rewrite EngineFacts.sendMessage_heap.
    unfold stopDeepgramStream. rewrite P'. cbv zeta.
    unfold clearSilenceDetection, clearInterval, dg_close.
    repeat case_match; reflexivity.
Qed.

Lemma stop_without_pending_submits_nothing_witness :
  hasPending (connect true) = false
  /\ newTurns (connect true) (frameAt 0 stop_recording) = [].
Proof.
  split; [reflexivity|].
  exact (proj1 (stop_without_pending_submits_nothing (connect true) 0%Z eq_refl)).
Defined.

(** One audio chunk while recording. *)
Lemma audio_step w h d t a :
  microtasks (heap w) = [] ->
  isRecording (vars w) = true -> deepgramStream (vars w) = Some h ->
  dgStreams (heap w) !! h = Some d ->
  step w (audioFrame (t, a))
  = if truthy (Some a)
    then store set_dgStreams
           (<[h := {| written := written d ++ [a]; closed := closed d |}]>
              (dgStreams (heap w)))
           (assign set_lastAudioChunkTime (Some t) w)
    else w.
Proof.
  intros M R D L. unfold step, audioFrame, handle, onMessage.
  cbn [browser_session_id msg_type fst snd]. change (truthy None) with false.
  cbn [andb dispatch pendingText from_option Datatypes.id].
  destruct (truthy (Some a)); cbn [negb].
  - rewrite D, R. unfold dg_write. cbn [heap assign]. rewrite L.
    rewrite EngineFacts.drain_nil by exact M. now rewrite store_microtasks_nil.
  - rewrite EngineFacts.drain_nil by exact M. now rewrite store_microtasks_nil.
Qed.

(** X19.  While recording, audio chunks reach the Deepgram stream in the
    order of their frames (empty ones are dropped), and they change nothing
    else but [lastAudioChunkTime]: no other closure variable (in particular
    not the silence clock [lastTranscriptTime]), no interval, no completion
    and nothing on the wire. *)
Theorem audio_is_forwarded_in_order
    (w : World) (h : nat) (d : DeepgramStream) (chunks : list (Z * string)) :
  microtasks (heap w) = [] ->
  isRecording (vars w) = true -> deepgramStream (vars w) = Some h ->
  dgStreams (heap w) !! h = Some d ->
  let w' := run w (map audioFrame chunks) in
  dgStreams (heap w') !! h
  = Some {| written := written d ++ filter (fun a => a <> EmptyString) (map snd chunks);
            closed := closed d |}
  /\ set_lastAudioChunkTime None (vars w') = set_lastAudioChunkTime None (vars w)
  /\ sock w' = sock w
  /\ timers (heap w') = timers (heap w)
  /\ llmStreams (heap w') = llmStreams (heap w).
Proof.
  revert w d. induction chunks as [|[t a] chunks IH]; intros w d M R D L; cbv zeta.
  - cbn. rewrite app_nil_r. destruct d; auto.
  - cbn [map]. unfold run. cbn [foldl]. fold (run (step w (audioFrame (t, a))) (map audioFrame chunks)).
    rewrite (audio_step w h d t a M R D L). cbn [snd filter list_filter].
    destruct a as [|c a]; cbn [truthy].
    + rewrite decide_False by (intros H; now apply H). now apply IH.
    + rewrite decide_True by discriminate.
      set (d1 := {| written := written d ++ [String c a]; closed := closed d |}).
      set (w1 := store set_dgStreams _ _).
      destruct (IH w1 d1) as (W & V & S & T & K); try assumption.
      { unfold w1. cbn. apply lookup_insert_eq. }
      rewrite W, V, S, T, K. unfold d1. cbn. rewrite <- app_assoc. auto.
Qed.

Lemma lastTranscriptTime_audio v x :
  lastTranscriptTime (set_lastAudioChunkTime v x) = lastTranscriptTime x.
Proof. reflexivity. Qed.

Lemma audio_is_forwarded_in_order_witness :
  isRecording (vars listening_hello) = true
  /\ deepgramStream (vars listening_hello) = Some 1
  /\ (written <$> dgStreams (heap (run listening_hello
                                    (map audioFrame [(1100%Z, "AAAA"); (1200%Z, "");
                                                     (1300%Z, "BBBB")]))) !! 1)
     = Some ["AAAA"; "BBBB"]
  /\ lastTranscriptTime
       (vars (run listening_hello
                (map audioFrame [(1100%Z, "AAAA"); (1200%Z, ""); (1300%Z, "BBBB")])))
     = Some 1000%Z.
Proof.
  assert (isRecording (vars listening_hello) = true) as R by (vm_compute; reflexivity).
  assert (deepgramStream (vars listening_hello) = Some 1) as D by (vm_compute; reflexivity).
  assert (dgStreams (heap listening_hello) !! 1 = Some {| written := []; closed := false |})
    as L by (vm_compute; reflexivity).
  assert (lastTranscriptTime (vars listening_hello) = Some 1000%Z) as T
    by (vm_compute; reflexivity).
  assert (microtasks (heap listening_hello) = []) as M by (vm_compute; reflexivity).
  split; [exact R|]. split; [exact D|].
  destruct (audio_is_forwarded_in_order listening_hello 1 _
              [(1100%Z, "AAAA"); (1200%Z, ""); (1300%Z, "BBBB")] M R D L)
    as (W & V & _).
  split; [rewrite W; reflexivity|].
  pose proof (f_equal lastTranscriptTime V) as V'.
  rewrite !lastTranscriptTime_audio in V'. rewrite V'. exact T.
Defined.

(** X20.  The close of the socket cancels what is in flight: the socket is
    closed, the completion the closure holds is aborted, the synthesis it
    holds is cancelled and its Deepgram stream is closed; the handles and
    the pending transcript stay in the closure's variables, and nothing is
    sent or recorded. *)
Theorem close_cancels_what_is_in_flight (w : World) :
  microtasks (heap w) = [] ->
  let w' := step w ws_close in
  readyState (sock w') = CLOSED
  /\ wire (sock w') = wire (sock w)
  /\ conversationHistory (vars w') = conversationHistory (vars w)
  /\ pendingTranscript (vars w') = pendingTranscript (vars w)
  /\ currentLLMStream (vars w') = currentLLMStream (vars w)
  /\ currentTTSStream (vars w') = currentTTSStream (vars w)
  /\ deepgramStream (vars w') = deepgramStream (vars w)
  /\ (forall h st, currentLLMStream (vars w) = Some h ->
        llmStreams (heap w) !! h = Some st -> controller st <> None ->
        (controller <$> llmStreams (heap w') !! h) = Some (Some true))
  /\ (forall h st, currentTTSStream (vars w) = Some h ->
        ttsStreams (heap w) !! h = Some st ->
        (cancelled <$> ttsStreams (heap w') !! h) = Some true)
  /\ (forall h st, deepgramStream (vars w) = Some h ->
        dgStreams (heap w) !! h = Some st ->
        (closed <$> dgStreams (heap w') !! h) = Some true).
Proof.
  intros M. cbv zeta. unfold step. cbn [handle]. unfold onClose. cbv zeta.
  set (w1 := assign set_lastAudioChunkTime None
               (assign set_lastTranscriptTime None
                  (clearSilenceDetection (set_readyState CLOSED w)))).
  assert (sock w1 = sock (set_readyState CLOSED w)
          /\ conversationHistory (vars w1) = conversationHistory (vars w)
          /\ pendingTranscript (vars w1) = pendingTranscript (vars w)
          /\ currentLLMStream (vars w1) = currentLLMStream (vars w)
          /\ currentTTSStream (vars w1) = currentTTSStream (vars w)
          /\ deepgramStream (vars w1) = deepgramStream (vars w)
          /\ llmStreams (heap w1) = llmStreams (heap w)
          /\ ttsStreams (heap w1) = ttsStreams (heap w)
          /\ dgStreams (heap w1) = dgStreams (heap w)
          /\ microtasks (heap w1) = []) as (S1 & H1 & P1 & C1 & T1 & D1 & L1 & K1 & G1 & M1).
  { unfold w1, clearSilenceDetection, clearInterval.
    repeat case_match; cbn; auto 12. }
  clearbody w1.
  set (w2 := match deepgramStream (vars w1) with Some h => dg_close h w1 | None => w1 end).
  assert (vars w2 = vars w1 /\ sock w2 = sock w1 /\ llmStreams (heap w2) = llmStreams (heap w1)
          /\ ttsStreams (heap w2) = ttsStreams (heap w1) /\ microtasks (heap w2) = []
          /\ (forall h st, deepgramStream (vars w1) = Some h ->
                dgStreams (heap w1) !! h = Some st ->
                (closed <$> dgStreams (heap w2) !! h) = Some true))
    as (V2 & S2 & L2 & K2 & M2 & G2).
  { unfold w2, dg_close. destruct (deepgramStream (vars w1)) as [h|]; [|now auto 10].
    destruct (dgStreams (heap w1) !! h) as [st|] eqn:E; [|repeat split; auto; congruence].
    repeat split; auto. intros h' st' [= <-] _. cbn. now rewrite lookup_insert_eq. }
  clearbody w2.
  set (w3 := match currentLLMStream (vars w2) with Some h => llm_cancel h w2 | None => w2 end).
  assert (vars w3 = vars w2 /\ sock w3 = sock w2 /\ dgStreams (heap w3) = dgStreams (heap w2)
          /\ ttsStreams (heap w3) = ttsStreams (heap w2) /\ microtasks (heap w3) = []
          /\ (forall h st, currentLLMStream (vars w2) = Some h ->
                llmStreams (heap w2) !! h = Some st -> controller st <> None ->
                (controller <$> llmStreams (heap w3) !! h) = Some (Some true)))
    as (V3 & S3 & G3 & K3 & M3 & L3).
  { unfold w3, llm_cancel. destruct (currentLLMStream (vars w2)) as [h|]; [|now auto 10].
    destruct (llmStreams (heap w2) !! h) as [st|] eqn:E; [|repeat split; auto; congruence].
    destruct (controller st) eqn:EC; [|repeat split; auto; congruence].
    repeat split; auto. intros h' st' [= <-] _ _. cbn. now rewrite lookup_insert_eq. }
  clearbody w3.
  set (w4 := match currentTTSStream (vars w3) with Some h => tts_cancel h w3 | None => w3 end).
  assert (vars w4 = vars w3 /\ sock w4 = sock w3 /\ dgStreams (heap w4) = dgStreams (heap w3)
          /\ llmStreams (heap w4) = llmStreams (heap w3) /\ microtasks (heap w4) = []
          /\ (forall h st, currentTTSStream (vars w3) = Some h ->
                ttsStreams (heap w3) !! h = Some st ->
                (cancelled <$> ttsStreams (heap w4) !! h) = Some true))
    as (V4 & S4 & G4 & L4 & M4 & K4).
  { unfold w4, tts_cancel. destruct (currentTTSStream (vars w3)) as [h|]; [|now auto 10].
    destruct (ttsStreams (heap w3) !! h) as [st|] eqn:E; [|repeat split; auto; congruence].
    repeat split; auto. intros h' st' [= <-] _. cbn. now rewrite lookup_insert_eq. }
  clearbody w4.
  rewrite EngineFacts.drain_nil by exact M4. cbn [vars heap sock store].
  rewrite V4, V3, V2, S4, S3, S2, S1, H1, P1, C1, T1, D1.
  cbn [set_microtasks llmStreams ttsStreams dgStreams].
  repeat (split; [reflexivity|]). split; [|split].
  - intros h st C L N. rewrite L4. apply (L3 h st); [congruence|congruence|exact N].
  - intros h st C L. apply (K4 h st); congruence.
  - intros h st C L. rewrite G4, G3. apply (G2 h st); congruence.
Qed.

Lemma close_cancels_what_is_in_flight_witness :
  microtasks (heap streaming_world) = []
  /\ currentLLMStream (vars streaming_world) = Some 0
  /\ readyState (sock (step streaming_world ws_close)) = CLOSED
  /\ (controller <$> llmStreams (heap (step streaming_world ws_close)) !! 0)
     = Some (Some true).
Proof.
  assert (microtasks (heap streaming_world) = []) as M by (vm_compute; reflexivity).
  assert (currentLLMStream (vars streaming_world) = Some 0) as C by (vm_compute; reflexivity).
  assert (llmStreams (heap streaming_world) !! 0
          = Some {| origin := inProcessUserMessage true; userText := "hi";
                    messages := [(user, "hi")]; responseText := "Hel";
                    fullText := "Hel"; controller := Some false; settled := false |}) as L
    by (vm_compute; reflexivity).
  destruct (close_cancels_what_is_in_flight streaming_world M)
    as (R & _ & _ & _ & _ & _ & _ & A & _).
  split; [exact M|]. split; [exact C|]. split; [exact R|].
  apply (A 0 _ C L). discriminate.
Defined.

End RecordingFacts.


(** ** The HTTP side *)

Module ServerFacts.
Import Js JsFacts HttpServer HttpCases.

Lemma prefix_unit c s :
  String.prefix (String c EmptyString) s = true -> exists r, s = String c r.
Proof.
  destruct s as [|d r]; [discriminate|]. cbn.
  destruct (ascii_dec c d) as [->|]; [eauto|discriminate].
Qed.

(** [s.includes(c)] for a one-unit string is membership of the unit. *)
Lemma includes_unit c s : includes s (String c EmptyString) = true <-> c ∈ units s.
Proof.
  induction s as [|d s IH]; cbn [includes units].
  - split; [discriminate|]. intros H. inversion H.
  - rewrite orb_true_iff, IH. split.
    + intros [H|H]; [|now right].
      apply prefix_unit in H as [r E]. injection E as ->. left.
    + intros H. apply elem_of_cons in H as [->|H]; [|now right].
      left. cbn. destruct (ascii_dec d d); [|congruence]. now destruct s.
Qed.

Lemma containsCurlyBraces_spec s :
  containsCurlyBraces (Some s) = true <-> exists c, c ∈ units s /\ isBrace c = true.
Proof.
  unfold containsCurlyBraces. destruct s as [|a s]; cbn [truthy negb].
  - split; [discriminate|]. intros (c & H & _). inversion H.
  - cbn [default from_option id]. rewrite orb_true_iff, !includes_unit. split.
    + intros [H|H]; eexists; (split; [exact H|reflexivity]).
    + intros (c & H & B). unfold isBrace in B. apply orb_prop in B as [B|B];
        apply Ascii.eqb_eq in B; subst c; auto.
Qed.

(** X21.  The history endpoint never returns a curly brace in an agent
    reply: a stored reply that contains [{] or [}] anywhere (a raw booking
    object, a JSON fragment) comes back as the empty string, every other
    reply comes back unchanged, and entries keep their number, order and
    user text. *)
Theorem history_hides_braces (docs : list ConversationDoc) :
  map transcript (entries docs) = map userText docs
  /\ Forall (fun e => forall s c, llm_response e = Some s -> c ∈ units s -> isBrace c = false)
       (entries docs)
  /\ Forall (fun d =>
       llm_response (entryOf d)
       = match agentText d with
         | Some s => if existsb isBrace (units s) then Some EmptyString else Some s
         | None => None
         end) docs.
Proof.
  assert (forall s, containsCurlyBraces (Some s) = existsb isBrace (units s)) as C.
  { intros s. apply eq_true_iff_eq. rewrite containsCurlyBraces_spec, existsb_exists.
    split; intros (c & H & B); exists c; (split; [|exact B]).
    - now apply list_elem_of_In.
    - now apply list_elem_of_In. }
  split; [|split].
  - unfold entries. rewrite map_map. reflexivity.
  - unfold entries. apply Forall_forall. intros e He.
    apply list_elem_of_fmap in He as (d & -> & _). intros s c.
    unfold entryOf. cbn [llm_response].
    destruct (agentText d) as [t|]; [|cbn; discriminate].
    rewrite C. destruct (existsb isBrace (units t)) eqn:E.
    + intros [= <-] H. inversion H.
    + intros [= <-] H. destruct (isBrace c) eqn:B; [|reflexivity].
      assert (existsb isBrace (units t) = true) as E'
        by (apply existsb_exists; exists c; split; [now apply list_elem_of_In|exact B]).
      congruence.
  - apply Forall_forall. intros d _. unfold entryOf. cbn [llm_response].
    destruct (agentText d) as [t|]; [|reflexivity]. now rewrite C.
Qed.

Lemma history_hides_braces_witness :
  map llm_response (entries stored_docs) = [Some "Hello, how can I help?"; Some EmptyString]
  /\ map transcript (entries stored_docs) = ["hello"; "Yes, book the appointment"].
Proof.
  destruct (history_hides_braces stored_docs) as (T & _ & R).
  split; [|exact T].
  apply Forall_cons in R as [R1 R]. apply Forall_cons in R as [R2 _].
  unfold entries. cbn [map stored_docs]. rewrite R1, R2. reflexivity.
Defined.

Lemma get_orElse key body : get key (orElse body (Some (JObject []))) = get key body.
Proof.
  unfold orElse. destruct (truthyValue body) eqn:T; [reflexivity|].
  destruct body as [[]|]; cbn in *; try reflexivity; discriminate.
Qed.

Lemma truthy_get key v : truthyValue (get key v) = true -> exists fs, v = Some (JObject fs).
Proof. destruct v as [[]|]; cbn; try discriminate. eauto. Qed.

Lemma isString_spec s v : isString s v = true <-> v = Some (JString s).
Proof.
  destruct v as [[]|]; cbn; try (split; [discriminate|congruence]).
  rewrite String.eqb_eq. split; congruence.
Qed.

Lemma isTypeOf_spec t v : isTypeOf t v = true <-> typeof v = t.
Proof. unfold isTypeOf. destruct t, (typeof v); split; congruence. Qed.

(** The session identifier of the request is truthy exactly when the
    metadata carries a truthy one or the header is a string that is not
    empty. *)
Lemma session_spec metadata header :
  truthyValue
    (orElse
       (orElse (if truthyValue metadata then get "browser_session_id" metadata else metadata)
          (JString <$> header))
       (Some JNull))
  = truthyValue (get "browser_session_id" metadata) || truthy header.
Proof.
  assert (truthyValue (if truthyValue metadata then get "browser_session_id" metadata
                       else metadata)
          = truthyValue (get "browser_session_id" metadata)) as E.
  { destruct (truthyValue metadata) eqn:T; [reflexivity|].
    destruct metadata as [[]|]; cbn in *; congruence. }
  unfold orElse at 2. rewrite E.
  destruct (truthyValue (get "browser_session_id" metadata)) eqn:G.
  - unfold orElse. destruct (truthyValue metadata); now rewrite ?E, ?G.
  - unfold orElse. destruct header as [[|a h]|]; reflexivity.
Qed.

(** The route answers by its guards, then by the database. *)
Lemma bookAppointment_spec sv body header :
  bookAppointment sv body header
  = if accepts sv body header
    then if createBooking sv
         then {| statusCode := 200;
                 effects :=
                   bookingCreated ::
                   (if hasEmail (match get "email" (get "payload" body) with
                                 | None => Some JNull | v => v end)
                    then if sendAppointmentConfirmationEmail sv
                         then if scheduleMeeting sv
                              then [emailSent; meetingScheduled] else [emailSent]
                         else []
                    else []) |}
         else {| statusCode := 500; effects := [] |}
    else {| statusCode := 400; effects := [] |}.
Proof.
  unfold accepts, bookAppointment. cbv zeta. rewrite !get_orElse, session_spec.
  destruct (isString "book_appointment" (get "action" body));
    cbn [negb orb andb]; [|reflexivity].
  destruct (truthyValue (get "payload" body)); cbn [negb orb andb]; [|reflexivity].
  destruct (isTypeOf t_object (get "payload" body)); cbn [negb orb andb]; [|reflexivity].
  destruct (truthyValue (get "name" (get "payload" body)));
    cbn [negb orb andb]; [|reflexivity].
  destruct (truthyValue (get "contact_number" (get "payload" body)));
    cbn [negb orb andb]; [|reflexivity].
  destruct (truthyValue (get "medical_concern" (get "payload" body)));
    cbn [negb orb andb]; [|reflexivity].
  destruct (truthyValue (get "appointment_datetime" (get "payload" body)));
    cbn [negb orb andb]; [|reflexivity].
  destruct (isTypeOf t_number (get "age" (get "payload" body)));
    cbn [negb orb andb]; [|reflexivity].
  destruct (truthyValue (get "browser_session_id" (get "metadata" body)) || truthy header);
    cbn [negb orb andb]; [|reflexivity].
  destruct (validDate sv (default JNull (get "appointment_datetime" (get "payload" body))));
    cbn [negb orb andb]; [|reflexivity].
  now destruct (createBooking sv).
Qed.

Lemma bookAppointment_accepts sv body header :
  accepts sv body header = false ->
  statusCode (bookAppointment sv body header) = 400
  /\ effects (bookAppointment sv body header) = [].
Proof. intros A. rewrite bookAppointment_spec, A. auto. Qed.

Lemma bookAppointment_accepted sv body header :
  accepts sv body header = true ->
  bookAppointment sv body header
  = if createBooking sv
    then {| statusCode := 200;
            effects :=
              bookingCreated ::
              (if hasEmail (match get "email" (get "payload" body) with
                            | None => Some JNull | v => v end)
               then if sendAppointmentConfirmationEmail sv
                    then if scheduleMeeting sv
                         then [emailSent; meetingScheduled] else [emailSent]
                    else []
               else []) |}
    else {| statusCode := 500; effects := [] |}.
Proof. intros A. now rewrite bookAppointment_spec, A. Qed.

Lemma accepts_spec sv body header :
  accepts sv body header = true <-> validRequest sv body header.
Proof.
  unfold accepts, validRequest. cbv zeta.
  rewrite !andb_true_iff, orb_true_iff, isString_spec, !isTypeOf_spec. split.
  - intros (((((((((A & P) & O) & N) & C) & M) & D) & G) & S) & V).
    repeat split; try assumption.
    destruct (get "appointment_datetime" (get "payload" body)) as [raw|]; [|discriminate].
    exists raw. auto.
  - intros (A & O & N & C & M & G & (raw & D & T & V) & S).
    rewrite D. repeat split; try assumption.
    apply truthy_get in N as [fs ->]. reflexivity.
Qed.

(** X22.  [POST /book-appointment] creates a booking exactly for a request
    that passes every guard (the action, the required fields, a numeric
    age, a session identifier in the metadata or in the header, a valid
    date) when the database accepts it, and answers 200 exactly then; a
    request that fails a guard is answered 400, and neither 400 nor 500
    leaves any effect behind. *)
Theorem booking_needs_a_valid_request
    (sv : Services) (body : Value) (header : option string) :
  let r := bookAppointment sv body header in
  (statusCode r = 200 <-> validRequest sv body header /\ createBooking sv = true)
  /\ (bookingCreated ∈ effects r <-> statusCode r = 200)
  /\ (~ validRequest sv body header -> statusCode r = 400)
  /\ (statusCode r <> 200 -> effects r = []).
Proof.
  cbv zeta. rewrite <- accepts_spec.
  destruct (accepts sv body header) eqn:A.
  - rewrite (bookAppointment_accepted sv body header A).
    destruct (createBooking sv); cbn [statusCode effects].
    + split; [tauto|]. split; [|split].
      * split; [reflexivity|]. intros _. left.
      * intros H. now destruct H.
      * intros H. now destruct H.
    + split; [split; [discriminate|intros [_ H]; discriminate H]|].
      split; [|split].
      * split; [intros H; inversion H|discriminate].
      * intros H. now destruct H.
      * reflexivity.
  - destruct (bookAppointment_accepts sv body header A) as [S E]. rewrite S, E.
    split; [split; [discriminate|intros [H _]; discriminate H]|].
    split; [|split].
    + split; [intros H; inversion H|discriminate].
    + reflexivity.
    + reflexivity.
Qed.

Lemma booking_needs_a_valid_request_witness :
  validRequest calendar_down booking_body None
  /\ statusCode (bookAppointment calendar_down booking_body None) = 200
  /\ statusCode (bookAppointment calendar_down (Some (JObject [])) (Some "browser-1")) = 400.
Proof.
  assert (validRequest calendar_down booking_body None) as V.
  { repeat split; try reflexivity. eexists. repeat split; reflexivity. left. reflexivity. }
  split; [exact V|]. split.
  - apply (proj1 (booking_needs_a_valid_request calendar_down booking_body None)).
    split; [exact V|reflexivity].
  - apply (proj1 (proj2 (proj2 (booking_needs_a_valid_request calendar_down
                                  (Some (JObject [])) (Some "browser-1"))))).
    intros (A & _). discriminate A.
Defined.

(** X23.  The confirmation e-mail and the calendar meeting never decide
    the answer: the status code is the same whether they succeed or throw.
    A meeting is scheduled only after the e-mail was sent, and an e-mail is
    sent only after the booking was created, to a request whose [email] is a
    string that is not blank. *)
Theorem email_and_calendar_are_best_effort
    (sv : Services) (body : Value) (header : option string) :
  let r := bookAppointment sv body header in
  (forall mail cal,
      statusCode (bookAppointment
                    {| validDate := validDate sv; createBooking := createBooking sv;
                       sendAppointmentConfirmationEmail := mail; scheduleMeeting := cal |}
                    body header)
      = statusCode r)
  /\ (meetingScheduled ∈ effects r ->
      emailSent ∈ effects r /\ scheduleMeeting sv = true)
  /\ (emailSent ∈ effects r ->
      bookingCreated ∈ effects r
      /\ sendAppointmentConfirmationEmail sv = true
      /\ exists s, get "email" (get "payload" body) = Some (JString s)
                   /\ trim s <> EmptyString).
Proof.
  cbv zeta.
  destruct (accepts sv body header) eqn:A.
  - split.
    { intros mail cal.
      rewrite (bookAppointment_accepted sv body header A).
      rewrite bookAppointment_accepted by exact A. cbn [createBooking].
      now destruct (createBooking sv). }
    rewrite (bookAppointment_accepted sv body header A).
    destruct (createBooking sv); cbn [effects];
      [|split; intros H; inversion H].
    assert (forall email, hasEmail email = true ->
              exists s, email = Some (JString s) /\ trim s <> EmptyString) as HE.
    { intros email H. unfold hasEmail in H.
      apply andb_prop in H as [H L]. apply andb_prop in H as [_ T].
      destruct email as [[]|]; try discriminate.
      apply Nat.ltb_lt in L. eexists. split; [reflexivity|].
      intros E. rewrite E in L. simpl in L. lia. }
    destruct (hasEmail _) eqn:E.
    + apply HE in E as (s & E & N).
      assert (get "email" (get "payload" body) = Some (JString s)) as G
        by (destruct (get "email" (get "payload" body)); congruence).
      destruct (sendAppointmentConfirmationEmail sv), (scheduleMeeting sv);
        split; intros H; repeat (apply elem_of_cons in H as [H|H]; try discriminate H);
        try (inversion H; fail); repeat split; eauto; set_solver.
    + split; intros H; repeat (apply elem_of_cons in H as [H|H]; try discriminate H);
        inversion H.
  - destruct (bookAppointment_accepts sv body header A) as [S E]. rewrite S, E.
    split; [|split; intros H; inversion H].
    intros mail cal. now apply bookAppointment_accepts.
Qed.

Lemma email_and_calendar_are_best_effort_witness :
  effects (bookAppointment calendar_down booking_body None) = [bookingCreated; emailSent]
  /\ statusCode (bookAppointment calendar_down booking_body None) = 200
  /\ sendAppointmentConfirmationEmail calendar_down = true.
Proof.
  split; [reflexivity|]. split; [reflexivity|].
  apply (proj2 (proj2 (email_and_calendar_are_best_effort calendar_down booking_body None))).
  right. left.
Defined.

End ServerFacts.
